(** * IFQL: planner, storage source, stddev aggregator and parser runtime

    A shallow embedding of the parts of the IFQL query engine that the
    specification talks about:

    - [Execute]: the storage source ([storageSource.Next], [storageSource.Run]);
    - [Plan] and [Functions]: the physical planner ([planner.Plan],
      [pushDownAndSearch], [removeProcedure], [removeID]) and the push-down
      rules of [where] and [range];
    - [Stddev]: the [StddevAgg] aggregator over IEEE-754 binary64;
    - [Ifql]: the PEG runtime of the generated parser.

    Go's [int64] values are integers of [Z] with the wrap-around written out,
    Go maps are [gmap]s, slices are lists, objects reached through pointers
    live in an explicit heap. *)

From Stdlib Require Import ZArith Lia Bool List Sorted Floats.
From stdpp Require Import base option list gmap strings.

(** ** Go's 64-bit signed integers *)

Module Int64.
Local Open Scope Z_scope.

Definition min_int : Z := - 2 ^ 63.
Definition max_int : Z := 2 ^ 63 - 1.

(** The value an [int64] holds after an arithmetic result [z]. *)
Definition wrap (z : Z) : Z := (z + 2 ^ 63) mod 2 ^ 64 - 2 ^ 63.

Definition in_range (z : Z) : Prop := min_int <= z <= max_int.

Lemma wrap_in_range z : in_range (wrap z).
Proof.
  unfold in_range, wrap, min_int, max_int.
  pose proof (Z.mod_pos_bound (z + 2 ^ 63) (2 ^ 64) ltac:(lia)). lia.
Qed.

Lemma wrap_small z : in_range z -> wrap z = z.
Proof.
  unfold in_range, wrap, min_int, max_int. intros Hz.
  rewrite Z.mod_small by lia. lia.
Qed.
End Int64.

(** ** The storage source (package execute) *)

Module Execute.
Local Open Scope Z_scope.

(** Modelled from the spec: the declarations of [execute.Time] and
    [execute.Duration] are not among the sources; the spec gives both as
    64-bit nanosecond ticks, so they are [int64] values here. *)
Definition Time := Z.
Definition Duration := Z.

Definition DatasetID := nat.

Record Window := { Every : Duration; Period : Duration }.
Record Bounds := { Start : Time; Stop : Time }.

Section Source.
(** What the source reads and who it talks to is left open: the blocks,
    the read specification, the errors of the reader, and the outside
    world (the state of the storage reader and of the wall clock). *)
Context {Block ReadSpec Err World : Type}.

(** A drained [BlockIterator]: the blocks its [Do] hands out; the [nil]
    iterator hands out none. *)
Definition BlockIterator := list Block.

(** [StorageReader.Read] and [Now()], as transitions of the world. *)
Variable Read : World -> ReadSpec -> Time -> Time -> World * (BlockIterator + Err).
Variable Now : World -> World * Time.

(** A reference to a downstream [Transformation]. *)
Definition Transformation := nat.

Record storageSource := {
  id : DatasetID;
  readSpec : ReadSpec;
  window : Window;
  bounds : Bounds;
  ts : list Transformation;
  currentTime : Time
}.

Definition set_currentTime (s : storageSource) (t : Time) : storageSource :=
  {| id := id s; readSpec := readSpec s; window := window s;
     bounds := bounds s; ts := ts s; currentTime := t |}.

(** What [Run] does to the outside: the calls on the downstream
    transformations, in order, and the lines written to the log. *)
Inductive Call :=
| Process (t : Transformation) (d : DatasetID) (b : Block)
| UpdateProcessingTime (t : Transformation) (d : DatasetID) (now : Time)
| UpdateWatermark (t : Transformation) (d : DatasetID) (mark : Time)
| Finish (t : Transformation) (d : DatasetID)
| LogPrintln (e : Err).

(** [storageSource.Next]: the new source, the new world, what was logged,
    and the triple [(BlockIterator, Time, bool)] of the Go function. *)
Definition Next (s : storageSource) (w : World)
  : storageSource * World * list Call * (BlockIterator * Time * bool) :=
  let start := Int64.wrap (currentTime s - Period (window s)) in
  let stop := currentTime s in
  let s' := set_currentTime s (Int64.wrap (currentTime s + Every (window s))) in
  if stop >? Stop (bounds s) then (s', w, [], ([], 0, false))
  else
    match Read w (readSpec s) start stop with
    | (w', inr err) => (s', w', [LogPrintln err], ([], 0, false))
    | (w', inl bi) => (s', w', [], (bi, stop, true))
    end.

(** The body of [blocks.Do(func(b Block) {...})] for one block. *)
Fixpoint processBlock (d : DatasetID) (b : Block) (l : list Transformation) (w : World)
  : list Call * World :=
  match l with
  | [] => ([], w)
  | t :: l' =>
      let '(w1, now) := Now w in
      let '(tr, w2) := processBlock d b l' w1 in
      (Process t d b :: UpdateProcessingTime t d now :: tr, w2)
  end.

Fixpoint drain (d : DatasetID) (blocks : BlockIterator) (l : list Transformation) (w : World)
  : list Call * World :=
  match blocks with
  | [] => ([], w)
  | b :: blocks' =>
      let '(tr1, w1) := processBlock d b l w in
      let '(tr2, w2) := drain d blocks' l w1 in
      (tr1 ++ tr2, w2)
  end.

(** [storageSource.Run]. The loop runs as long as [Next] says so, which
    may be for ever; [fuel] bounds the number of calls of [Next], and the
    second component is [None] when the loop was cut short (the calls
    made so far are still reported). *)
Fixpoint Run (fuel : nat) (s : storageSource) (w : World)
  : list Call * option (storageSource * World) :=
  match fuel with
  | O => ([], None)
  | S fuel' =>
      match Next s w with
      | (s1, w1, logged, (blocks, mark, true)) =>
          let '(tr, w2) := drain (id s) blocks (ts s) w1 in
          let marks := map (fun t => UpdateWatermark t (id s) mark) (ts s) in
          let '(rest, final) := Run fuel' s1 w2 in
          (logged ++ tr ++ marks ++ rest, final)
      | (s1, w1, logged, (_, _, false)) =>
          (logged ++ map (fun t => Finish t (id s)) (ts s), Some (s1, w1))
      end
  end.

(** The marks a transformation was sent, in order. *)
Fixpoint watermarks (t : Transformation) (tr : list Call) : list Time :=
  match tr with
  | [] => []
  | UpdateWatermark t' _ mark :: tr' =>
      if Nat.eqb t t' then mark :: watermarks t tr' else watermarks t tr'
  | _ :: tr' => watermarks t tr'
  end.

(** The calls that reach the downstream transformations (everything but
    the log). *)
Fixpoint downstream (tr : list Call) : list Call :=
  match tr with
  | [] => []
  | LogPrintln _ :: tr' => downstream tr'
  | c :: tr' => c :: downstream tr'
  end.

(** The calls of a run, window after window. The window number [k] has the
    stop [currentTime + k * every] (plain integers, no wrap-around) and lies
    within the bounds; its blocks are what [Read] returned for
    [[stop - period, stop)]; the calls for it are those of draining these
    blocks, followed by one [UpdateWatermark] with that stop for every
    transformation. The run ends with the [Finish] calls when the next stop
    is past the bounds, with the logged error and the [Finish] calls when the
    read of the next window failed, or with nothing when it was cut short. *)
Inductive Windows (s : storageSource) : nat -> World -> list Call -> Prop :=
| Windows_cut k w :
    Windows s k w []
| Windows_past k w :
    currentTime s + Z.of_nat k * Every (window s) > Stop (bounds s) ->
    Windows s k w (map (fun t => Finish t (id s)) (ts s))
| Windows_failed k w w1 err :
    currentTime s + Z.of_nat k * Every (window s) <= Stop (bounds s) ->
    Read w (readSpec s)
      (Int64.wrap (currentTime s + Z.of_nat k * Every (window s) - Period (window s)))
      (currentTime s + Z.of_nat k * Every (window s)) = (w1, inr err) ->
    Windows s k w (LogPrintln err :: map (fun t => Finish t (id s)) (ts s))
| Windows_drained k w w1 blocks tr w2 rest :
    currentTime s + Z.of_nat k * Every (window s) <= Stop (bounds s) ->
    Read w (readSpec s)
      (Int64.wrap (currentTime s + Z.of_nat k * Every (window s) - Period (window s)))
      (currentTime s + Z.of_nat k * Every (window s)) = (w1, inl blocks) ->
    drain (id s) blocks (ts s) w1 = (tr, w2) ->
    Windows s (S k) w2 rest ->
    Windows s k w
      (tr ++ map (fun t => UpdateWatermark t (id s)
                             (currentTime s + Z.of_nat k * Every (window s))) (ts s)
          ++ rest).

(** *** Facts about [watermarks] and [downstream] *)

Lemma watermarks_app t tr1 tr2 :
  watermarks t (tr1 ++ tr2) = watermarks t tr1 ++ watermarks t tr2.
Proof.
  induction tr1 as [|c tr1 IH]; simpl; [reflexivity|].
  destruct c; try exact IH.
  destruct (Nat.eqb t t0); simpl; congruence.
Qed.

Lemma watermarks_processBlock t d b l w :
  watermarks t (fst (processBlock d b l w)) = [].
Proof.
  revert w. induction l as [|t' l IH]; intros w; simpl; [reflexivity|].
  destruct (Now w) as [w1 now]. specialize (IH w1).
  destruct (processBlock d b l w1) as [tr w2]. exact IH.
Qed.

Lemma watermarks_drain t d blocks l w :
  watermarks t (fst (drain d blocks l w)) = [].
Proof.
  revert w. induction blocks as [|b blocks IH]; intros w; simpl; [reflexivity|].
  pose proof (watermarks_processBlock t d b l w) as Hb.
  destruct (processBlock d b l w) as [tr1 w1]. specialize (IH w1).
  destruct (drain d blocks l w1) as [tr2 w2]. simpl in *.
  rewrite watermarks_app, Hb, IH. reflexivity.
Qed.

Lemma watermarks_marks t d mark l :
  Forall (fun m => m = mark) (watermarks t (map (fun t' => UpdateWatermark t' d mark) l)).
Proof.
  induction l as [|t' l IH]; simpl; [constructor|].
  destruct (Nat.eqb t t'); [constructor; [reflexivity|exact IH]|exact IH].
Qed.

Lemma watermarks_logged t (logged : list Call) :
  Forall (fun c => exists e, c = LogPrintln e) logged -> watermarks t logged = [].
Proof.
  induction 1 as [|c l [e ->] _ IH]; simpl; [reflexivity|exact IH].
Qed.

Lemma Next_logged s w :
  Forall (fun c => exists e, c = LogPrintln e) (snd (fst (Next s w))).
Proof.
  unfold Next. destruct (currentTime s >? Stop (bounds s)); simpl; [constructor|].
  destruct (Read _ _ _ _) as [w' [bi|err]]; simpl; [constructor|].
  constructor; [eauto|constructor].
Qed.

(** A list whose elements all equal [m], followed by a sorted list that
    starts no lower than [m], is sorted. *)
Lemma StronglySorted_const_app (m : Z) l1 l2 :
  Forall (fun x => x = m) l1 ->
  Forall (fun x => m <= x) l2 ->
  StronglySorted Z.le l2 ->
  StronglySorted Z.le (l1 ++ l2).
Proof.
  intros H1 H2 H3. induction H1 as [|x l1 -> Hl1 IH]; simpl; [exact H3|].
  constructor; [exact IH|].
  apply Forall_app. split.
  - eapply Forall_impl; [exact Hl1|]. simpl. intros; lia.
  - exact H2.
Qed.

Lemma downstream_Finish d (l : list Transformation) :
  downstream (map (fun t => Finish t d) l) = map (fun t => Finish t d) l.
Proof. induction l as [|t l IH]; simpl; congruence. Qed.

(** *** One call of [Next] *)

Lemma Next_source s w :
  fst (fst (fst (Next s w))) =
  set_currentTime s (Int64.wrap (currentTime s + Every (window s))).
Proof.
  unfold Next. destruct (currentTime s >? Stop (bounds s)); [reflexivity|].
  destruct (Read _ _ _ _) as [w' [bi|err]]; reflexivity.
Qed.

Lemma Next_true s w s1 w1 logged blocks mark :
  Next s w = (s1, w1, logged, (blocks, mark, true)) ->
  currentTime s <= Stop (bounds s) /\ mark = currentTime s /\
  s1 = set_currentTime s (Int64.wrap (currentTime s + Every (window s))).
Proof.
  unfold Next. destruct (Z.gtb_spec (currentTime s) (Stop (bounds s))) as [Hgt|Hle].
  - intros H. discriminate H.
  - destruct (Read _ _ _ _) as [w' [bi|err]]; intros H; [|discriminate H].
    injection H as <- <- <- <- <-. repeat split. exact Hle.
Qed.

(** C5 (as amended): [Next] computes the window
    [[currentTime - period, currentTime)] from the [currentTime] it finds,
    always advances [currentTime] by [every] (in 64-bit arithmetic), and
    reports no further window exactly when the stop of that window exceeds
    [bounds.Stop] or the reader's [Read] of that window returns an error;
    otherwise it yields the iterator read for that window and its stop. *)
Theorem Next_window (s : storageSource) (w : World) :
  let start := Int64.wrap (currentTime s - Period (window s)) in
  let stop := currentTime s in
  let '(s', w', _, (bi, mark, ok)) := Next s w in
  currentTime s' = Int64.wrap (currentTime s + Every (window s)) /\
  (ok = false <->
     stop > Stop (bounds s) \/
     exists e, snd (Read w (readSpec s) start stop) = inr e) /\
  (ok = true -> Read w (readSpec s) start stop = (w', inl bi) /\ mark = stop) /\
  (ok = false -> bi = [] /\ mark = 0).
Proof.
  unfold Next. cbv zeta.
  destruct (Z.gtb_spec (currentTime s) (Stop (bounds s))) as [Hgt|Hle].
  - simpl. repeat split; try discriminate; intros; auto. left; lia.
  - destruct (Read _ _ _ _) as [w' [bi|err]] eqn:HR; simpl.
    + repeat split; try discriminate; try reflexivity.
      intros [Hgt|[e He]]; [lia|discriminate].
    + repeat split; try discriminate; intros; auto. right; eauto.
Qed.

(** *** The whole of [Run] *)

Lemma Run_S fuel s w :
  Run (S fuel) s w =
  match Next s w with
  | (s1, w1, logged, (blocks, mark, true)) =>
      let '(tr, w2) := drain (id s) blocks (ts s) w1 in
      let marks := map (fun t => UpdateWatermark t (id s) mark) (ts s) in
      let '(rest, final) := Run fuel s1 w2 in
      (logged ++ tr ++ marks ++ rest, final)
  | (s1, w1, logged, (_, _, false)) =>
      (logged ++ map (fun t => Finish t (id s)) (ts s), Some (s1, w1))
  end.
Proof. reflexivity. Qed.

(** With a positive [every] and no overflow below [bounds.Stop + every],
    the loop of [Run] ends: [n] windows fit in the bounds, and [S n] calls
    of [Next] are enough. *)
Lemma Run_terminates (n : nat) s w :
  0 < Every (window s) ->
  Stop (bounds s) + Every (window s) <= Int64.max_int ->
  Int64.min_int <= currentTime s ->
  Stop (bounds s) - currentTime s < Z.of_nat n * Every (window s) ->
  snd (Run (S n) s w) <> None.
Proof.
  revert s w. induction n as [|n IH]; intros s w Hev Hmax Hmin Hn.
  - simpl. unfold Next.
    destruct (Z.gtb_spec (currentTime s) (Stop (bounds s))) as [Hgt|Hle]; [discriminate|lia].
  - rewrite Run_S.
    destruct (Next s w) as [[[s1 w1] logged] [[blocks mark] [|]]] eqn:HN; [|discriminate].
    apply Next_true in HN as (Hle & -> & ->).
    destruct (drain _ _ _ _) as [tr w2].
    assert (Hw : Int64.wrap (currentTime s + Every (window s)) = currentTime s + Every (window s))
      by (apply Int64.wrap_small; unfold Int64.in_range; lia).
    rewrite Hw.
    assert (Hs1 : snd (Run (S n) (set_currentTime s (currentTime s + Every (window s))) w2) <> None)
      by (apply IH; simpl; lia).
    destruct (Run (S n) _ w2) as [rest final]. exact Hs1.
Qed.

(** Without overflow and with a non-negative [every], the marks sent to a
    transformation never go down, start no lower than [currentTime], and are
    stops of windows within the bounds. *)
Lemma Run_watermarks_inv fuel s w t :
  0 <= Every (window s) ->
  Stop (bounds s) + Every (window s) <= Int64.max_int ->
  Int64.min_int <= currentTime s ->
  StronglySorted Z.le (watermarks t (fst (Run fuel s w))) /\
  Forall (fun m => exists k : nat,
            m = currentTime s + Z.of_nat k * Every (window s) /\
            currentTime s <= m <= Stop (bounds s))
         (watermarks t (fst (Run fuel s w))).
Proof.
  revert s w. induction fuel as [|fuel IH]; intros s w Hev Hmax Hmin.
  - simpl. split; constructor.
  - rewrite Run_S. pose proof (Next_logged s w) as Hlog.
    destruct (Next s w) as [[[s1 w1] logged] [[blocks mark] [|]]] eqn:HN; simpl in Hlog.
    + apply Next_true in HN as (Hle & -> & ->).
      pose proof (watermarks_drain t (id s) blocks (ts s) w1) as Hd.
      destruct (drain _ _ _ _) as [tr w2]. simpl in Hd.
      assert (Hw : Int64.wrap (currentTime s + Every (window s)) = currentTime s + Every (window s))
        by (apply Int64.wrap_small; unfold Int64.in_range; lia).
      rewrite Hw.
      destruct (IH (set_currentTime s (currentTime s + Every (window s))) w2)
        as [IHs IHf]; [simpl; lia..|].
      destruct (Run fuel _ w2) as [rest final]. cbn [fst] in *.
      rewrite !watermarks_app, (watermarks_logged t logged Hlog), Hd.
      cbn [app set_currentTime currentTime window bounds] in *.
      pose proof (watermarks_marks t (id s) (currentTime s) (ts s)) as Hm.
      split.
      * apply StronglySorted_const_app with (m := currentTime s); [exact Hm| |exact IHs].
        eapply Forall_impl; [exact IHf|]. cbv beta. intros m (k & _ & Hk). lia.
      * apply Forall_app. split.
        -- eapply Forall_impl; [exact Hm|]. cbv beta. intros m ->.
           exists 0%nat. split; lia.
        -- eapply Forall_impl; [exact IHf|]. cbv beta. intros m (k & -> & Hk).
           exists (S k). split; lia.
    + cbn [fst]. rewrite watermarks_app, (watermarks_logged t logged Hlog). simpl.
      assert (Hf : watermarks t (map (fun t0 => Finish t0 (id s)) (ts s)) = []).
      { clear. induction (ts s) as [|t' l IHl]; simpl; auto. }
      rewrite Hf. split; constructor.
Qed.

(** Without overflow, the calls of [Run] on a source that has come to its
    window number [k] are the windows from [k] on. *)
Lemma Run_Windows fuel :
  forall s0 (k : nat) s w,
    0 <= Every (window s0) ->
    Stop (bounds s0) + Every (window s0) <= Int64.max_int ->
    Int64.min_int <= currentTime s0 ->
    s = set_currentTime s0 (currentTime s0 + Z.of_nat k * Every (window s0)) ->
    Windows s0 k w (fst (Run fuel s w)).
Proof.
  induction fuel as [|fuel IH]; intros s0 k s w Hev Hmax Hmin Hs.
  - simpl. constructor.
  - rewrite Run_S. unfold Next. subst s.
    cbn [currentTime window bounds readSpec id ts set_currentTime].
    set (stop := currentTime s0 + Z.of_nat k * Every (window s0)).
    destruct (Z.gtb_spec stop (Stop (bounds s0))) as [Hgt|Hle].
    + cbn [fst app]. apply Windows_past. fold stop. lia.
    + destruct (Read w (readSpec s0) (Int64.wrap (stop - Period (window s0))) stop)
        as [w1 [blocks|err]] eqn:HR.
      * destruct (drain (id s0) blocks (ts s0) w1) as [tr w2] eqn:HD.
        assert (Hw : Int64.wrap (stop + Every (window s0)) = stop + Every (window s0)).
        { apply Int64.wrap_small. unfold Int64.in_range, stop.
          assert (0 <= Z.of_nat k * Every (window s0)) by (apply Z.mul_nonneg_nonneg; lia).
          lia. }
        rewrite Hw.
        assert (Hnext : set_currentTime (set_currentTime s0 stop) (stop + Every (window s0))
                        = set_currentTime s0
                            (currentTime s0 + Z.of_nat (S k) * Every (window s0))).
        { unfold set_currentTime, stop. cbn. f_equal. lia. }
        specialize (IH s0 (S k) _ w2 Hev Hmax Hmin Hnext).
        destruct (Run fuel _ w2) as [rest final]. cbn [fst app] in *.
        eapply Windows_drained; [exact Hle|exact HR|exact HD|exact IH].
      * cbn [fst app]. eapply Windows_failed; [exact Hle|exact HR].
Qed.

(** C6 (as amended): when [every] is non-negative and advancing
    [currentTime] cannot overflow the 64-bit time below
    [bounds.Stop + every], the marks that [Run] passes to [UpdateWatermark]
    of a downstream transformation never decrease, however long the loop
    runs, and each update is the stop [currentTime + k * every] of the window
    that was just drained: the calls of [Run] are, window after window from
    [k = 0], the calls of draining what [Read] returned for the window number
    [k], then the updates of every transformation with the stop of that very
    window. *)
Theorem Run_watermarks_monotone fuel s w t :
  0 <= Every (window s) ->
  Stop (bounds s) + Every (window s) <= Int64.max_int ->
  Int64.min_int <= currentTime s ->
  StronglySorted Z.le (watermarks t (fst (Run fuel s w))) /\
  Windows s 0 w (fst (Run fuel s w)).
Proof.
  intros Hev Hmax Hmin.
  destruct (Run_watermarks_inv fuel s w t Hev Hmax Hmin) as [Hs _].
  split; [exact Hs|].
  apply (Run_Windows fuel s 0%nat s w Hev Hmax Hmin).
  destruct s. unfold set_currentTime. cbn. f_equal. lia.
Qed.

(** C2 (as amended): when the reader's [Read] of a window within the bounds
    returns an error, [Next] writes the error to the log and reports no
    further window, so [Run] stops reading and calls [Finish] on every
    downstream transformation; the error itself goes nowhere but the log:
    the calls made downstream are the [Finish] calls of an ordinary end. *)
Theorem Run_read_error fuel s w w' err :
  currentTime s <= Stop (bounds s) ->
  Read w (readSpec s) (Int64.wrap (currentTime s - Period (window s))) (currentTime s)
    = (w', inr err) ->
  Run (S fuel) s w =
    (LogPrintln err :: map (fun t => Finish t (id s)) (ts s),
     Some (set_currentTime s (Int64.wrap (currentTime s + Every (window s))), w')) /\
  downstream (fst (Run (S fuel) s w)) = map (fun t => Finish t (id s)) (ts s).
Proof.
  intros Hle HR.
  assert (HRun : Run (S fuel) s w =
    (LogPrintln err :: map (fun t => Finish t (id s)) (ts s),
     Some (set_currentTime s (Int64.wrap (currentTime s + Every (window s))), w'))).
  { simpl. unfold Next.
    destruct (Z.gtb_spec (currentTime s) (Stop (bounds s))) as [Hgt|_]; [lia|].
    rewrite HR. reflexivity. }
  split; [exact HRun|]. rewrite HRun. simpl. apply downstream_Finish.
Qed.

End Source.

(** *** Concrete sources *)

(** A world that counts the reads; a reader that always fails, one that
    always returns an empty iterator, one that returns a single block (the
    start of the window), and a clock that stands still. *)
Definition failingRead (w : nat) (_ : unit) (_ _ : Time) : nat * (list Z + string) :=
  (S w, inr "read failed"%string).

Definition emptyRead (w : nat) (_ : unit) (_ _ : Time) : nat * (list Z + string) :=
  (S w, inl []).

Definition oneBlockRead (w : nat) (_ : unit) (start _ : Time) : nat * (list Z + string) :=
  (S w, inl [start]).

Definition stillClock (w : nat) : nat * Time := (w, 0).

(** Windows of 5 ticks every 5 ticks from 10, within [[0, 100)]. *)
Definition srcInBounds : storageSource (ReadSpec := unit) :=
  {| id := 1%nat; readSpec := tt; window := {| Every := 5; Period := 5 |};
     bounds := {| Start := 0; Stop := 100 |}; ts := [7%nat]; currentTime := 10 |}.

(** The same source once its [currentTime] has passed the bounds. *)
Definition srcPastBounds : storageSource (ReadSpec := unit) :=
  {| id := 1%nat; readSpec := tt; window := {| Every := 5; Period := 5 |};
     bounds := {| Start := 0; Stop := 100 |}; ts := [7%nat]; currentTime := 105 |}.

(** A source two ticks before the end of time, with unbounded stop. *)
Definition srcEndOfTime : storageSource (ReadSpec := unit) :=
  {| id := 1%nat; readSpec := tt; window := {| Every := 10; Period := 10 |};
     bounds := {| Start := 0; Stop := Int64.max_int |}; ts := [7%nat];
     currentTime := Int64.max_int - 1 |}.

Example Run_srcInBounds_first_window :
  firstn 4 (fst (Run oneBlockRead stillClock 3 srcInBounds 0%nat)) =
  [Process 7%nat 1%nat 5; UpdateProcessingTime 7%nat 1%nat 0;
   UpdateWatermark 7%nat 1%nat 10;
   Process 7%nat 1%nat 10].
Proof. reflexivity. Qed.

Example Run_srcInBounds_ends :
  snd (Run emptyRead stillClock 20 srcInBounds 0%nat)
  = Some (set_currentTime srcInBounds 110, 19%nat).
Proof. reflexivity. Qed.

(** C5, counterexample: inside the bounds (stop 10, bounds.Stop 100) [Next]
    reports no further window, because the read failed. *)
Lemma Next_ends_inside_bounds_on_read_error :
  snd (snd (Next failingRead srcInBounds 0%nat)) = false /\
  (currentTime srcInBounds >? Stop (bounds srcInBounds)) = false.
Proof. split; reflexivity. Qed.

(** C6, counterexample: with [every = 10 >= 0], the second mark is lower
    than the first, [currentTime] having wrapped around the 64-bit range. *)
Lemma Run_watermarks_decrease_on_overflow :
  0 <= Every (window srcEndOfTime) /\
  watermarks 7%nat (fst (Run emptyRead stillClock 2 srcEndOfTime 0%nat))
    = [Int64.max_int - 1; Int64.min_int + 8] /\
  Int64.min_int + 8 < Int64.max_int - 1.
Proof. split; [|split]; [vm_compute; discriminate|reflexivity|reflexivity]. Qed.

(** C2, counterexample: a failed read leaves downstream with the one
    [Finish] call that the ordinary end of the windows gives, and [Run]
    returns as usual; the error is in the log only. *)
Lemma Run_read_error_looks_like_end :
  fst (Run failingRead stillClock 3 srcInBounds 0%nat)
    = [LogPrintln "read failed"%string; Finish 7%nat 1%nat] /\
  downstream (fst (Run failingRead stillClock 3 srcInBounds 0%nat))
    = downstream (fst (Run emptyRead stillClock 3 srcPastBounds 0%nat)) /\
  is_Some (snd (Run failingRead stillClock 3 srcInBounds 0%nat)).
Proof. split; [reflexivity|split; [reflexivity|eexists; reflexivity]]. Qed.

Lemma Run_watermarks_monotone_witness :
  StronglySorted Z.le (watermarks 7%nat (fst (Run emptyRead stillClock 30 srcInBounds 0%nat))) /\
  Windows emptyRead stillClock srcInBounds 0 0%nat
    (fst (Run emptyRead stillClock 30 srcInBounds 0%nat)).
Proof.
  apply (Run_watermarks_monotone emptyRead stillClock 30 srcInBounds 0%nat 7%nat);
    vm_compute; discriminate.
Defined.

Lemma Run_read_error_witness :
  Run failingRead stillClock 3 srcInBounds 0%nat =
    (LogPrintln "read failed"%string :: map (fun t => Finish t (id srcInBounds)) (ts srcInBounds),
     Some (set_currentTime srcInBounds
             (Int64.wrap (currentTime srcInBounds + Every (window srcInBounds))), 1%nat)) /\
  downstream (fst (Run failingRead stillClock 3 srcInBounds 0%nat))
    = map (fun t => Finish t (id srcInBounds)) (ts srcInBounds).
Proof.
  apply (Run_read_error failingRead stillClock 2 srcInBounds 0%nat 1%nat "read failed"%string);
    [vm_compute; discriminate|reflexivity].
Defined.

End Execute.

(** ** The physical planner (package plan) *)

Module Plan.

Definition ProcedureID := string.
Definition ProcedureKind := string.

Record PushDownRule := {
  Root : ProcedureKind;
  Through : list ProcedureKind
}.

(** What a call can end in: a value, a run-time panic (a nil dereference, a
    failed type assertion), or the fuel of a recursion running out. *)
Inductive Result (A : Type) :=
| Ok (a : A)
| Panic
| OutOfFuel.
Arguments Ok {A} a.
Arguments Panic {A}.
Arguments OutOfFuel {A}.

Definition bind {A B} (r : Result A) (k : A -> Result B) : Result B :=
  match r with
  | Ok a => k a
  | Panic => Panic
  | OutOfFuel => OutOfFuel
  end.

#[global] Instance Result_bind : MBind Result := fun A B k r => bind r k.

(** A [for ... range] loop whose body may panic. *)
Fixpoint forRange {A St} (l : list A) (body : St -> A -> Result St) (st : St) : Result St :=
  match l with
  | [] => Ok st
  | a :: l' => st' ← body st a; forRange l' body st'
  end.

Definition ofOption {A} (o : option A) : Result A :=
  match o with
  | Some a => Ok a
  | None => Panic
  end.

Record Procedure (S : Type) := {
  ID : ProcedureID;
  Parents : list ProcedureID;
  Children : list ProcedureID;
  Spec : S
}.
Arguments ID {S} _.
Arguments Parents {S} _.
Arguments Children {S} _.
Arguments Spec {S} _.

Definition set_Children {S} (pr : Procedure S) (l : list ProcedureID) : Procedure S :=
  {| ID := ID pr; Parents := Parents pr; Children := l; Spec := Spec pr |}.

Definition set_Parents {S} (pr : Procedure S) (l : list ProcedureID) : Procedure S :=
  {| ID := ID pr; Parents := l; Children := Children pr; Spec := Spec pr |}.

Definition set_Spec {S} (pr : Procedure S) (s : S) : Procedure S :=
  {| ID := ID pr; Parents := Parents pr; Children := Children pr; Spec := s |}.

(** The interface [ProcedureSpec], with the capabilities a spec may have
    besides: [PushDownProcedureSpec] (its rule, when it has one, and its
    [PushDown], which changes the root procedure it is given) and
    [BoundedProcedureSpec] (its [TimeBounds], when it has them). [B] is
    [plan.BoundsSpec]. *)
Class ProcedureSpec (S B : Type) := {
  Kind : S -> ProcedureKind;
  pushDownRule : S -> option PushDownRule;
  PushDown : S -> Procedure S -> Result (Procedure S);
  TimeBounds : S -> option B
}.

(** [*Procedure] values are addresses in a heap of procedures: the logical
    plan and the plan being built share the procedures they point to. *)
Definition ptr := positive.

(** Modelled from the spec: [LogicalPlanSpec] is not among the sources; the
    planner uses its [Procedures], its [Order] and its [Do], which walks
    [Order] as [PlanSpec.Do] does. *)
Record LogicalPlanSpec := {
  lProcedures : gmap ProcedureID ptr;
  lOrder : list ProcedureID
}.

Record PlanSpec (B T : Type) := {
  Now : T;
  Bounds : B;
  Procedures : gmap ProcedureID ptr;
  Order : list ProcedureID;
  Results : list ProcedureID
}.
Arguments Now {B T} _.
Arguments Bounds {B T} _.
Arguments Procedures {B T} _.
Arguments Order {B T} _.
Arguments Results {B T} _.

(** [hasKind] *)
Fixpoint hasKind (kind : ProcedureKind) (kinds : list ProcedureKind) : bool :=
  match kinds with
  | [] => false
  | k :: kinds' => if String.eqb k kind then true else hasKind kind kinds'
  end.

(** The index of the first [id == remove] of the loop of [removeID]. *)
Fixpoint indexOf (remove : ProcedureID) (ids : list ProcedureID) : option nat :=
  match ids with
  | [] => None
  | id :: ids' =>
      if String.eqb id remove then Some O
      else match indexOf remove ids' with
           | Some i => Some (S i)
           | None => None
           end
  end.

(** [removeID]: [filtered] starts as the empty prefix [ids[0:0]]; at the
    first [i] with [ids[i] == remove] it becomes [ids[0:i]] followed by
    [ids[i+1:]], and the loop ends; when no element matches it is returned
    as it started, empty. *)
Definition removeID (ids : list ProcedureID) (remove : ProcedureID) : list ProcedureID :=
  match indexOf remove ids with
  | Some i => firstn i ids ++ skipn (S i) ids
  | None => []
  end.

Section Planner.
Context {S B T : Type} `{ProcedureSpec S B}.

(** [BoundsSpec.Union] (not among the sources). *)
Variable Union : B -> B -> T -> B.

(** The procedures in memory, by address. *)
Local Abbreviation Heap := (gmap ptr (Procedure S)).

(** The planner at work: the procedures in memory and [p.plan]. *)
Record planner := {
  heap : Heap;
  plan : PlanSpec B T
}.

Definition set_heap (p : planner) (h : Heap) : planner :=
  {| heap := h; plan := plan p |}.

Definition set_plan (p : planner) (pl : PlanSpec B T) : planner :=
  {| heap := heap p; plan := pl |}.

(** [*pr], which panics on [nil] (an address with nothing behind it). *)
Definition deref (p : planner) (pr : option ptr) : Result (Procedure S) :=
  match pr with
  | Some a => ofOption (heap p !! a)
  | None => Panic
  end.

(** An assignment through a pointer that was dereferenced before. *)
Definition store (p : planner) (pr : option ptr) (v : Procedure S) : planner :=
  match pr with
  | Some a => set_heap p (<[a := v]> (heap p))
  | None => p
  end.

(** [planner.pushDownAndSearch]; the recursion follows the parents and
    [fuel] bounds its depth. *)
Fixpoint pushDownAndSearch (fuel : nat) (p : planner) (pr : option ptr)
    (rule : PushDownRule) (do : Procedure S -> Result (Procedure S)) : Result planner :=
  match fuel with
  | O => OutOfFuel
  | Datatypes.S fuel' =>
      prv ← deref p pr;
      forRange (Parents prv)
        (fun p parent =>
           let pp := Procedures (plan p) !! parent in
           ppv ← deref p pp;
           let pk := Kind (Spec ppv) in
           if String.eqb pk (Root rule) then
             ppv' ← do ppv; Ok (store p pp ppv')
           else if hasKind pk (Through rule) then
             pushDownAndSearch fuel' p pp rule do
           else
             Ok p)
        p
  end.

(** The two loops of [removeProcedure], one round each. *)
Definition spliceChildren (pr : option ptr) (p : planner) (id : ProcedureID) : Result planner :=
  let parent := Procedures (plan p) !! id in
  parentv ← deref p parent;
  prv ← deref p pr;
  let p1 := store p parent (set_Children parentv (removeID (Children parentv) (ID prv))) in
  parentv1 ← deref p1 parent;
  prv1 ← deref p1 pr;
  Ok (store p1 parent (set_Children parentv1 (Children parentv1 ++ Children prv1))).

Definition spliceParents (pr : option ptr) (p : planner) (id : ProcedureID) : Result planner :=
  let child := Procedures (plan p) !! id in
  childv ← deref p child;
  prv ← deref p pr;
  let p1 := store p child (set_Parents childv (removeID (Parents childv) (ID prv))) in
  childv1 ← deref p1 child;
  prv1 ← deref p1 pr;
  Ok (store p1 child (set_Parents childv1 (Parents childv1 ++ Parents prv1))).

(** [planner.removeProcedure] *)
Definition removeProcedure (p : planner) (pr : option ptr) : Result planner :=
  prv ← deref p pr;
  let pl := plan p in
  let p1 := set_plan p
    {| Now := Now pl; Bounds := Bounds pl;
       Procedures := delete (ID prv) (Procedures pl);
       Order := removeID (Order pl) (ID prv);
       Results := Results pl |} in
  p2 ← forRange (Parents prv) (spliceChildren pr) p1;
  prv2 ← deref p2 pr;
  forRange (Children prv2) (spliceParents pr) p2.

(** The three passes of [planner.Plan]. *)
Definition populate (ap : LogicalPlanSpec) (p : planner) (id : ProcedureID) : Result planner :=
  let pr := lProcedures ap !! id in
  prv ← deref p pr;
  let pl := plan p in
  Ok (set_plan p
        {| Now := Now pl; Bounds := Bounds pl;
           Procedures := match pr with
                         | Some a => <[ID prv := a]> (Procedures pl)
                         | None => Procedures pl
                         end;
           Order := Order pl ++ [ID prv];
           Results := Results pl |}).

Definition pushDown (fuel : nat) (now : T) (ap : LogicalPlanSpec) (p : planner)
    (id : ProcedureID) : Result planner :=
  let pr := lProcedures ap !! id in
  prv ← deref p pr;
  p1 ← match pushDownRule (Spec prv) with
        | Some rule =>
            p' ← pushDownAndSearch fuel p pr rule (PushDown (Spec prv));
            removeProcedure p' pr
        | None => Ok p
        end;
  prv1 ← deref p1 pr;
  match TimeBounds (Spec prv1) with
  | Some bounds =>
      let pl := plan p1 in
      Ok (set_plan p1
            {| Now := Now pl; Bounds := Union (Bounds pl) bounds now;
               Procedures := Procedures pl; Order := Order pl;
               Results := Results pl |})
  | None => Ok p1
  end.

Definition findResult (p : planner) (id : ProcedureID) : Result planner :=
  prv ← deref p (Procedures (plan p) !! id);
  match Children prv with
  | [] =>
      let pl := plan p in
      Ok (set_plan p
            {| Now := Now pl; Bounds := Bounds pl; Procedures := Procedures pl;
               Order := Order pl; Results := Results pl ++ [ID prv] |})
  | _ :: _ => Ok p
  end.

(** [planner.Plan]: [h] holds the procedures of the logical plan [ap];
    [zero] is the zero value of [BoundsSpec]. The error the Go function
    returns besides is always [nil]. *)
Definition Plan (fuel : nat) (zero : B) (h : Heap) (ap : LogicalPlanSpec) (now : T)
  : Result planner :=
  let p0 := {| heap := h;
               plan := {| Now := now; Bounds := zero; Procedures := ∅;
                          Order := []; Results := [] |} |} in
  p1 ← forRange (lOrder ap) (populate ap) p0;
  p2 ← forRange (lOrder ap) (pushDown fuel now ap) p1;
  forRange (Order (plan p2)) findResult p2.

(** *** [removeID] *)

Lemma indexOf_first (l1 l2 : list ProcedureID) x :
  x ∉ l1 -> indexOf x (l1 ++ x :: l2) = Some (length l1).
Proof.
  induction l1 as [|y l1 IH]; intros Hx; simpl.
  - rewrite String.eqb_refl. reflexivity.
  - apply not_elem_of_cons in Hx as [Hne Hx].
    destruct (String.eqb_spec y x) as [->|_]; [congruence|].
    rewrite IH by exact Hx. reflexivity.
Qed.

Lemma indexOf_absent (l : list ProcedureID) x : x ∉ l -> indexOf x l = None.
Proof.
  induction l as [|y l IH]; intros Hx; simpl; [reflexivity|].
  apply not_elem_of_cons in Hx as [Hne Hx].
  destruct (String.eqb_spec y x) as [->|_]; [congruence|].
  rewrite IH by exact Hx. reflexivity.
Qed.

(** [removeID] takes out the first occurrence and keeps the rest in order. *)
Lemma removeID_first (l1 l2 : list ProcedureID) x :
  x ∉ l1 -> removeID (l1 ++ x :: l2) x = l1 ++ l2.
Proof.
  intros Hx. unfold removeID. rewrite indexOf_first by exact Hx.
  rewrite firstn_app, Nat.sub_diag, firstn_all. simpl. rewrite app_nil_r.
  change (Datatypes.S (length l1)) with (1 + length l1)%nat.
  rewrite Nat.add_comm, <- (drop_drop (l1 ++ x :: l2)).
  rewrite drop_app_length. reflexivity.
Qed.

(** On a list that does not hold the identifier, [removeID] returns the
    empty list. *)
Lemma removeID_absent (l : list ProcedureID) x : x ∉ l -> removeID l x = [].
Proof. intros Hx. unfold removeID. rewrite indexOf_absent by exact Hx. reflexivity. Qed.

(** *** [removeProcedure] *)

(** What a round of the first loop does to a parent [Q] of the removed
    procedure [P], and a round of the second loop to a child. *)
Definition relinkChildren (P Q : Procedure S) : Procedure S :=
  set_Children Q (removeID (Children Q) (ID P) ++ Children P).

Definition relinkParents (P Q : Procedure S) : Procedure S :=
  set_Parents Q (removeID (Parents Q) (ID P) ++ Parents P).

Definition alterAll (f : Procedure S -> Procedure S) (h : Heap) (qs : list ptr) : Heap :=
  foldl (fun h q => alter f q h) h qs.

Lemma alterAll_cons f h q qs : alterAll f h (q :: qs) = alterAll f (alter f q h) qs.
Proof. reflexivity. Qed.

Lemma alterAll_notin f h qs a : a ∉ qs -> alterAll f h qs !! a = h !! a.
Proof.
  revert h. induction qs as [|q qs IH]; intros h Ha; [reflexivity|].
  apply not_elem_of_cons in Ha as [Hne Ha].
  rewrite alterAll_cons, IH by exact Ha. apply lookup_alter_ne. congruence.
Qed.

Lemma alterAll_once f h qs q : NoDup qs -> q ∈ qs -> alterAll f h qs !! q = f <$> h !! q.
Proof.
  revert h. induction qs as [|q' qs IH]; intros h Hnd Hq; [inversion Hq|].
  apply NoDup_cons in Hnd as [Hq' Hnd]. rewrite alterAll_cons.
  apply elem_of_cons in Hq as [->|Hq].
  - rewrite alterAll_notin by exact Hq'. apply lookup_alter_eq.
  - rewrite IH by assumption. rewrite lookup_alter_ne; [reflexivity|].
    intros ->. contradiction.
Qed.

Lemma alterAll_preserves {A} (g : Procedure S -> A) f h qs q :
  (forall Q, g (f Q) = g Q) -> g <$> alterAll f h qs !! q = g <$> h !! q.
Proof.
  intros Hg. revert h. induction qs as [|q' qs IH]; intros h; [reflexivity|].
  rewrite alterAll_cons, IH. destruct (decide (q' = q)) as [->|Hne].
  - rewrite lookup_alter_eq. destruct (h !! q); simpl; [rewrite Hg|]; reflexivity.
  - rewrite lookup_alter_ne by exact Hne. reflexivity.
Qed.

Lemma alterAll_is_Some f h qs q : is_Some (alterAll f h qs !! q) <-> is_Some (h !! q).
Proof.
  pose proof (alterAll_preserves (fun _ => tt) f h qs q (fun _ => eq_refl)) as E.
  destruct (alterAll f h qs !! q), (h !! q); simpl in E; try discriminate;
    split; intros [x Hx]; try discriminate; eauto.
Qed.

Lemma alter_lookup_insert (f : Procedure S -> Procedure S) (h : Heap) q Q :
  h !! q = Some Q -> <[q := f Q]> h = alter f q h.
Proof.
  intros HQ. apply map_eq. intros i. destruct (decide (q = i)) as [->|Hne].
  - rewrite lookup_insert_eq, lookup_alter_eq, HQ. reflexivity.
  - rewrite lookup_insert_ne, lookup_alter_ne by exact Hne. reflexivity.
Qed.

Lemma spliceChildren_ok p a P id q Q :
  heap p !! a = Some P ->
  Procedures (plan p) !! id = Some q ->
  q <> a ->
  heap p !! q = Some Q ->
  spliceChildren (Some a) p id = Ok (set_heap p (alter (relinkChildren P) q (heap p))).
Proof.
  intros HP Hid Hne HQ. unfold spliceChildren. rewrite Hid. simpl.
  rewrite HQ, HP. simpl.
  rewrite lookup_insert_eq, lookup_insert_ne, HP by exact Hne. simpl.
  unfold set_heap. simpl. rewrite insert_insert_eq.
  rewrite <- (alter_lookup_insert (relinkChildren P) _ _ _ HQ). reflexivity.
Qed.

Lemma spliceParents_ok p a P id q Q :
  heap p !! a = Some P ->
  Procedures (plan p) !! id = Some q ->
  q <> a ->
  heap p !! q = Some Q ->
  spliceParents (Some a) p id = Ok (set_heap p (alter (relinkParents P) q (heap p))).
Proof.
  intros HP Hid Hne HQ. unfold spliceParents. rewrite Hid. simpl.
  rewrite HQ, HP. simpl.
  rewrite lookup_insert_eq, lookup_insert_ne, HP by exact Hne. simpl.
  unfold set_heap. simpl. rewrite insert_insert_eq.
  rewrite <- (alter_lookup_insert (relinkParents P) _ _ _ HQ). reflexivity.
Qed.

(** A loop of [removeProcedure] over identifiers that the plan resolves to
    the procedures at [qs], none of them the removed one. *)
Lemma forRange_splice (body : option ptr -> planner -> ProcedureID -> Result planner)
    (f : Procedure S -> Procedure S) a P :
  (forall p id q Q,
      heap p !! a = Some P -> Procedures (plan p) !! id = Some q -> q <> a ->
      heap p !! q = Some Q ->
      body (Some a) p id = Ok (set_heap p (alter f q (heap p)))) ->
  forall l qs p,
    heap p !! a = Some P ->
    Forall2 (fun id q => Procedures (plan p) !! id = Some q) l qs ->
    Forall (fun q => q <> a /\ is_Some (heap p !! q)) qs ->
    forRange l (body (Some a)) p = Ok (set_heap p (alterAll f (heap p) qs)).
Proof.
  intros Hbody l. induction l as [|id l IH]; intros qs p HP Hl Hqs.
  - apply Forall2_nil_inv_l in Hl as ->. destruct p; reflexivity.
  - apply Forall2_cons_inv_l in Hl as (q & qs' & Hid & Hl & ->).
    apply Forall_cons in Hqs as [[Hne [Q HQ]] Hqs].
    rewrite alterAll_cons.
    cbn [forRange]. rewrite (Hbody p id q Q HP Hid Hne HQ).
    change (forRange l (body (Some a)) (set_heap p (alter f q (heap p))) =
            Ok (set_heap (set_heap p (alter f q (heap p)))
                  (alterAll f (heap (set_heap p (alter f q (heap p)))) qs'))).
    apply IH.
    + simpl. rewrite lookup_alter_ne by exact Hne. exact HP.
    + exact Hl.
    + eapply Forall_impl; [exact Hqs|]. simpl. intros q' [Hne' Hq']. split; [exact Hne'|].
      apply lookup_alter_is_Some. exact Hq'.
Qed.

(** [removeProcedure] in closed form: the plan forgets the procedure, every
    parent is relinked, then every child. *)
Lemma removeProcedure_ok p a P qsP qsC :
  heap p !! a = Some P ->
  Forall2 (fun id q => delete (ID P) (Procedures (plan p)) !! id = Some q) (Parents P) qsP ->
  Forall2 (fun id q => delete (ID P) (Procedures (plan p)) !! id = Some q) (Children P) qsC ->
  Forall (fun q => q <> a /\ is_Some (heap p !! q)) (qsP ++ qsC) ->
  removeProcedure p (Some a) =
  Ok {| heap := alterAll (relinkParents P) (alterAll (relinkChildren P) (heap p) qsP) qsC;
        plan := {| Now := Now (plan p); Bounds := Bounds (plan p);
                   Procedures := delete (ID P) (Procedures (plan p));
                   Order := removeID (Order (plan p)) (ID P);
                   Results := Results (plan p) |} |}.
Proof.
  intros HP HfP HfC Hqs. apply Forall_app in Hqs as [HqsP HqsC].
  unfold removeProcedure. cbn [deref]. rewrite HP. cbn [ofOption mbind Result_bind bind].
  erewrite (forRange_splice spliceChildren (relinkChildren P) a P
              (fun p id q Q => spliceChildren_ok p a P id q Q) (Parents P) qsP);
    [|exact HP|exact HfP|exact HqsP].
  cbn [mbind Result_bind bind deref set_heap set_plan heap plan].
  assert (Ha : a ∉ qsP).
  { intros Hin. rewrite Forall_forall in HqsP. destruct (HqsP a Hin) as [Hne _]. congruence. }
  rewrite (alterAll_notin _ _ _ _ Ha), HP. cbn [ofOption mbind Result_bind bind].
  erewrite (forRange_splice spliceParents (relinkParents P) a P
              (fun p id q Q => spliceParents_ok p a P id q Q) (Children P) qsC).
  - reflexivity.
  - cbn [heap set_heap]. rewrite (alterAll_notin _ _ _ _ Ha). exact HP.
  - exact HfC.
  - eapply Forall_impl; [exact HqsC|]. cbn [heap set_heap]. intros q [Hne Hq].
    split; [exact Hne|]. apply alterAll_is_Some. exact Hq.
Qed.

(** C3 (as amended): removing a procedure [P] from the plan, when its
    parents and children are in the plan as distinct procedures, deletes the
    first occurrence of [P]'s identifier from each parent's [Children] and
    appends [P]'s children after what is left, and deletes it from each
    child's [Parents] and appends [P]'s parents; the order of what is left is
    kept, and nothing is de-duplicated. *)
Theorem removeProcedure_splices p a P qsP qsC :
  heap p !! a = Some P ->
  Forall2 (fun id q => delete (ID P) (Procedures (plan p)) !! id = Some q) (Parents P) qsP ->
  Forall2 (fun id q => delete (ID P) (Procedures (plan p)) !! id = Some q) (Children P) qsC ->
  Forall (fun q => q <> a /\ is_Some (heap p !! q)) (qsP ++ qsC) ->
  NoDup qsP -> NoDup qsC ->
  exists p',
    removeProcedure p (Some a) = Ok p' /\
    Procedures (plan p') = delete (ID P) (Procedures (plan p)) /\
    Order (plan p') = removeID (Order (plan p)) (ID P) /\
    (forall q Q l1 l2,
        q ∈ qsP -> heap p !! q = Some Q ->
        Children Q = l1 ++ ID P :: l2 -> ID P ∉ l1 ->
        exists Q', heap p' !! q = Some Q' /\ Children Q' = l1 ++ l2 ++ Children P) /\
    (forall q Q l1 l2,
        q ∈ qsC -> heap p !! q = Some Q ->
        Parents Q = l1 ++ ID P :: l2 -> ID P ∉ l1 ->
        exists Q', heap p' !! q = Some Q' /\ Parents Q' = l1 ++ l2 ++ Parents P).
Proof.
  intros HP HfP HfC Hqs HndP HndC.
  eexists. split; [exact (removeProcedure_ok p a P qsP qsC HP HfP HfC Hqs)|].
  cbn [heap plan Procedures Order].
  split; [reflexivity|]. split; [reflexivity|]. split.
  - intros q Q l1 l2 Hq HQ Hl Hl1.
    pose proof (alterAll_preserves Children (relinkParents P)
                  (alterAll (relinkChildren P) (heap p) qsP) qsC q (fun _ => eq_refl)) as E.
    rewrite (alterAll_once _ _ _ _ HndP Hq), HQ in E. simpl in E.
    destruct (alterAll (relinkParents P) _ qsC !! q) as [Q'|]; [|discriminate].
    exists Q'. split; [reflexivity|]. injection E as ->.
    rewrite Hl, removeID_first by exact Hl1. rewrite <- app_assoc. reflexivity.
  - intros q Q l1 l2 Hq HQ Hl Hl1.
    rewrite (alterAll_once _ _ _ _ HndC Hq).
    pose proof (alterAll_preserves Parents (relinkChildren P) (heap p) qsP q
                  (fun _ => eq_refl)) as E.
    rewrite HQ in E. simpl in E.
    destruct (alterAll (relinkChildren P) (heap p) qsP !! q) as [Q1|]; [|discriminate].
    injection E as E. eexists. split; [reflexivity|]. simpl.
    rewrite E, Hl, removeID_first by exact Hl1. rewrite <- app_assoc. reflexivity.
Qed.

End Planner.
End Plan.

(** ** The procedure specs of [where], [range], [stddev] and [select]
    (package functions) *)

Module Functions.
Import Plan.

Definition WhereKind : ProcedureKind := "where".
Definition RangeKind : ProcedureKind := "range".
Definition StddevKind : ProcedureKind := "stddev".

(** Modelled from the spec: the constants [SelectKind] and [LimitKind] are
    declared in files that are not among the sources; the kinds are named
    after their functions. *)
Definition SelectKind : ProcedureKind := "select".
Definition LimitKind : ProcedureKind := "limit".

Section Specs.
(** The predicate of a where expression and [plan.BoundsSpec] are left open. *)
Context {Predicate B : Type}.

(** [query.ExpressionSpec], as far as [where] reads it. *)
Record ExpressionSpec := { Predicate_ : Predicate }.

Record WhereProcedureSpec := { Exp : option ExpressionSpec }.

Record RangeProcedureSpec := { Range_Bounds : B }.

(** Modelled from the spec: [SelectProcedureSpec] is declared in a file that
    is not among the sources; these are the fields [where] and [range] write
    to, and the database it reads. *)
Record SelectProcedureSpec := {
  Database : string;
  BoundsSet : bool;
  Select_Bounds : B;
  WhereSet : bool;
  Where : Predicate
}.

(** The values of the interface [plan.ProcedureSpec] met here. *)
Inductive Spec :=
| SelectProcedure (s : SelectProcedureSpec)
| WhereProcedure (s : WhereProcedureSpec)
| RangeProcedure (s : RangeProcedureSpec)
| StddevProcedure.

Definition Spec_Kind (s : Spec) : ProcedureKind :=
  match s with
  | SelectProcedure _ => SelectKind
  | WhereProcedure _ => WhereKind
  | RangeProcedure _ => RangeKind
  | StddevProcedure => StddevKind
  end.

(** [WhereProcedureSpec.PushDownRule] *)
Definition Where_PushDownRule (s : WhereProcedureSpec) : PushDownRule :=
  {| Root := SelectKind; Through := [LimitKind; RangeKind] |}.

(** [WhereProcedureSpec.PushDown]: the type assertion on [root.Spec] panics
    on anything but a select spec, and so does reading the predicate of a
    [nil] expression. The branch on [WhereSet] is empty in the source. *)
Definition Where_PushDown (s : WhereProcedureSpec) (root : Procedure Spec)
  : Result (Procedure Spec) :=
  match Plan.Spec root with
  | SelectProcedure selectSpec =>
      exp ← ofOption (Exp s);
      Ok (set_Spec root
            (SelectProcedure
               {| Database := Database selectSpec;
                  BoundsSet := BoundsSet selectSpec;
                  Select_Bounds := Select_Bounds selectSpec;
                  WhereSet := true;
                  Where := Predicate_ exp |}))
  | _ => Panic
  end.

(** [RangeProcedureSpec.PushDownRule] *)
Definition Range_PushDownRule (s : RangeProcedureSpec) : PushDownRule :=
  {| Root := SelectKind; Through := [LimitKind; WhereKind] |}.

(** [RangeProcedureSpec.PushDown]; the branch on [BoundsSet] is empty in the
    source. *)
Definition Range_PushDown (s : RangeProcedureSpec) (root : Procedure Spec)
  : Result (Procedure Spec) :=
  match Plan.Spec root with
  | SelectProcedure selectSpec =>
      Ok (set_Spec root
            (SelectProcedure
               {| Database := Database selectSpec;
                  BoundsSet := true;
                  Select_Bounds := Range_Bounds s;
                  WhereSet := WhereSet selectSpec;
                  Where := Where selectSpec |}))
  | _ => Panic
  end.

(** Which specs declare time bounds is decided in files that are not among
    the sources. *)
Variable Spec_TimeBounds : Spec -> option B.

#[local] Instance Spec_ProcedureSpec : ProcedureSpec Spec B := {|
  Kind := Spec_Kind;
  pushDownRule s :=
    match s with
    | WhereProcedure w => Some (Where_PushDownRule w)
    | RangeProcedure r => Some (Range_PushDownRule r)
    | _ => None
    end;
  PushDown s :=
    match s with
    | WhereProcedure w => Where_PushDown w
    | RangeProcedure r => Range_PushDown r
    | _ => fun _ => Panic
    end;
  TimeBounds := Spec_TimeBounds
|}.

(** [planner.Plan] over these specs. *)
Definition Plan {T} (Union : B -> B -> T -> B) (fuel : nat) (zero : B)
    (h : gmap ptr (Procedure Spec)) (ap : LogicalPlanSpec) (now : T)
  : Result (planner (S := Spec) (B := B) (T := T)) :=
  Plan.Plan Union fuel zero h ap now.

(** C4 (as amended): pushing a [where] or a [range] down into a select root
    writes the new predicate, or the new bounds, over whatever the root
    held and sets the bit, whether the bit was set before or not; nothing
    else of the root changes, and nothing about an earlier value is kept. *)
Theorem PushDown_overwrites (w : WhereProcedureSpec) (r : RangeProcedureSpec)
    (e : ExpressionSpec) (root : Procedure Spec) (sel : SelectProcedureSpec) :
  Exp w = Some e ->
  Plan.Spec root = SelectProcedure sel ->
  Where_PushDown w root =
    Ok (set_Spec root
          (SelectProcedure
             {| Database := Database sel; BoundsSet := BoundsSet sel;
                Select_Bounds := Select_Bounds sel;
                WhereSet := true; Where := Predicate_ e |})) /\
  Range_PushDown r root =
    Ok (set_Spec root
          (SelectProcedure
             {| Database := Database sel; BoundsSet := true;
                Select_Bounds := Range_Bounds r;
                WhereSet := WhereSet sel; Where := Where sel |})).
Proof.
  intros He Hroot. unfold Where_PushDown, Range_PushDown.
  rewrite Hroot, He. split; reflexivity.
Qed.

End Specs.

(** *** Concrete plans *)

(** Predicates and bounds are written as text here. *)
Local Open Scope string_scope.

Definition selectSpec0 : SelectProcedureSpec (Predicate := string) (B := string) :=
  {| Database := "mydb"; BoundsSet := false; Select_Bounds := "";
     WhereSet := false; Where := "" |}.

Definition mkProcedure (id : ProcedureID) (parents children : list ProcedureID)
    (s : Spec (Predicate := string) (B := string)) : Procedure Spec :=
  {| ID := id; Parents := parents; Children := children; Plan.Spec := s |}.

Definition whereSpec (pred : string) : Spec (Predicate := string) (B := string) :=
  WhereProcedure {| Exp := Some {| Predicate_ := pred |} |}.

Definition rangeSpec (b : string) : Spec (Predicate := string) (B := string) :=
  RangeProcedure {| Range_Bounds := b |}.

(** A heap and a logical plan from the procedures in plan order: the
    procedure at position [i] lives at address [i + 1]. *)
Fixpoint heapOf (a : ptr) (l : list (Procedure (Spec (Predicate := string) (B := string))))
  : gmap ptr (Procedure (Spec (Predicate := string) (B := string))) :=
  match l with
  | [] => ∅
  | pr :: l' => <[a := pr]> (heapOf (Pos.succ a) l')
  end.

Fixpoint procsOf (a : ptr) (l : list (Procedure (Spec (Predicate := string) (B := string))))
  : gmap ProcedureID ptr :=
  match l with
  | [] => ∅
  | pr :: l' => <[ID pr := a]> (procsOf (Pos.succ a) l')
  end.

Definition logicalPlan (l : list (Procedure (Spec (Predicate := string) (B := string))))
  : LogicalPlanSpec :=
  {| lProcedures := procsOf 1%positive l; lOrder := map ID l |}.

(** [select(db).stddev().where(x > 1)]: the parent of the [where] is a
    [stddev], which is neither the root [select] of its rule nor one of the
    kinds it passes through. *)
Definition blockedWhere : list (Procedure Spec) :=
  [ mkProcedure "select0" [] ["stddev1"] (SelectProcedure selectSpec0);
    mkProcedure "stddev1" ["select0"] ["where2"] StddevProcedure;
    mkProcedure "where2" ["stddev1"] [] (whereSpec "x > 1") ].

(** [select(db).where(a).where(b)], and the same with the second [where]
    only. *)
Definition twoWheres : list (Procedure Spec) :=
  [ mkProcedure "select0" [] ["where1"] (SelectProcedure selectSpec0);
    mkProcedure "where1" ["select0"] ["where2"] (whereSpec "a");
    mkProcedure "where2" ["where1"] [] (whereSpec "b") ].

Definition oneWhere : list (Procedure Spec) :=
  [ mkProcedure "select0" [] ["where2"] (SelectProcedure selectSpec0);
    mkProcedure "where2" ["select0"] [] (whereSpec "b") ].

(** A [select] read twice by a join, once through a [range]:
    [a = select(db); b = a.range(..); join(a, b)]. *)
Definition diamond : list (Procedure Spec) :=
  [ mkProcedure "select0" [] ["range1"; "stddev2"] (SelectProcedure selectSpec0);
    mkProcedure "range1" ["select0"] ["stddev2"] (rangeSpec "-1h");
    mkProcedure "stddev2" ["range1"; "select0"] [] StddevProcedure ].

(** A chain [select(db).range(..).stddev()]. *)
Definition chain : list (Procedure Spec) :=
  [ mkProcedure "select0" [] ["range1"] (SelectProcedure selectSpec0);
    mkProcedure "range1" ["select0"] ["stddev2"] (rangeSpec "-1h");
    mkProcedure "stddev2" ["range1"] [] StddevProcedure ].

(** The planner as [Plan] has it after its first pass over [l]. *)
Definition populated (l : list (Procedure Spec)) : planner (S := Spec) (B := string) (T := unit) :=
  {| heap := heapOf 1%positive l;
     plan := {| Now := tt; Bounds := ""; Procedures := procsOf 1%positive l;
                Order := map ID l; Results := [] |} |}.

(** What is left of a planner to look at: the procedures of the plan in
    order, each with its parents, children and spec, and the results. *)
Definition summary {T} (p : planner (S := Spec (Predicate := string) (B := string)) (B := string) (T := T))
  : list (option (Procedure Spec)) * list ProcedureID :=
  (map (fun id => match Procedures (plan p) !! id with
                  | Some a => heap p !! a
                  | None => None
                  end) (Order (plan p)),
   Results (plan p)).

Example Plan_chain (TB : Spec -> option string) :
  TB = (fun _ => None) ->
  (summary <$> match Plan TB (fun a _ (_ : unit) => a) 3 "" (heapOf 1%positive chain)
                       (logicalPlan chain) tt with
               | Ok p => Some p
               | _ => None
               end) =
  Some ([ Some (mkProcedure "select0" [] ["stddev2"]
                  (SelectProcedure
                     {| Database := "mydb"; BoundsSet := true; Select_Bounds := "-1h";
                        WhereSet := false; Where := "" |}));
          Some (mkProcedure "stddev2" ["select0"] [] StddevProcedure) ],
        ["stddev2"]).
Proof. intros ->. vm_compute. reflexivity. Qed.

(** C1: the code at the failing input. The [where] of
    [select(db).stddev().where(x > 1)] cannot be pushed down, its parent
    being a [stddev]; [Plan] removes it all the same: the plan it returns
    holds [select0] and [stddev1] only, the select is as it was (no
    predicate), and the predicate [x > 1] is nowhere in the plan. This holds
    whichever specs declare time bounds and whatever [Union] does. *)
Theorem Plan_removes_blocked_pushdown {T : Type} (TB : Spec -> option string)
    (U : string -> string -> T -> string) (now : T) :
  match Plan TB U 3 "" (heapOf 1%positive blockedWhere) (logicalPlan blockedWhere) now with
  | Ok p =>
      Procedures (plan p) !! "where2" = None /\
      Order (plan p) = ["select0"; "stddev1"] /\
      summary p =
        ([ Some (mkProcedure "select0" [] ["stddev1"] (SelectProcedure selectSpec0));
           Some (mkProcedure "stddev1" ["select0"] [] StddevProcedure) ],
         ["stddev1"])
  | _ => False
  end.
Proof.
  vm_compute.
  repeat match goal with
         | |- context [TB ?x] => destruct (TB x)
         end;
    repeat split; reflexivity.
Qed.

(** C3, counterexample: removing [range1] from the diamond leaves
    [stddev2] twice among the children of [select0], and [select0] twice
    among the parents of [stddev2]. *)
Lemma removeProcedure_duplicates :
  match removeProcedure (populated diamond) (Some 2%positive) with
  | Ok p =>
      Children <$> heap p !! 1%positive = Some ["stddev2"; "stddev2"] /\
      Parents <$> heap p !! 3%positive = Some ["select0"; "select0"]
  | _ => False
  end.
Proof. vm_compute. split; reflexivity. Qed.

Lemma removeProcedure_splices_witness :
  exists p',
    removeProcedure (populated chain) (Some 2%positive) = Ok p' /\
    Procedures (plan p') = delete "range1" (Procedures (plan (populated chain))) /\
    Order (plan p') = removeID (Order (plan (populated chain))) "range1" /\
    (forall q Q l1 l2,
        q ∈ [1%positive] -> heap (populated chain) !! q = Some Q ->
        Children Q = (l1 ++ "range1" :: l2)%list -> "range1" ∉ l1 ->
        exists Q', heap p' !! q = Some Q' /\ Children Q' = (l1 ++ l2 ++ ["stddev2"])%list) /\
    (forall q Q l1 l2,
        q ∈ [3%positive] -> heap (populated chain) !! q = Some Q ->
        Parents Q = (l1 ++ "range1" :: l2)%list -> "range1" ∉ l1 ->
        exists Q', heap p' !! q = Some Q' /\ Parents Q' = (l1 ++ l2 ++ ["select0"])%list).
Proof.
  apply (removeProcedure_splices (populated chain) 2%positive
           (mkProcedure "range1" ["select0"] ["stddev2"] (rangeSpec "-1h"))
           [1%positive] [3%positive]).
  - reflexivity.
  - repeat constructor.
  - repeat constructor.
  - repeat constructor; try discriminate; eexists; reflexivity.
  - apply NoDup_singleton.
  - apply NoDup_singleton.
Defined.

(** C4, counterexample: a root whose bit is set and a root whose bit is not
    come out of [PushDown] the same, for [where] and for [range]; and [Plan]
    returns for [select(db).where(a).where(b)] what it returns for
    [select(db).where(b)]: no trace of the first predicate. *)
Lemma PushDown_keeps_no_record :
  Where_PushDown {| Exp := Some {| Predicate_ := "b" |} |}
      (mkProcedure "select0" [] []
         (SelectProcedure {| Database := "mydb"; BoundsSet := false; Select_Bounds := "";
                             WhereSet := true; Where := "a" |}))
    = Where_PushDown {| Exp := Some {| Predicate_ := "b" |} |}
        (mkProcedure "select0" [] [] (SelectProcedure selectSpec0)) /\
  Range_PushDown {| Range_Bounds := "-1d" |}
      (mkProcedure "select0" [] []
         (SelectProcedure {| Database := "mydb"; BoundsSet := true; Select_Bounds := "-2d";
                             WhereSet := false; Where := "" |}))
    = Range_PushDown {| Range_Bounds := "-1d" |}
        (mkProcedure "select0" [] [] (SelectProcedure selectSpec0)) /\
  match Plan (fun _ => None) (fun a _ (_ : unit) => a) 3 ""
          (heapOf 1%positive twoWheres) (logicalPlan twoWheres) tt,
        Plan (fun _ => None) (fun a _ (_ : unit) => a) 3 ""
          (heapOf 1%positive oneWhere) (logicalPlan oneWhere) tt with
  | Ok p2, Ok p1 => plan p2 = plan p1 /\ summary p2 = summary p1
  | _, _ => False
  end.
Proof. split; [reflexivity|split; [reflexivity|]]. vm_compute. split; reflexivity. Qed.

Lemma PushDown_overwrites_witness :
  Where_PushDown {| Exp := Some {| Predicate_ := "b" |} |}
      (mkProcedure "select0" [] []
         (SelectProcedure {| Database := "mydb"; BoundsSet := false; Select_Bounds := "";
                             WhereSet := true; Where := "a" |}))
    = Ok (mkProcedure "select0" [] []
            (SelectProcedure {| Database := "mydb"; BoundsSet := false; Select_Bounds := "";
                                WhereSet := true; Where := "b" |})) /\
  Range_PushDown {| Range_Bounds := "-1d" |}
      (mkProcedure "select0" [] []
         (SelectProcedure {| Database := "mydb"; BoundsSet := false; Select_Bounds := "";
                             WhereSet := true; Where := "a" |}))
    = Ok (mkProcedure "select0" [] []
            (SelectProcedure {| Database := "mydb"; BoundsSet := true; Select_Bounds := "-1d";
                                WhereSet := true; Where := "a" |})).
Proof.
  apply (PushDown_overwrites
           {| Exp := Some {| Predicate_ := "b" |} |} {| Range_Bounds := "-1d" |}
           {| Predicate_ := "b" |}
           (mkProcedure "select0" [] []
              (SelectProcedure {| Database := "mydb"; BoundsSet := false; Select_Bounds := "";
                                  WhereSet := true; Where := "a" |}))
           {| Database := "mydb"; BoundsSet := false; Select_Bounds := "";
              WhereSet := true; Where := "a" |});
    reflexivity.
Defined.

End Functions.

(** ** The stddev aggregator (package functions) *)

Module Stddev.
Local Open Scope float_scope.

(** [float64] is IEEE-754 binary64, the kernel's primitive [float]; every
    operation is rounded on its own (no fused multiply-add). *)
Record StddevAgg := {
  n : float;
  m2 : float;
  mean : float
}.

(** [new(StddevAgg)] *)
Definition new : StddevAgg := {| n := 0; m2 := 0; mean := 0 |}.

(** The body of the loop of [Do], for one value [v]. *)
Definition step (a : StddevAgg) (v : float) : StddevAgg :=
  let n' := n a + 1 in
  let delta := v - mean a in
  let mean' := mean a + delta / n' in
  let delta2 := v - mean' in
  {| n := n'; m2 := m2 a + delta * delta2; mean := mean' |}.

(** [StddevAgg.Do] *)
Definition Do (a : StddevAgg) (vs : list float) : StddevAgg :=
  fold_left step vs a.

(** [StddevAgg.Value] *)
Definition Value (a : StddevAgg) : float :=
  if n a <? 2 then nan else sqrt (m2 a / (n a - 1)).

(** [StddevAgg.Reset] *)
Definition Reset (a : StddevAgg) : StddevAgg :=
  {| n := 0; m2 := 0; mean := 0 |}.

(** The aggregate transformation feeds an aggregator the value vectors of a
    window one after the other. *)
Definition DoAll (a : StddevAgg) (vss : list (list float)) : StddevAgg :=
  fold_left Do vss a.

(** Welford's recurrence on the triple (count, mean, sum of squared
    deviations), as the spec has it, in binary64. *)
Fixpoint welford (k mu s : float) (vs : list float) : float * float * float :=
  match vs with
  | [] => (k, mu, s)
  | v :: vs' =>
      let k' := k + 1 in
      let mu' := mu + (v - mu) / k' in
      welford k' mu' (s + (v - mu) * (v - mu')) vs'
  end.

(** The count after [k] values: [k] times [+ 1] from [0]. *)
Fixpoint count (k : nat) (x : float) : float :=
  match k with
  | O => x
  | S k' => count k' (x + 1)
  end.

Lemma Do_cons a v vs : Do a (v :: vs) = Do (step a v) vs.
Proof. reflexivity. Qed.

Lemma Do_app a vs ws : Do a (vs ++ ws) = Do (Do a vs) ws.
Proof. unfold Do. apply fold_left_app. Qed.

Lemma n_Do a vs : n (Do a vs) = count (length vs) (n a).
Proof.
  revert a. induction vs as [|v vs IH]; intros a; [reflexivity|].
  rewrite Do_cons, IH. reflexivity.
Qed.

Lemma Do_welford a vs :
  welford (n a) (mean a) (m2 a) vs = (n (Do a vs), mean (Do a vs), m2 (Do a vs)).
Proof.
  revert a. induction vs as [|v vs IH]; intros a; [reflexivity|].
  rewrite Do_cons, <- IH. reflexivity.
Qed.

(** *** The count is exact enough: from two values on it is at least 2 *)

Section Binary64.
Local Open Scope Z_scope.

Lemma digits2_pos_size p : digits2_pos p = Pos.size p.
Proof. induction p; simpl; congruence. Qed.

Lemma digits2_bounds p : 2 ^ (Zpos (digits2_pos p) - 1) <= Zpos p < 2 ^ Zpos (digits2_pos p).
Proof.
  rewrite digits2_pos_size. split.
  - pose proof (Pos.size_le p) as H.
    assert (E : Zpos (2 ^ Pos.size p) = 2 ^ Zpos (Pos.size p)) by (rewrite Pos2Z.inj_pow; reflexivity).
    assert (2 ^ Zpos (Pos.size p) <= 2 * Zpos p) by (rewrite <- E; exact (Pos2Z.pos_le_pos _ _ H)).
    replace (2 ^ Zpos (Pos.size p)) with (2 * 2 ^ (Zpos (Pos.size p) - 1)) in H0.
    lia. rewrite <- Z.pow_succ_r by lia. f_equal. lia.
  - pose proof (Pos.size_gt p) as H.
    assert (E : Zpos (2 ^ Pos.size p) = 2 ^ Zpos (Pos.size p)) by (rewrite Pos2Z.inj_pow; reflexivity).
    rewrite <- E. exact (Pos2Z.pos_lt_pos _ _ H).
Qed.

Lemma shr_1_m mrs : 0 <= shr_m mrs -> shr_m (shr_1 mrs) = shr_m mrs / 2.
Proof.
  destruct mrs as [m r s]. simpl. intros Hm.
  destruct m as [|p|p]; [reflexivity| |lia].
  destruct p as [p|p|]; simpl.
  - rewrite Pos2Z.inj_xI. apply Z.div_unique with (r := 1); lia.
  - rewrite Pos2Z.inj_xO. apply Z.div_unique with (r := 0); lia.
  - reflexivity.
Qed.

Lemma iter_pos_nat {A} (f : A -> A) p x : SpecFloat.iter_pos f p x = Nat.iter (Pos.to_nat p) f x.
Proof.
  revert x. induction p as [p IH|p IH|]; intros x; cbn [SpecFloat.iter_pos].
  - rewrite !IH. rewrite Pos2Nat.inj_xI.
    replace (S (2 * Pos.to_nat p))%nat with (Pos.to_nat p + (Pos.to_nat p + 1))%nat by lia.
    rewrite !Nat.iter_add. reflexivity.
  - rewrite !IH. rewrite Pos2Nat.inj_xO.
    replace (2 * Pos.to_nat p)%nat with (Pos.to_nat p + Pos.to_nat p)%nat by lia.
    rewrite Nat.iter_add. reflexivity.
  - reflexivity.
Qed.

Lemma iter_shr_1_m k mrs :
  0 <= shr_m mrs -> shr_m (Nat.iter k shr_1 mrs) = shr_m mrs / 2 ^ Z.of_nat k.
Proof.
  intros Hm. induction k as [|k IH].
  - simpl. rewrite Z.div_1_r. reflexivity.
  - rewrite Nat2Z.inj_succ, Z.pow_succ_r by lia.
    change (Nat.iter (S k) shr_1 mrs) with (shr_1 (Nat.iter k shr_1 mrs)).
    assert (Hp : 0 < 2 ^ Z.of_nat k) by (apply Z.pow_pos_nonneg; lia).
    rewrite shr_1_m, IH.
    + rewrite Z.div_div by lia. f_equal. lia.
    + rewrite IH. apply Z.div_pos; lia.
Qed.

Lemma shr_m_pos mrs e k :
  0 < shr_m mrs -> (0 <= k -> 2 ^ k <= shr_m mrs) ->
  0 < shr_m (fst (shr mrs e k)) /\ e <= snd (shr mrs e k) /\ e + k <= snd (shr mrs e k).
Proof.
  intros Hpos Hm. destruct k as [|p|p]; cbn [shr fst snd]; [lia| |lia].
  rewrite iter_pos_nat, iter_shr_1_m by lia.
  rewrite positive_nat_Z. split; [|lia].
  apply Z.div_str_pos. split; [apply Z.pow_pos_nonneg; lia|apply Hm; lia].
Qed.

Lemma round_nearest_even_ge m l : m <= round_nearest_even m l.
Proof.
  destruct l as [|[| |]]; simpl; try lia. destruct (Z.even m); lia.
Qed.

(** A binary64 number that is at least two: a positive number with exponent
    at least [-51] (its mantissa has 53 bits), or plus infinity. *)
Definition ge2 (r : spec_float) : Prop :=
  match r with
  | S754_finite false _ e => -51 <= e
  | S754_infinity false => True
  | _ => False
  end.

Lemma fexp_ge (x : Z) : -1074 <= x - 53 -> fexp 53 1024 x = x - 53.
Proof. intros H. unfold fexp, emin. rewrite Z.max_l; lia. Qed.

Lemma binary_round_aux_ge2 (M : positive) (e0 : Z) (l : location) :
  -51 <= Zpos (digits2_pos M) + e0 - 53 ->
  ge2 (binary_round_aux 53 1024 false (Zpos M) e0 l).
Proof.
  intros HD. pose proof (digits2_bounds M) as HM.
  unfold binary_round_aux.
  unfold shr_fexp at 1. cbn [Zdigits2].
  rewrite fexp_ge by lia.
  set (mrs0 := shr_record_of_loc (Zpos M) l).
  assert (Hm0 : shr_m mrs0 = Zpos M) by (unfold mrs0; destruct l as [|[| |]]; reflexivity).
  destruct (shr_m_pos mrs0 e0 (Zpos (digits2_pos M) + e0 - 53 - e0)) as (H1 & H2 & H3).
  { rewrite Hm0. lia. }
  { rewrite Hm0. intros Hk. etransitivity; [|exact (proj1 HM)].
    apply Z.pow_le_mono_r; lia. }
  destruct (shr mrs0 e0 _) as [mrs' e'] eqn:E1. cbn [fst snd] in *.
  set (m2 := round_nearest_even (shr_m mrs') (loc_of_shr_record mrs')).
  assert (Hm2 : 0 < m2) by (pose proof (round_nearest_even_ge (shr_m mrs') (loc_of_shr_record mrs')); unfold m2; lia).
  unfold shr_fexp. cbn [shr_record_of_loc].
  destruct m2 as [|p2|p2] eqn:Em2; try lia. cbn [Zdigits2].
  pose proof (digits2_bounds p2) as Hp2.
  destruct (shr_m_pos {| shr_m := Zpos p2; shr_r := false; shr_s := false |} e'
              (fexp 53 1024 (Zpos (digits2_pos p2) + e') - e')) as (H4 & H5 & H6).
  { simpl. lia. }
  { cbn [shr_m]. intros Hk. etransitivity; [|exact (proj1 Hp2)].
    apply Z.pow_le_mono_r; [lia|]. unfold fexp, emin in *. lia. }
  destruct (shr _ e' _) as [mrs'' e''] eqn:E2. cbn [fst snd] in *.
  destruct (shr_m mrs'') as [|m|m]; try lia.
  destruct (e'' <=? 1024 - 53); simpl; lia.
Qed.

Lemma iter_xO_ge m d : (m~0 <= Pos.iter xO m d)%positive.
Proof.
  induction d using Pos.peano_ind.
  - simpl. lia.
  - rewrite Pos.iter_succ. lia.
Qed.

Lemma SFadd_one_ge2 m e :
  -51 <= e -> bounded 53 1024 m e = true ->
  ge2 (SFadd 53 1024 (S754_finite false m e) (S754_finite false 4503599627370496 (-52))).
Proof.
  intros He Hb. unfold bounded, canonical_mantissa in Hb.
  apply andb_prop in Hb as [Hc _]. apply Z.eqb_eq in Hc.
  unfold fexp, emin in Hc.
  pose proof (digits2_bounds m) as Hm.
  assert (Hd : Zpos (digits2_pos m) = 53) by lia. rewrite Hd in Hm.
  unfold SFadd. rewrite Z.min_r by lia.
  unfold shl_align at 1 2.
  replace (-52 - -52) with 0 by lia. cbn [fst cond_Zopp].
  destruct (-52 - e) as [|d|d] eqn:Ed; try lia. cbn [fst].
  pose proof (iter_xO_ge m d) as Hit.
  change (Zpos (Pos.iter xO m d) + Zpos 4503599627370496)
    with (Zpos (Pos.iter xO m d + 4503599627370496)).
  set (M := (Pos.iter xO m d + 4503599627370496)%positive).
  assert (HM : 2 ^ 53 < Zpos M).
  { unfold M. rewrite Pos2Z.inj_add. 
    assert (2 * Zpos m <= Zpos (Pos.iter xO m d)) by (change (2 * Zpos m) with (Zpos m~0); apply Pos2Z.pos_le_pos; exact Hit).
    change (2 ^ (53 - 1)) with 4503599627370496 in Hm. change (2^53) with 9007199254740992. lia. }
  pose proof (digits2_bounds M) as HDM.
  assert (HD : 54 <= Zpos (digits2_pos M)).
  { destruct (Z_lt_le_dec (Zpos (digits2_pos M)) 54) as [Hlt|]; [|assumption].
    exfalso. assert (2 ^ Zpos (digits2_pos M) <= 2 ^ 53) by (apply Z.pow_le_mono_r; lia). lia. }
  unfold binary_normalize, binary_round.
  rewrite fexp_ge by lia.
  unfold shl_align.
  destruct (Zpos (digits2_pos M) + -52 - 53 - -52) as [|q|q] eqn:Eq; try lia;
    apply binary_round_aux_ge2; lia.
Qed.

Lemma add_one_ge2 (x : float) : ge2 (Prim2SF x) -> ge2 (Prim2SF (x + 1)%float).
Proof.
  intros Hx. rewrite add_spec.
  change (Prim2SF 1%float) with (S754_finite false 4503599627370496 (-52)).
  pose proof (Prim2SF_valid x) as Hv.
  destruct (Prim2SF x) as [s|s| |s m e]; try contradiction.
  - destruct s; [contradiction|exact I].
  - destruct s; [contradiction|]. apply SFadd_one_ge2; assumption.
Qed.

Lemma ge2_ltb (x : float) : ge2 (Prim2SF x) -> (x <? 2)%float = false.
Proof.
  intros Hx. rewrite ltb_spec.
  change (Prim2SF 2%float) with (S754_finite false 4503599627370496 (-51)).
  pose proof (Prim2SF_valid x) as Hv.
  destruct (Prim2SF x) as [s|s| |s m e]; try contradiction.
  - destruct s; [contradiction|reflexivity].
  - destruct s; [contradiction|]. simpl in Hx.
    unfold SFltb, SFcompare.
    destruct (Z.compare_spec e (-51)) as [->|Hlt|Hgt]; [|lia|reflexivity].
    unfold valid_binary, bounded, canonical_mantissa in Hv.
    apply andb_prop in Hv as [Hc _]. apply Z.eqb_eq in Hc.
    unfold fexp, emin, FloatOps.prec, FloatOps.emax in Hc.
    pose proof (digits2_bounds m) as Hm.
    assert (Hd : Zpos (digits2_pos m) = 53) by lia. rewrite Hd in Hm.
    change (2 ^ (53 - 1)) with (Zpos 4503599627370496) in Hm.
    rewrite Pos.compare_cont_spec. simpl.
    destruct (Pos.compare_spec m 4503599627370496) as [E|E|E]; try reflexivity.
    exfalso. apply Pos2Z.pos_lt_pos in E. lia.
Qed.

End Binary64.

Lemma count_ge2 k x : ge2 (Prim2SF x) -> ge2 (Prim2SF (count k x)).
Proof.
  revert x. induction k as [|k IH]; intros x Hx; [exact Hx|].
  simpl. apply IH, add_one_ge2, Hx.
Qed.

(** After two values or more the count is not below 2. *)
Lemma n_Do_ge2 vs : (2 <= length vs)%nat -> (n (Do new vs) <? 2) = false.
Proof.
  intros Hlen. apply ge2_ltb. rewrite n_Do.
  destruct vs as [|v1 [|v2 vs]]; simpl in Hlen; try lia.
  change (count (length (v1 :: v2 :: vs)) (n new)) with (count (length vs) 2).
  apply count_ge2. change (-51 <= -51)%Z. lia.
Qed.

(** With fewer than two values the count is 0 or 1. *)
Lemma n_Do_lt2 vs : (length vs < 2)%nat -> (n (Do new vs) <? 2) = true.
Proof.
  intros Hlen. rewrite n_Do.
  destruct vs as [|v1 [|v2 vs]]; simpl in Hlen; try lia; reflexivity.
Qed.

(** C7: [Do] runs Welford's recurrence on (count, mean, sum of squared
    deviations) in binary64; for every sequence of values fed to a new
    aggregator, [Value] is NaN when fewer than two values were fed and
    [sqrt (m2 / (n - 1))] of the recurrence otherwise; over 1, 2, 3, 4 it is
    the binary64 value of [sqrt (5 / 3)], which lies between 1.2909944 and
    1.2909945. *)
Theorem Value_welford (vs : list float) :
  welford 0 0 0 vs = (n (Do new vs), mean (Do new vs), m2 (Do new vs)) /\
  Value (Do new vs) =
    (if (length vs <? 2)%nat then nan
     else sqrt (m2 (Do new vs) / (n (Do new vs) - 1))) /\
  Value (Do new [1; 2; 3; 4]) = sqrt (5 / 3) /\
  (1.2909944 <? Value (Do new [1; 2; 3; 4])) = true /\
  (Value (Do new [1; 2; 3; 4]) <? 1.2909945) = true.
Proof.
  split; [exact (Do_welford new vs)|].
  split; [|repeat split; reflexivity].
  unfold Value. destruct (Nat.ltb_spec (length vs) 2) as [Hlt|Hge].
  - rewrite n_Do_lt2 by exact Hlt. reflexivity.
  - rewrite n_Do_ge2 by exact Hge. reflexivity.
Qed.

(** C10: [Reset] puts an aggregator back into the state of a new one, so
    what was fed before a [Reset] does not show in what is computed after
    it: feeding [xs], resetting and feeding [ys] gives the aggregator, and
    the [Value], of feeding [ys] to a new aggregator. *)
Theorem Reset_new (a : StddevAgg) (xs ys : list float) :
  Reset a = new /\
  Do (Reset (Do a xs)) ys = Do new ys /\
  Value (Do (Reset (Do new xs)) ys) = Value (Do new ys).
Proof. repeat split; reflexivity. Qed.

End Stddev.

(** ** The parser runtime and the grammar (package ifql) *)

Module Ifql.

Definition byte := Byte.byte.
Definition rune := Z.

(** [utf8.RuneError] *)
Definition RuneError : rune := 65533%Z.

(** [position]; the numbers are Go [int]s, never negative here. *)
Record position := { line : nat; col : nat; offset : nat }.

(** [savepoint], which embeds a [position]. *)
Record savepoint := { position_ : position; rn : rune; w : nat }.

(** The run of an [actionExpr]: the method [callon...] of the parser it names. *)
Inductive action :=
| callonStart1
| callonProgram1
| callonSourceElements1
| callonVariableStatement1
| callonVariableDeclarationList1
| callonVariableDeclaration1
| callonInitializer1
| callonExpressionStatement1
| callonMemberExpression1
| callonMemberExpression7
| callonCallExpression1
| callonCallExpression4
| callonCallExpression14
| callonCallExpression19
| callonArguments1
| callonFunctionArgs1
| callonFunctionArgsRest1
| callonFunctionArg1
| callonWhereExpr1
| callonLogicalOperators1
| callonLogical1
| callonEqualityOperators1
| callonEquality1
| callonRelationalOperators1
| callonRelational1
| callonAdditiveOperator1
| callonAdditive1
| callonMultiplicativeOperator1
| callonMultiplicative1
| callonPrimary2
| callonDateTime1
| callonDuration1
| callonStringLiteral2
| callonStringLiteral8
| callonDoubleStringEscape3
| callonString1
| callonNumber1
| callonField1
| callonRegularExpressionLiteral1
| callonRegularExpressionBody1
| callonRegularExpressionChar2
| callonRegularExpressionBackslashSequence2
| callonRegularExpressionNonTerminator1.

(** The expressions of a grammar. Each node carries its address (the memo
    table is keyed by the pointer to the node); the position of the node in
    the grammar file is left out, and so are [andCodeExpr], [notCodeExpr]
    and the Unicode classes of a [charClassMatcher], of which the grammar
    [g] has none. *)
Inductive expr :=
| actionExpr (addr : nat) (run : action) (e : expr)
| andExpr (addr : nat) (e : expr)
| notExpr (addr : nat) (e : expr)
| zeroOrOneExpr (addr : nat) (e : expr)
| zeroOrMoreExpr (addr : nat) (e : expr)
| oneOrMoreExpr (addr : nat) (e : expr)
| choiceExpr (addr : nat) (alternatives : list expr)
| seqExpr (addr : nat) (exprs : list expr)
| labeledExpr (addr : nat) (label : string) (e : expr)
| ruleRefExpr (addr : nat) (name : string)
| litMatcher (addr : nat) (val : string) (ignoreCase : bool)
| charClassMatcher (addr : nat) (val : string) (chars : list rune) (ranges : list rune)
    (ignoreCase : bool) (inverted : bool)
| anyMatcher (addr : nat).

Definition addr_of (e : expr) : nat :=
  match e with
  | actionExpr a _ _ | andExpr a _ | notExpr a _ | zeroOrOneExpr a _
  | zeroOrMoreExpr a _ | oneOrMoreExpr a _ | choiceExpr a _ | seqExpr a _
  | labeledExpr a _ _ | ruleRefExpr a _ | litMatcher a _ _
  | charClassMatcher a _ _ _ _ _ | anyMatcher a => a
  end.

Record rule := { name : string; displayName : string; expr_ : expr }.

Record grammar := { rules_ : list rule }.

(** Characters that a string of this file cannot hold as they are. *)
Definition dq : string := String (Ascii.ascii_of_nat 34) "".
Definition nl : string := String (Ascii.ascii_of_nat 10) "".
Definition tab : string := String (Ascii.ascii_of_nat 9) "".
Definition cr : string := String (Ascii.ascii_of_nat 13) "".
Definition bs : string := String (Ascii.ascii_of_nat 92) "".

Local Open Scope string_scope.

(** The grammar [g], rule by rule as in the source. *)
Definition g : grammar := {|
  rules_ := [
    {| name := "Start";
       displayName := "";
       expr_ :=
        actionExpr 0 callonStart1
          (seqExpr 1
            [
              ruleRefExpr 2 "__";
              labeledExpr 3 "program"
                (ruleRefExpr 4 "Program");
              ruleRefExpr 5 "__"
            ]) |};
    {| name := "Program";
       displayName := "";
       expr_ :=
        actionExpr 6 callonProgram1
          (labeledExpr 7 "body"
            (ruleRefExpr 8 "SourceElements")) |};
    {| name := "SourceElements";
       displayName := "";
       expr_ :=
        actionExpr 9 callonSourceElements1
          (seqExpr 10
            [
              labeledExpr 11 "head"
                (ruleRefExpr 12 "SourceElement");
              labeledExpr 13 "tail"
                (zeroOrMoreExpr 14
                  (seqExpr 15
                    [
                      ruleRefExpr 16 "__";
                      ruleRefExpr 17 "SourceElement"
                    ]))
            ]) |};
    {| name := "SourceElement";
       displayName := "";
       expr_ :=
        ruleRefExpr 18 "Statement" |};
    {| name := "Statement";
       displayName := "";
       expr_ :=
        choiceExpr 19
          [
            labeledExpr 20 "varstmt"
              (ruleRefExpr 21 "VariableStatement");
            labeledExpr 22 "exprstmt"
              (ruleRefExpr 23 "ExpressionStatement")
          ] |};
    {| name := "VariableStatement";
       displayName := "";
       expr_ :=
        actionExpr 24 callonVariableStatement1
          (seqExpr 25
            [
              ruleRefExpr 26 "VarToken";
              ruleRefExpr 27 "__";
              labeledExpr 28 "declarations"
                (ruleRefExpr 29 "VariableDeclarationList")
            ]) |};
    {| name := "VariableDeclarationList";
       displayName := "";
       expr_ :=
        actionExpr 30 callonVariableDeclarationList1
          (seqExpr 31
            [
              labeledExpr 32 "head"
                (ruleRefExpr 33 "VariableDeclaration");
              labeledExpr 34 "tail"
                (zeroOrMoreExpr 35
                  (seqExpr 36
                    [
                      ruleRefExpr 37 "__";
                      litMatcher 38 "," false;
                      ruleRefExpr 39 "__";
                      ruleRefExpr 40 "VariableDeclaration"
                    ]))
            ]) |};
    {| name := "VarToken";
       displayName := "";
       expr_ :=
        litMatcher 41 "var" false |};
    {| name := "VariableDeclaration";
       displayName := "";
       expr_ :=
        actionExpr 42 callonVariableDeclaration1
          (seqExpr 43
            [
              labeledExpr 44 "id"
                (ruleRefExpr 45 "String");
              ruleRefExpr 46 "__";
              labeledExpr 47 "initExpr"
                (ruleRefExpr 48 "Initializer")
            ]) |};
    {| name := "Initializer";
       displayName := "";
       expr_ :=
        actionExpr 49 callonInitializer1
          (seqExpr 50
            [
              litMatcher 51 "=" false;
              notExpr 52
                (litMatcher 53 "=" false);
              ruleRefExpr 54 "__";
              labeledExpr 55 "expression"
                (ruleRefExpr 56 "VariableExpression")
            ]) |};
    {| name := "VariableExpression";
       displayName := "";
       expr_ :=
        choiceExpr 57
          [
            ruleRefExpr 58 "CallExpression";
            ruleRefExpr 59 "StringLiteral";
            ruleRefExpr 60 "RegularExpressionLiteral";
            ruleRefExpr 61 "Duration";
            ruleRefExpr 62 "DateTime";
            ruleRefExpr 63 "Number";
            ruleRefExpr 64 "Field"
          ] |};
    {| name := "ExpressionStatement";
       displayName := "";
       expr_ :=
        actionExpr 65 callonExpressionStatement1
          (labeledExpr 66 "call"
            (ruleRefExpr 67 "CallExpression")) |};
    {| name := "MemberExpression";
       displayName := "";
       expr_ :=
        actionExpr 68 callonMemberExpression1
          (seqExpr 69
            [
              labeledExpr 70 "head"
                (ruleRefExpr 71 "String");
              labeledExpr 72 "tail"
                (zeroOrMoreExpr 73
                  (actionExpr 74 callonMemberExpression7
                    (seqExpr 75
                      [
                        ruleRefExpr 76 "__";
                        litMatcher 77 "." false;
                        ruleRefExpr 78 "__";
                        labeledExpr 79 "property"
                          (ruleRefExpr 80 "String")
                      ])))
            ]) |};
    {| name := "CallExpression";
       displayName := "";
       expr_ :=
        actionExpr 81 callonCallExpression1
          (seqExpr 82
            [
              labeledExpr 83 "head"
                (actionExpr 84 callonCallExpression4
                  (seqExpr 85
                    [
                      labeledExpr 86 "callee"
                        (ruleRefExpr 87 "MemberExpression");
                      ruleRefExpr 88 "__";
                      labeledExpr 89 "args"
                        (ruleRefExpr 90 "Arguments")
                    ]));
              labeledExpr 91 "tail"
                (zeroOrMoreExpr 92
                  (choiceExpr 93
                    [
                      actionExpr 94 callonCallExpression14
                        (seqExpr 95
                          [
                            ruleRefExpr 96 "__";
                            labeledExpr 97 "args"
                              (ruleRefExpr 98 "Arguments")
                          ]);
                      actionExpr 99 callonCallExpression19
                        (seqExpr 100
                          [
                            ruleRefExpr 101 "__";
                            litMatcher 102 "." false;
                            ruleRefExpr 103 "__";
                            labeledExpr 104 "property"
                              (ruleRefExpr 105 "String")
                          ])
                    ]))
            ]) |};
    {| name := "Arguments";
       displayName := "";
       expr_ :=
        actionExpr 106 callonArguments1
          (seqExpr 107
            [
              litMatcher 108 "(" false;
              ruleRefExpr 109 "__";
              labeledExpr 110 "args"
                (zeroOrOneExpr 111
                  (ruleRefExpr 112 "FunctionArgs"));
              ruleRefExpr 113 "__";
              litMatcher 114 ")" false
            ]) |};
    {| name := "FunctionArgs";
       displayName := "";
       expr_ :=
        actionExpr 115 callonFunctionArgs1
          (seqExpr 116
            [
              labeledExpr 117 "first"
                (ruleRefExpr 118 "FunctionArg");
              ruleRefExpr 119 "__";
              labeledExpr 120 "rest"
                (zeroOrMoreExpr 121
                  (ruleRefExpr 122 "FunctionArgsRest"))
            ]) |};
    {| name := "FunctionArgsRest";
       displayName := "";
       expr_ :=
        actionExpr 123 callonFunctionArgsRest1
          (seqExpr 124
            [
              litMatcher 125 "," false;
              ruleRefExpr 126 "__";
              labeledExpr 127 "arg"
                (ruleRefExpr 128 "FunctionArg")
            ]) |};
    {| name := "FunctionArg";
       displayName := "";
       expr_ :=
        actionExpr 129 callonFunctionArg1
          (seqExpr 130
            [
              labeledExpr 131 "key"
                (ruleRefExpr 132 "String");
              ruleRefExpr 133 "__";
              litMatcher 134 ":" false;
              ruleRefExpr 135 "__";
              labeledExpr 136 "value"
                (ruleRefExpr 137 "FunctionArgValues")
            ]) |};
    {| name := "FunctionArgValues";
       displayName := "";
       expr_ :=
        choiceExpr 138
          [
            ruleRefExpr 139 "WhereExpr";
            ruleRefExpr 140 "StringLiteral";
            ruleRefExpr 141 "RegularExpressionLiteral";
            ruleRefExpr 142 "Duration";
            ruleRefExpr 143 "DateTime";
            ruleRefExpr 144 "Number";
            ruleRefExpr 145 "String"
          ] |};
    {| name := "WhereExpr";
       displayName := "";
       expr_ :=
        actionExpr 146 callonWhereExpr1
          (seqExpr 147
            [
              litMatcher 148 "{" false;
              ruleRefExpr 149 "__";
              labeledExpr 150 "expr"
                (ruleRefExpr 151 "Expr");
              ruleRefExpr 152 "__";
              litMatcher 153 "}" false
            ]) |};
    {| name := "Expr";
       displayName := "";
       expr_ :=
        ruleRefExpr 154 "Logical" |};
    {| name := "LogicalOperators";
       displayName := "";
       expr_ :=
        actionExpr 155 callonLogicalOperators1
          (choiceExpr 156
            [
              litMatcher 157 "or" true;
              litMatcher 158 "and" true
            ]) |};
    {| name := "Logical";
       displayName := "";
       expr_ :=
        actionExpr 159 callonLogical1
          (seqExpr 160
            [
              labeledExpr 161 "head"
                (ruleRefExpr 162 "Equality");
              labeledExpr 163 "tail"
                (zeroOrMoreExpr 164
                  (seqExpr 165
                    [
                      ruleRefExpr 166 "__";
                      ruleRefExpr 167 "LogicalOperators";
                      ruleRefExpr 168 "__";
                      ruleRefExpr 169 "Equality"
                    ]))
            ]) |};
    {| name := "EqualityOperators";
       displayName := "";
       expr_ :=
        actionExpr 170 callonEqualityOperators1
          (choiceExpr 171
            [
              litMatcher 172 "==" false;
              litMatcher 173 "!=" false
            ]) |};
    {| name := "Equality";
       displayName := "";
       expr_ :=
        actionExpr 174 callonEquality1
          (seqExpr 175
            [
              labeledExpr 176 "head"
                (ruleRefExpr 177 "Relational");
              labeledExpr 178 "tail"
                (zeroOrMoreExpr 179
                  (seqExpr 180
                    [
                      ruleRefExpr 181 "__";
                      ruleRefExpr 182 "EqualityOperators";
                      ruleRefExpr 183 "__";
                      ruleRefExpr 184 "Relational"
                    ]))
            ]) |};
    {| name := "RelationalOperators";
       displayName := "";
       expr_ :=
        actionExpr 185 callonRelationalOperators1
          (choiceExpr 186
            [
              litMatcher 187 "<=" false;
              litMatcher 188 "<" false;
              litMatcher 189 ">=" false;
              litMatcher 190 ">" false;
              litMatcher 191 "startswith" true;
              litMatcher 192 "in" true;
              litMatcher 193 "not empty" true;
              litMatcher 194 "empty" true
            ]) |};
    {| name := "Relational";
       displayName := "";
       expr_ :=
        actionExpr 195 callonRelational1
          (seqExpr 196
            [
              labeledExpr 197 "head"
                (ruleRefExpr 198 "Additive");
              labeledExpr 199 "tail"
                (zeroOrMoreExpr 200
                  (seqExpr 201
                    [
                      ruleRefExpr 202 "__";
                      ruleRefExpr 203 "RelationalOperators";
                      ruleRefExpr 204 "__";
                      ruleRefExpr 205 "Additive"
                    ]))
            ]) |};
    {| name := "AdditiveOperator";
       displayName := "";
       expr_ :=
        actionExpr 206 callonAdditiveOperator1
          (choiceExpr 207
            [
              litMatcher 208 "+" false;
              litMatcher 209 "-" false
            ]) |};
    {| name := "Additive";
       displayName := "";
       expr_ :=
        actionExpr 210 callonAdditive1
          (seqExpr 211
            [
              labeledExpr 212 "head"
                (ruleRefExpr 213 "Multiplicative");
              labeledExpr 214 "tail"
                (zeroOrMoreExpr 215
                  (seqExpr 216
                    [
                      ruleRefExpr 217 "__";
                      ruleRefExpr 218 "AdditiveOperator";
                      ruleRefExpr 219 "__";
                      ruleRefExpr 220 "Multiplicative"
                    ]))
            ]) |};
    {| name := "MultiplicativeOperator";
       displayName := "";
       expr_ :=
        actionExpr 221 callonMultiplicativeOperator1
          (choiceExpr 222
            [
              litMatcher 223 "*" false;
              litMatcher 224 "/" false
            ]) |};
    {| name := "Multiplicative";
       displayName := "";
       expr_ :=
        actionExpr 225 callonMultiplicative1
          (seqExpr 226
            [
              labeledExpr 227 "head"
                (ruleRefExpr 228 "Primary");
              labeledExpr 229 "tail"
                (zeroOrMoreExpr 230
                  (seqExpr 231
                    [
                      ruleRefExpr 232 "__";
                      ruleRefExpr 233 "MultiplicativeOperator";
                      ruleRefExpr 234 "__";
                      ruleRefExpr 235 "Primary"
                    ]))
            ]) |};
    {| name := "Primary";
       displayName := "";
       expr_ :=
        choiceExpr 236
          [
            actionExpr 237 callonPrimary2
              (seqExpr 238
                [
                  litMatcher 239 "(" false;
                  ruleRefExpr 240 "__";
                  labeledExpr 241 "expr"
                    (ruleRefExpr 242 "Logical");
                  ruleRefExpr 243 "__";
                  litMatcher 244 ")" false
                ]);
            ruleRefExpr 245 "StringLiteral";
            ruleRefExpr 246 "RegularExpressionLiteral";
            ruleRefExpr 247 "Duration";
            ruleRefExpr 248 "DateTime";
            ruleRefExpr 249 "Number";
            ruleRefExpr 250 "Field";
            ruleRefExpr 251 "String"
          ] |};
    {| name := "DateFullYear";
       displayName := "";
       expr_ :=
        seqExpr 252
          [
            ruleRefExpr 253 "Digit";
            ruleRefExpr 254 "Digit";
            ruleRefExpr 255 "Digit";
            ruleRefExpr 256 "Digit"
          ] |};
    {| name := "DateMonth";
       displayName := "";
       expr_ :=
        seqExpr 257
          [
            ruleRefExpr 258 "Digit";
            ruleRefExpr 259 "Digit"
          ] |};
    {| name := "DateMDay";
       displayName := "";
       expr_ :=
        seqExpr 260
          [
            ruleRefExpr 261 "Digit";
            ruleRefExpr 262 "Digit"
          ] |};
    {| name := "TimeHour";
       displayName := "";
       expr_ :=
        seqExpr 263
          [
            ruleRefExpr 264 "Digit";
            ruleRefExpr 265 "Digit"
          ] |};
    {| name := "TimeMinute";
       displayName := "";
       expr_ :=
        seqExpr 266
          [
            ruleRefExpr 267 "Digit";
            ruleRefExpr 268 "Digit"
          ] |};
    {| name := "TimeSecond";
       displayName := "";
       expr_ :=
        seqExpr 269
          [
            ruleRefExpr 270 "Digit";
            ruleRefExpr 271 "Digit"
          ] |};
    {| name := "TimeSecFrac";
       displayName := "";
       expr_ :=
        seqExpr 272
          [
            litMatcher 273 "." false;
            oneOrMoreExpr 274
              (ruleRefExpr 275 "Digit")
          ] |};
    {| name := "TimeNumOffset";
       displayName := "";
       expr_ :=
        seqExpr 276
          [
            choiceExpr 277
              [
                litMatcher 278 "+" false;
                litMatcher 279 "-" false
              ];
            ruleRefExpr 280 "TimeHour";
            litMatcher 281 ":" false;
            ruleRefExpr 282 "TimeMinute"
          ] |};
    {| name := "TimeOffset";
       displayName := "";
       expr_ :=
        choiceExpr 283
          [
            litMatcher 284 "Z" false;
            ruleRefExpr 285 "TimeNumOffset"
          ] |};
    {| name := "PartialTime";
       displayName := "";
       expr_ :=
        seqExpr 286
          [
            ruleRefExpr 287 "TimeHour";
            litMatcher 288 ":" false;
            ruleRefExpr 289 "TimeMinute";
            litMatcher 290 ":" false;
            ruleRefExpr 291 "TimeSecond";
            zeroOrOneExpr 292
              (ruleRefExpr 293 "TimeSecFrac")
          ] |};
    {| name := "FullDate";
       displayName := "";
       expr_ :=
        seqExpr 294
          [
            ruleRefExpr 295 "DateFullYear";
            litMatcher 296 "-" false;
            ruleRefExpr 297 "DateMonth";
            litMatcher 298 "-" false;
            ruleRefExpr 299 "DateMDay"
          ] |};
    {| name := "FullTime";
       displayName := "";
       expr_ :=
        seqExpr 300
          [
            ruleRefExpr 301 "PartialTime";
            ruleRefExpr 302 "TimeOffset"
          ] |};
    {| name := "DateTime";
       displayName := "";
       expr_ :=
        actionExpr 303 callonDateTime1
          (seqExpr 304
            [
              ruleRefExpr 305 "FullDate";
              litMatcher 306 "T" false;
              ruleRefExpr 307 "FullTime"
            ]) |};
    {| name := "NanoSecondUnits";
       displayName := "";
       expr_ :=
        litMatcher 308 "ns" false |};
    {| name := "MicroSecondUnits";
       displayName := "";
       expr_ :=
        choiceExpr 309
          [
            litMatcher 310 "us" false;
            litMatcher 311 "µs" false;
            litMatcher 312 "μs" false
          ] |};
    {| name := "MilliSecondUnits";
       displayName := "";
       expr_ :=
        litMatcher 313 "ms" false |};
    {| name := "SecondUnits";
       displayName := "";
       expr_ :=
        litMatcher 314 "s" false |};
    {| name := "MinuteUnits";
       displayName := "";
       expr_ :=
        litMatcher 315 "m" false |};
    {| name := "HourUnits";
       displayName := "";
       expr_ :=
        litMatcher 316 "h" false |};
    {| name := "DurationUnits";
       displayName := "";
       expr_ :=
        choiceExpr 317
          [
            ruleRefExpr 318 "NanoSecondUnits";
            ruleRefExpr 319 "MicroSecondUnits";
            ruleRefExpr 320 "MilliSecondUnits";
            ruleRefExpr 321 "SecondUnits";
            ruleRefExpr 322 "MinuteUnits";
            ruleRefExpr 323 "HourUnits"
          ] |};
    {| name := "SingleDuration";
       displayName := "";
       expr_ :=
        seqExpr 324
          [
            ruleRefExpr 325 "Number";
            ruleRefExpr 326 "DurationUnits"
          ] |};
    {| name := "Duration";
       displayName := "";
       expr_ :=
        actionExpr 327 callonDuration1
          (oneOrMoreExpr 328
            (ruleRefExpr 329 "SingleDuration")) |};
    {| name := "StringLiteral";
       displayName := "";
       expr_ :=
        choiceExpr 330
          [
            actionExpr 331 callonStringLiteral2
              (seqExpr 332
                [
                  litMatcher 333 dq false;
                  zeroOrMoreExpr 334
                    (ruleRefExpr 335 "DoubleStringChar");
                  litMatcher 336 dq false
                ]);
            actionExpr 337 callonStringLiteral8
              (seqExpr 338
                [
                  litMatcher 339 dq false;
                  zeroOrMoreExpr 340
                    (ruleRefExpr 341 "DoubleStringChar");
                  choiceExpr 342
                    [
                      ruleRefExpr 343 "EOL";
                      ruleRefExpr 344 "EOF"
                    ]
                ])
          ] |};
    {| name := "DoubleStringChar";
       displayName := "";
       expr_ :=
        choiceExpr 345
          [
            seqExpr 346
              [
                notExpr 347
                  (choiceExpr 348
                    [
                      litMatcher 349 dq false;
                      litMatcher 350 "\" false;
                      ruleRefExpr 351 "EOL"
                    ]);
                ruleRefExpr 352 "SourceChar"
              ];
            seqExpr 353
              [
                litMatcher 354 "\" false;
                ruleRefExpr 355 "DoubleStringEscape"
              ]
          ] |};
    {| name := "DoubleStringEscape";
       displayName := "";
       expr_ :=
        choiceExpr 356
          [
            litMatcher 357 dq false;
            actionExpr 358 callonDoubleStringEscape3
              (choiceExpr 359
                [
                  ruleRefExpr 360 "SourceChar";
                  ruleRefExpr 361 "EOL";
                  ruleRefExpr 362 "EOF"
                ])
          ] |};
    {| name := "String";
       displayName := "";
       expr_ :=
        actionExpr 363 callonString1
          (oneOrMoreExpr 364
            (ruleRefExpr 365 "StringChar")) |};
    {| name := "StringChar";
       displayName := "";
       expr_ :=
        seqExpr 366
          [
            notExpr 367
              (choiceExpr 368
                [
                  litMatcher 369 dq false;
                  litMatcher 370 "(" false;
                  litMatcher 371 ")" false;
                  litMatcher 372 ":" false;
                  litMatcher 373 "{" false;
                  litMatcher 374 "}" false;
                  litMatcher 375 "," false;
                  litMatcher 376 "$" false;
                  litMatcher 377 "." false;
                  ruleRefExpr 378 "ws"
                ]);
            ruleRefExpr 379 "SourceChar"
          ] |};
    {| name := "Number";
       displayName := "";
       expr_ :=
        actionExpr 380 callonNumber1
          (seqExpr 381
            [
              zeroOrOneExpr 382
                (litMatcher 383 "-" false);
              ruleRefExpr 384 "Integer";
              zeroOrOneExpr 385
                (seqExpr 386
                  [
                    litMatcher 387 "." false;
                    oneOrMoreExpr 388
                      (ruleRefExpr 389 "Digit")
                  ])
            ]) |};
    {| name := "Integer";
       displayName := "";
       expr_ :=
        choiceExpr 390
          [
            litMatcher 391 "0" false;
            seqExpr 392
              [
                ruleRefExpr 393 "NonZeroDigit";
                zeroOrMoreExpr 394
                  (ruleRefExpr 395 "Digit")
              ]
          ] |};
    {| name := "NonZeroDigit";
       displayName := "";
       expr_ :=
        charClassMatcher 396 "[1-9]" [] [49; 57]%Z false false |};
    {| name := "Digit";
       displayName := "";
       expr_ :=
        charClassMatcher 397 "[0-9]" [] [48; 57]%Z false false |};
    {| name := "Field";
       displayName := "";
       expr_ :=
        actionExpr 398 callonField1
          (labeledExpr 399 "field"
            (litMatcher 400 "$" false)) |};
    {| name := "RegularExpressionLiteral";
       displayName := (dq ++ "regular expression" ++ dq);
       expr_ :=
        actionExpr 401 callonRegularExpressionLiteral1
          (seqExpr 402
            [
              litMatcher 403 "/" false;
              labeledExpr 404 "pattern"
                (ruleRefExpr 405 "RegularExpressionBody");
              litMatcher 406 "/" false
            ]) |};
    {| name := "RegularExpressionBody";
       displayName := "";
       expr_ :=
        actionExpr 407 callonRegularExpressionBody1
          (labeledExpr 408 "chars"
            (oneOrMoreExpr 409
              (ruleRefExpr 410 "RegularExpressionChar"))) |};
    {| name := "RegularExpressionChar";
       displayName := "";
       expr_ :=
        choiceExpr 411
          [
            actionExpr 412 callonRegularExpressionChar2
              (seqExpr 413
                [
                  notExpr 414
                    (charClassMatcher 415 "[\\/]" [92; 47]%Z [] false false);
                  labeledExpr 416 "re"
                    (ruleRefExpr 417 "RegularExpressionNonTerminator")
                ]);
            ruleRefExpr 418 "RegularExpressionBackslashSequence"
          ] |};
    {| name := "RegularExpressionBackslashSequence";
       displayName := "";
       expr_ :=
        choiceExpr 419
          [
            actionExpr 420 callonRegularExpressionBackslashSequence2
              (litMatcher 421 "\/" false);
            seqExpr 422
              [
                litMatcher 423 "\" false;
                ruleRefExpr 424 "RegularExpressionNonTerminator"
              ]
          ] |};
    {| name := "RegularExpressionNonTerminator";
       displayName := "";
       expr_ :=
        actionExpr 425 callonRegularExpressionNonTerminator1
          (seqExpr 426
            [
              notExpr 427
                (ruleRefExpr 428 "LineTerminator");
              ruleRefExpr 429 "SourceChar"
            ]) |};
    {| name := "SourceChar";
       displayName := "";
       expr_ :=
        anyMatcher 430 |};
    {| name := "__";
       displayName := "";
       expr_ :=
        zeroOrMoreExpr 431
          (choiceExpr 432
            [
              ruleRefExpr 433 "ws";
              ruleRefExpr 434 "EOL"
            ]) |};
    {| name := "ws";
       displayName := "";
       expr_ :=
        charClassMatcher 435 "[ \t\r\n]" [32; 9; 13; 10]%Z [] false false |};
    {| name := "LineTerminator";
       displayName := "";
       expr_ :=
        charClassMatcher 436 "[\n\r]" [10; 13]%Z [] false false |};
    {| name := "EOL";
       displayName := "";
       expr_ :=
        litMatcher 437 nl false |};
    {| name := "EOF";
       displayName := "";
       expr_ :=
        notExpr 438
          (anyMatcher 439) |}
  ]
|}.

Local Close Scope string_scope.

(** *** Go's library: UTF-8, quoting, numbers *)

Definition byteZ (b : byte) : Z := Z.of_N (Byte.to_N b).

Definition inRange (lo hi c : Z) : bool := (lo <=? c)%Z && (c <=? hi)%Z.

(** [utf8.DecodeRune]: the first rune of [p] and its width; [(RuneError, 0)]
    on the empty slice and [(RuneError, 1)] on an invalid encoding. *)
Definition DecodeRune (p : list byte) : rune * nat :=
  match p with
  | [] => (RuneError, 0)
  | b0 :: rest =>
      let p0 := byteZ b0 in
      if (p0 <? 128)%Z then (p0, 1)
      else if (p0 <? 194)%Z || (244 <? p0)%Z then (RuneError, 1)
      else if (p0 <? 224)%Z then
        match rest with
        | b1 :: _ =>
            let c1 := byteZ b1 in
            if inRange 128 191 c1
            then (Z.lor (Z.shiftl (Z.land p0 31) 6) (Z.land c1 63), 2)
            else (RuneError, 1)
        | _ => (RuneError, 1)
        end
      else if (p0 <? 240)%Z then
        match rest with
        | b1 :: b2 :: _ =>
            let c1 := byteZ b1 in
            let c2 := byteZ b2 in
            let lo := if (p0 =? 224)%Z then 160%Z else 128%Z in
            let hi := if (p0 =? 237)%Z then 159%Z else 191%Z in
            if inRange lo hi c1 && inRange 128 191 c2
            then (Z.lor (Z.shiftl (Z.land p0 15) 12)
                    (Z.lor (Z.shiftl (Z.land c1 63) 6) (Z.land c2 63)), 3)
            else (RuneError, 1)
        | _ => (RuneError, 1)
        end
      else
        match rest with
        | b1 :: b2 :: b3 :: _ =>
            let c1 := byteZ b1 in
            let c2 := byteZ b2 in
            let c3 := byteZ b3 in
            let lo := if (p0 =? 240)%Z then 144%Z else 128%Z in
            let hi := if (p0 =? 244)%Z then 143%Z else 191%Z in
            if inRange lo hi c1 && inRange 128 191 c2 && inRange 128 191 c3
            then (Z.lor (Z.shiftl (Z.land p0 7) 18)
                    (Z.lor (Z.shiftl (Z.land c1 63) 12)
                       (Z.lor (Z.shiftl (Z.land c2 63) 6) (Z.land c3 63))), 4)
            else (RuneError, 1)
        | _ => (RuneError, 1)
        end
  end.

(** The runes of a Go string, as [for _, r := range s] yields them. *)
Fixpoint runesOf (fuel : nat) (s : list byte) : list rune :=
  match fuel, s with
  | S fuel', _ :: _ =>
      let '(r, n) := DecodeRune s in
      r :: runesOf fuel' (skipn n s)
  | _, _ => []
  end.

Definition runes (s : string) : list rune :=
  let bs := String.list_byte_of_string s in runesOf (length bs) bs.

(** [%d] of a non-negative [int]. *)
Fixpoint digitsOf (fuel n : nat) (acc : string) : string :=
  match fuel with
  | O => acc
  | S fuel' =>
      let acc' := String (Ascii.ascii_of_nat (48 + n mod 10)) acc in
      if (n <? 10)%nat then acc' else digitsOf fuel' (n / 10) acc'
  end.

Definition itoa (n : nat) : string := digitsOf (S n) n "".

(** [%q] of a string, for the characters the literals of a grammar are made
    of: the quote, the backslash, newline, tab and carriage return are
    escaped, everything else stands for itself. *)
Fixpoint quoteChars (s : string) : string :=
  match s with
  | EmptyString => EmptyString
  | String c s' =>
      let rest := quoteChars s' in
      if (Ascii.nat_of_ascii c =? 34)%nat then (bs ++ String c rest)%string
      else if (Ascii.nat_of_ascii c =? 92)%nat then (bs ++ bs ++ rest)%string
      else if (Ascii.nat_of_ascii c =? 10)%nat then (bs ++ "n" ++ rest)%string
      else if (Ascii.nat_of_ascii c =? 9)%nat then (bs ++ "t" ++ rest)%string
      else if (Ascii.nat_of_ascii c =? 13)%nat then (bs ++ "r" ++ rest)%string
      else String c rest
  end.

Definition quote (s : string) : string := (dq ++ quoteChars s ++ dq)%string.

(** [sort.Strings] *)
Fixpoint insertSorted (s : string) (l : list string) : list string :=
  match l with
  | [] => [s]
  | x :: l' => if String.leb s x then s :: l else x :: insertSorted s l'
  end.

Definition sortStrings (l : list string) : list string := fold_right insertSorted [] l.

(** The keys of the set a list of strings is put into. *)
Fixpoint keysOf (seen l : list string) : list string :=
  match l with
  | [] => []
  | x :: l' =>
      if existsb (String.eqb x) seen then keysOf seen l'
      else x :: keysOf (x :: seen) l'
  end.

(** [strings.Join] *)
Fixpoint join (l : list string) (sep : string) : string :=
  match l with
  | [] => ""
  | [x] => x
  | x :: l' => (x ++ sep ++ join l' sep)%string
  end.

(** [listJoin] *)
Definition listJoin (l : list string) (sep lastSep : string) : string :=
  match l with
  | [] => ""
  | [x] => x
  | _ => (join (List.removelast l) sep ++ " " ++ lastSep ++ " " ++ List.last l "")%string
  end.

(** *** Which grammars the parser terminates on *)

(** A literal whose match may leave the parser where it was: one without
    runes, or one that starts with the rune the parser reads at the end of
    the input. *)
Definition litNullable (val : string) : bool :=
  match runes val with
  | [] => true
  | want :: _ => (want =? RuneError)%Z
  end.

Section Analysis.
(** For every rule, a rank and whether it may match without consuming
    input. *)
Variable tbl : list (string * (nat * bool)).
(** A number above every rank. *)
Variable top : nat.

Fixpoint lookupInfo (l : list (string * (nat * bool))) (n : string) : option (nat * bool) :=
  match l with
  | [] => None
  | (m, i) :: l' => if String.eqb m n then Some i else lookupInfo l' n
  end.

(** May the expression match without consuming input? *)
Fixpoint nullable (e : expr) : bool :=
  match e with
  | actionExpr _ _ e' | labeledExpr _ _ e' | oneOrMoreExpr _ e' => nullable e'
  | andExpr _ _ | notExpr _ _ | zeroOrOneExpr _ _ | zeroOrMoreExpr _ _ => true
  | choiceExpr _ alts => existsb nullable alts
  | seqExpr _ es => forallb nullable es
  | ruleRefExpr _ n =>
      match lookupInfo tbl n with
      | Some (_, nl) => nl
      | None => false
      end
  | litMatcher _ val _ => litNullable val
  | charClassMatcher _ _ _ _ _ _ | anyMatcher _ => false
  end.

(** [wfe b e]: every rule that [e] may call before any input is consumed has
    a name and a rank below [b], no repetition in [e] has a body that may
    match without consuming input, and the ranges of the classes come in
    pairs. After an expression of a sequence that
    consumes, any rule may be called. *)
Fixpoint wfe (b : nat) (e : expr) : bool :=
  match e with
  | actionExpr _ _ e' | labeledExpr _ _ e' | andExpr _ e' | notExpr _ e'
  | zeroOrOneExpr _ e' => wfe b e'
  | zeroOrMoreExpr _ e' | oneOrMoreExpr _ e' => wfe b e' && negb (nullable e')
  | choiceExpr _ alts => forallb (wfe b) alts
  | seqExpr _ es =>
      (fix go (b : nat) (es : list expr) : bool :=
         match es with
         | [] => true
         | e' :: es' => wfe b e' && go (if nullable e' then b else top) es'
         end) b es
  | ruleRefExpr _ n =>
      negb (String.eqb n "") &&
      match lookupInfo tbl n with
      | Some (rk, _) => (rk <? b)%nat
      | None => true
      end
  | charClassMatcher _ _ _ ranges _ _ => Nat.even (length ranges)
  | litMatcher _ _ _ | anyMatcher _ => true
  end.

Fixpoint wfeSeq (b : nat) (es : list expr) : bool :=
  match es with
  | [] => true
  | e' :: es' => wfe b e' && wfeSeq (if nullable e' then b else top) es'
  end.

Definition wfRule (r : rule) : bool :=
  match lookupInfo tbl (name r) with
  | Some (rk, nl) =>
      (rk <? top)%nat && wfe rk (expr_ r) && implb (nullable (expr_ r)) nl
  | None => false
  end.

Definition wfGrammar (g : grammar) : bool := forallb wfRule (rules_ g).

Fixpoint size (e : expr) : nat :=
  match e with
  | actionExpr _ _ e' | labeledExpr _ _ e' | andExpr _ e' | notExpr _ e'
  | zeroOrOneExpr _ e' | zeroOrMoreExpr _ e' | oneOrMoreExpr _ e' => S (size e')
  | choiceExpr _ l | seqExpr _ l => S (list_sum (map size l))
  | ruleRefExpr _ _ | litMatcher _ _ _ | charClassMatcher _ _ _ _ _ _ | anyMatcher _ => 1
  end.

End Analysis.

(** The ranks and the flags of the rules of [g]. *)
Definition analysis : list (string * (nat * bool)) :=
  [ ("Start", (10, false)); ("Program", (9, false)); ("SourceElements", (8, false));
    ("SourceElement", (7, false)); ("Statement", (6, false));
    ("VariableStatement", (1, false)); ("VariableDeclarationList", (4, false));
    ("VarToken", (0, false)); ("VariableDeclaration", (3, false));
    ("Initializer", (0, false)); ("VariableExpression", (5, false));
    ("ExpressionStatement", (5, false)); ("MemberExpression", (3, false));
    ("CallExpression", (4, false)); ("Arguments", (0, false));
    ("FunctionArgs", (4, false)); ("FunctionArgsRest", (0, false));
    ("FunctionArg", (3, false)); ("FunctionArgValues", (5, false));
    ("WhereExpr", (0, false)); ("Expr", (11, false)); ("LogicalOperators", (0, false));
    ("Logical", (10, false)); ("EqualityOperators", (0, false));
    ("Equality", (9, false)); ("RelationalOperators", (0, false));
    ("Relational", (8, false)); ("AdditiveOperator", (0, false));
    ("Additive", (7, false)); ("MultiplicativeOperator", (0, false));
    ("Multiplicative", (6, false)); ("Primary", (5, false));
    ("DateFullYear", (1, false)); ("DateMonth", (1, false)); ("DateMDay", (1, false));
    ("TimeHour", (1, false)); ("TimeMinute", (1, false)); ("TimeSecond", (1, false));
    ("TimeSecFrac", (0, false)); ("TimeNumOffset", (0, false));
    ("TimeOffset", (1, false)); ("PartialTime", (2, false)); ("FullDate", (2, false));
    ("FullTime", (3, false)); ("DateTime", (3, false));
    ("NanoSecondUnits", (0, false)); ("MicroSecondUnits", (0, false));
    ("MilliSecondUnits", (0, false)); ("SecondUnits", (0, false));
    ("MinuteUnits", (0, false)); ("HourUnits", (0, false));
    ("DurationUnits", (1, false)); ("SingleDuration", (3, false));
    ("Duration", (4, false)); ("StringLiteral", (0, false));
    ("DoubleStringChar", (1, false)); ("DoubleStringEscape", (1, true));
    ("String", (2, false)); ("StringChar", (1, false)); ("Number", (2, false));
    ("Integer", (1, false)); ("NonZeroDigit", (0, false)); ("Digit", (0, false));
    ("Field", (0, false)); ("RegularExpressionLiteral", (0, false));
    ("RegularExpressionBody", (3, false)); ("RegularExpressionChar", (2, false));
    ("RegularExpressionBackslashSequence", (0, false));
    ("RegularExpressionNonTerminator", (1, false)); ("SourceChar", (0, false));
    ("__", (1, true)); ("ws", (0, false)); ("LineTerminator", (0, false));
    ("EOL", (0, false)); ("EOF", (0, true)) ]%string.

(** The Go slice expression [s[lo:hi]], which panics out of range. *)
Definition slice {X} (s : list X) (lo hi : nat) : option (list X) :=
  if (lo <=? hi)%nat && (hi <=? length s)%nat
  then Some (firstn (hi - lo) (skipn lo s))
  else None.

(** *** The parser *)

Section Parser.
(** What the helpers that build the AST return is left open ([A]); so are the
    helpers themselves, which are not among the sources, and
    [unicode.ToLower]. *)
Context {A : Type}.

(** A Go [interface{}] value as the parser handles it: [nil], a [[]byte]
    (the text of a match), a [[]interface{}] (the values of a sequence or a
    repetition), a [string], or what a helper returned. *)
Inductive Value :=
| VNil
| VBytes (b : list byte)
| VSlice (l : list Value)
| VString (s : string)
| VNode (a : A).

(** The helpers, by name. *)
Inductive helperName :=
| program | srcElems | varstmt | vardecls | vardecl | exprstmt | memberexprs
| callexpr | memberexpr | callexprs | object | property | logicalOp
| logicalExpression | binaryOp | binaryExpression | datetime | durationLiteral
| stringLiteral | identifier | numberLiteral | fieldLiteral | regexLiteral.

(** What the code of an action does: it returns a value and possibly an
    error, or it panics. Errors and panic values are their messages. *)
Inductive ActionResult :=
| Return (v : Value) (err : option string)
| Panic (msg : string).

Variable helper : helperName -> list Value -> list byte -> position -> ActionResult.
Variable ToLower : rune -> rune.

Record current := { pos : position; text : list byte }.

Record parserError := {
  Inner : string;
  pos_ : position;
  prefix : string;
  expected : list string
}.

Definition errList := list parserError.

Record resultTuple := { v : Value; b : bool; end_ : savepoint }.

(** The parser. The memo table has the rules under their names and the
    expressions under their addresses. [debug], [depth] and [exprCnt], which
    only feed the debugging output, are left out. *)
Record parser := {
  filename : string;
  pt : savepoint;
  cur : current;
  data : list byte;
  errs : errList;
  recover : bool;
  memoize : bool;
  memo : gmap nat (gmap (string + nat) resultTuple);
  rules : gmap string rule;
  vstack : list (gmap string Value);
  rstack : list rule;
  maxFailPos : position;
  maxFailExpected : list string;
  maxFailInvertExpected : bool
}.

Definition set_pt (p : parser) (x : savepoint) : parser :=
  {| filename := filename p; pt := x; cur := cur p; data := data p; errs := errs p;
     recover := recover p; memoize := memoize p; memo := memo p; rules := rules p;
     vstack := vstack p; rstack := rstack p; maxFailPos := maxFailPos p;
     maxFailExpected := maxFailExpected p;
     maxFailInvertExpected := maxFailInvertExpected p |}.

Definition set_cur (p : parser) (x : current) : parser :=
  {| filename := filename p; pt := pt p; cur := x; data := data p; errs := errs p;
     recover := recover p; memoize := memoize p; memo := memo p; rules := rules p;
     vstack := vstack p; rstack := rstack p; maxFailPos := maxFailPos p;
     maxFailExpected := maxFailExpected p;
     maxFailInvertExpected := maxFailInvertExpected p |}.

Definition set_errs (p : parser) (x : errList) : parser :=
  {| filename := filename p; pt := pt p; cur := cur p; data := data p; errs := x;
     recover := recover p; memoize := memoize p; memo := memo p; rules := rules p;
     vstack := vstack p; rstack := rstack p; maxFailPos := maxFailPos p;
     maxFailExpected := maxFailExpected p;
     maxFailInvertExpected := maxFailInvertExpected p |}.

Definition set_recover (p : parser) (x : bool) : parser :=
  {| filename := filename p; pt := pt p; cur := cur p; data := data p; errs := errs p;
     recover := x; memoize := memoize p; memo := memo p; rules := rules p;
     vstack := vstack p; rstack := rstack p; maxFailPos := maxFailPos p;
     maxFailExpected := maxFailExpected p;
     maxFailInvertExpected := maxFailInvertExpected p |}.

Definition set_memoize (p : parser) (x : bool) : parser :=
  {| filename := filename p; pt := pt p; cur := cur p; data := data p; errs := errs p;
     recover := recover p; memoize := x; memo := memo p; rules := rules p;
     vstack := vstack p; rstack := rstack p; maxFailPos := maxFailPos p;
     maxFailExpected := maxFailExpected p;
     maxFailInvertExpected := maxFailInvertExpected p |}.

Definition set_memo (p : parser) (x : gmap nat (gmap (string + nat) resultTuple)) : parser :=
  {| filename := filename p; pt := pt p; cur := cur p; data := data p; errs := errs p;
     recover := recover p; memoize := memoize p; memo := x; rules := rules p;
     vstack := vstack p; rstack := rstack p; maxFailPos := maxFailPos p;
     maxFailExpected := maxFailExpected p;
     maxFailInvertExpected := maxFailInvertExpected p |}.

Definition set_rules (p : parser) (x : gmap string rule) : parser :=
  {| filename := filename p; pt := pt p; cur := cur p; data := data p; errs := errs p;
     recover := recover p; memoize := memoize p; memo := memo p; rules := x;
     vstack := vstack p; rstack := rstack p; maxFailPos := maxFailPos p;
     maxFailExpected := maxFailExpected p;
     maxFailInvertExpected := maxFailInvertExpected p |}.

Definition set_vstack (p : parser) (x : list (gmap string Value)) : parser :=
  {| filename := filename p; pt := pt p; cur := cur p; data := data p; errs := errs p;
     recover := recover p; memoize := memoize p; memo := memo p; rules := rules p;
     vstack := x; rstack := rstack p; maxFailPos := maxFailPos p;
     maxFailExpected := maxFailExpected p;
     maxFailInvertExpected := maxFailInvertExpected p |}.

Definition set_rstack (p : parser) (x : list rule) : parser :=
  {| filename := filename p; pt := pt p; cur := cur p; data := data p; errs := errs p;
     recover := recover p; memoize := memoize p; memo := memo p; rules := rules p;
     vstack := vstack p; rstack := x; maxFailPos := maxFailPos p;
     maxFailExpected := maxFailExpected p;
     maxFailInvertExpected := maxFailInvertExpected p |}.

Definition set_maxFailPos (p : parser) (x : position) : parser :=
  {| filename := filename p; pt := pt p; cur := cur p; data := data p; errs := errs p;
     recover := recover p; memoize := memoize p; memo := memo p; rules := rules p;
     vstack := vstack p; rstack := rstack p; maxFailPos := x;
     maxFailExpected := maxFailExpected p;
     maxFailInvertExpected := maxFailInvertExpected p |}.

Definition set_maxFailExpected (p : parser) (x : list string) : parser :=
  {| filename := filename p; pt := pt p; cur := cur p; data := data p; errs := errs p;
     recover := recover p; memoize := memoize p; memo := memo p; rules := rules p;
     vstack := vstack p; rstack := rstack p; maxFailPos := maxFailPos p;
     maxFailExpected := x; maxFailInvertExpected := maxFailInvertExpected p |}.

Definition set_maxFailInvertExpected (p : parser) (x : bool) : parser :=
  {| filename := filename p; pt := pt p; cur := cur p; data := data p; errs := errs p;
     recover := recover p; memoize := memoize p; memo := memo p; rules := rules p;
     vstack := vstack p; rstack := rstack p; maxFailPos := maxFailPos p;
     maxFailExpected := maxFailExpected p; maxFailInvertExpected := x |}.

(** What a method of the parser ends in: a result and the parser as it left
    it, a panic, or no more fuel. *)
Inductive Outcome (X : Type) :=
| Done (x : X) (p : parser)
| Panicked (msg : string) (p : parser)
| OutOfFuel.
Arguments Done {X} x p.
Arguments Panicked {X} msg p.
Arguments OutOfFuel {X}.

Definition bindO {X Y} (m : parser -> Outcome X) (k : X -> parser -> Outcome Y)
  : parser -> Outcome Y :=
  fun p =>
    match m p with
    | Done x p' => k x p'
    | Panicked msg p' => Panicked msg p'
    | OutOfFuel => OutOfFuel
    end.

Notation "'let*' x := m 'in' k" := (bindO m (fun x => k))
  (at level 10, x pattern, m at level 100, k at level 200).

Definition ret {X} (x : X) : parser -> Outcome X := fun p => Done x p.

(** A method that only changes the parser. *)
Definition upd (f : parser -> parser) : parser -> Outcome unit := fun p => Done tt (f p).

(** [parserError.Error] *)
Definition Error (e : parserError) : string := (prefix e ++ ": " ++ Inner e)%string.

(** [errList.dedupe] *)
Fixpoint dedupe (seen : list string) (e : errList) : errList :=
  match e with
  | [] => []
  | err :: e' =>
      if existsb (String.eqb (Error err)) seen then dedupe seen e'
      else err :: dedupe (Error err :: seen) e'
  end.

(** [errList.err]: the empty list is the [nil] error. *)
Definition err (e : errList) : errList := dedupe [] e.

(** The messages of the errors and of the panics of the runtime. *)
Definition errInvalidEncoding : string := "invalid encoding".
Definition errSliceBounds : string := "slice bounds out of range".
Definition errIndex : string := "index out of range".
Definition errNoRule : string := "grammar has no rule".

(** [parser.pushV]: a slot with an empty map on top of the stack. *)
Definition pushV (p : parser) : parser := set_vstack p (∅ :: vstack p).

(** [parser.popV] *)
Definition popV : parser -> Outcome unit :=
  fun p =>
    match vstack p with
    | _ :: st => Done tt (set_vstack p st)
    | [] => Panicked errIndex p
    end.

(** [parser.addErrAt] *)
Definition addErrAt (e : string) (ps : position) (exp : list string) (p : parser) : parser :=
  let buf := if String.eqb (filename p) "" then "" else (filename p ++ ":")%string in
  let buf := (buf ++ itoa (line ps) ++ ":" ++ itoa (col ps) ++ " (" ++ itoa (offset ps) ++ ")")%string in
  let buf :=
    match rstack p with
    | r :: _ =>
        (buf ++ ": " ++ "rule " ++
         (if String.eqb (displayName r) "" then name r else displayName r))%string
    | [] => buf
    end in
  set_errs p (errs p ++ [{| Inner := e; pos_ := ps; prefix := buf; expected := exp |}]).

(** [parser.addErr] *)
Definition addErr (e : string) (p : parser) : parser :=
  addErrAt e (position_ (pt p)) [] p.

(** [parser.failAt] *)
Definition failAt (fail : bool) (ps : position) (want : string) (p : parser) : parser :=
  if Bool.eqb fail (maxFailInvertExpected p) then
    if (offset ps <? offset (maxFailPos p))%nat then p
    else
      let p :=
        if (offset (maxFailPos p) <? offset ps)%nat
        then set_maxFailExpected (set_maxFailPos p ps) []
        else p in
      let want := if maxFailInvertExpected p then ("!" ++ want)%string else want in
      set_maxFailExpected p (maxFailExpected p ++ [want])
  else p.


(** [parser.read]: the offset moves past the rune at hand before the data
    is sliced. *)
Definition read : parser -> Outcome unit :=
  fun p =>
    let o := (offset (position_ (pt p)) + w (pt p))%nat in
    let moved :=
      {| line := line (position_ (pt p)); col := col (position_ (pt p)); offset := o |} in
    let p := set_pt p {| position_ := moved; rn := rn (pt p); w := w (pt p) |} in
    match slice (data p) o (length (data p)) with
    | None => Panicked errSliceBounds p
    | Some rest =>
        let '(r, n) := DecodeRune rest in
        let ps :=
          if (r =? 10)%Z
          then {| line := S (line moved); col := 0; offset := o |}
          else {| line := line moved; col := S (col moved); offset := o |} in
        let p := set_pt p {| position_ := ps; rn := r; w := n |} in
        Done tt (if (r =? RuneError)%Z && (n =? 1)%nat then addErr errInvalidEncoding p else p)
    end.

(** [parser.restore] *)
Definition restore (sp : savepoint) (p : parser) : parser :=
  if (offset (position_ sp) =? offset (position_ (pt p)))%nat then p else set_pt p sp.

(** [parser.sliceFrom] *)
Definition sliceFrom (start : savepoint) : parser -> Outcome (list byte) :=
  fun p =>
    match slice (data p) (offset (position_ start)) (offset (position_ (pt p))) with
    | Some text => Done text p
    | None => Panicked errSliceBounds p
    end.

(** The rule at work is taken off [rstack], [p.rstack[:len(p.rstack)-1]];
    the stacks have their top at the head of the list. *)
Definition popR : parser -> Outcome unit :=
  fun p =>
    match rstack p with
    | _ :: st => Done tt (set_rstack p st)
    | [] => Panicked errSliceBounds p
    end.

(** [parser.getMemoized] *)
Definition getMemoized (node : string + nat) (p : parser) : option resultTuple :=
  match memo p !! offset (position_ (pt p)) with
  | Some m => m !! node
  | None => None
  end.

(** [parser.setMemoized] *)
Definition setMemoized (sp : savepoint) (node : string + nat) (t : resultTuple) (p : parser)
  : parser :=
  let o := offset (position_ sp) in
  let m := match memo p !! o with Some m => m | None => ∅ end in
  set_memo p (<[o := <[node := t]> m]> (memo p)).

(** The map [buildRulesTable] makes. *)
Definition ruleTable (g : grammar) : gmap string rule :=
  fold_left (fun m r => <[name r := r]> m) (rules_ g) ∅.

(** [parser.buildRulesTable] *)
Definition buildRulesTable (g : grammar) (p : parser) : parser :=
  set_rules p (ruleTable g).

(** The variables of the rule at work: the map on top of [vstack]. *)
Definition topV : parser -> Outcome (gmap string Value) :=
  fun p =>
    match vstack p with
    | m :: _ => Done m p
    | [] => Panicked errIndex p
    end.

Definition setTopV (lab : string) (x : Value) : parser -> Outcome unit :=
  fun p =>
    match vstack p with
    | m :: st => Done tt (set_vstack p (<[lab := x]> m :: st))
    | [] => Panicked errIndex p
    end.

(** A missing key of a Go map reads as [nil]. *)
Definition get (stack : gmap string Value) (lab : string) : Value :=
  match stack !! lab with
  | Some x => x
  | None => VNil
  end.

(** The methods [callon...] with the methods [on...] they call: what the
    action gets from the stack, and what it does with it. *)
Definition callon (a : action) (stack : gmap string Value) (c : current) : ActionResult :=
  let text := text c in
  let ps := pos c in
  match a with
  | callonStart1 => Return (get stack "program") None
  | callonProgram1 => helper program [get stack "body"] text ps
  | callonSourceElements1 => helper srcElems [get stack "head"; get stack "tail"] text ps
  | callonVariableStatement1 => helper varstmt [get stack "declarations"] text ps
  | callonVariableDeclarationList1 => helper vardecls [get stack "head"; get stack "tail"] text ps
  | callonVariableDeclaration1 => helper vardecl [get stack "id"; get stack "initExpr"] text ps
  | callonInitializer1 => Return (get stack "expression") None
  | callonExpressionStatement1 => helper exprstmt [get stack "call"] text ps
  | callonMemberExpression7 => Return (get stack "property") None
  | callonMemberExpression1 => helper memberexprs [get stack "head"; get stack "tail"] text ps
  | callonCallExpression4 => helper callexpr [get stack "callee"; get stack "args"] text ps
  | callonCallExpression14 => helper callexpr [VNil; get stack "args"] text ps
  | callonCallExpression19 => helper memberexpr [VNil; get stack "property"] text ps
  | callonCallExpression1 => helper callexprs [get stack "head"; get stack "tail"] text ps
  | callonArguments1 => Return (get stack "args") None
  | callonFunctionArgs1 => helper object [get stack "first"; get stack "rest"] text ps
  | callonFunctionArgsRest1 => Return (get stack "arg") None
  | callonFunctionArg1 => helper property [get stack "key"; get stack "value"] text ps
  | callonWhereExpr1 => Return (get stack "expr") None
  | callonLogicalOperators1 => helper logicalOp [] text ps
  | callonLogical1 => helper logicalExpression [get stack "head"; get stack "tail"] text ps
  | callonEqualityOperators1 => helper binaryOp [] text ps
  | callonEquality1 => helper binaryExpression [get stack "head"; get stack "tail"] text ps
  | callonRelationalOperators1 => helper binaryOp [] text ps
  | callonRelational1 => helper binaryExpression [get stack "head"; get stack "tail"] text ps
  | callonAdditiveOperator1 => helper binaryOp [] text ps
  | callonAdditive1 => helper binaryExpression [get stack "head"; get stack "tail"] text ps
  | callonMultiplicativeOperator1 => helper binaryOp [] text ps
  | callonMultiplicative1 => helper binaryExpression [get stack "head"; get stack "tail"] text ps
  | callonPrimary2 => Return (get stack "expr") None
  | callonDateTime1 => helper datetime [] text ps
  | callonDuration1 => helper durationLiteral [] text ps
  | callonStringLiteral2 => helper stringLiteral [] text ps
  | callonStringLiteral8 => Return (VString "") (Some "string literal not terminated")
  | callonDoubleStringEscape3 => Return VNil (Some "invalid escape character")
  | callonString1 => helper identifier [] text ps
  | callonNumber1 => helper numberLiteral [] text ps
  | callonField1 => helper fieldLiteral [] text ps
  | callonRegularExpressionLiteral1 => Return (get stack "pattern") None
  | callonRegularExpressionBody1 => helper regexLiteral [get stack "chars"] text ps
  | callonRegularExpressionChar2 => Return (get stack "re") None
  | callonRegularExpressionBackslashSequence2 => Return (VString "/") None
  | callonRegularExpressionNonTerminator1 => Return (VString (String.string_of_list_byte text)) None
  end.

(** The call [act.run(p)]. *)
Definition runAction (a : action) : parser -> Outcome (Value * option string) :=
  fun p =>
    match vstack p with
    | stack :: _ =>
        match callon a stack (cur p) with
        | Return x e => Done (x, e) p
        | Panic msg => Panicked msg p
        end
    | [] => Panicked errIndex p
    end.

(** What [parseExpr] and [parseRule] do with a result when the parser
    memoizes. *)
Definition memoized (sp : savepoint) (node : string + nat) (val : Value) (ok : bool)
  : parser -> Outcome (Value * bool) :=
  fun p =>
    Done (val, ok)
      (if memoize p
       then setMemoized sp node {| v := val; b := ok; end_ := pt p |} p
       else p).

(** The methods below call [parseExpr] on the expressions of their node;
    it is handed to them as [rec]. *)
Section Methods.
Variable rec : expr -> parser -> Outcome (Value * bool).

(** [parser.parseRule] *)
Definition parseRule (r : rule) : parser -> Outcome (Value * bool) :=
  fun p =>
    match (if memoize p then getMemoized (inl (name r)) p else None) with
    | Some res => Done (v res, b res) (restore (end_ res) p)
    | None =>
        let start := pt p in
        (let* (val, ok) := rec (expr_ r) in
         let* _ := popV in
         let* _ := popR in
         memoized start (inl (name r)) val ok)
          (pushV (set_rstack p (r :: rstack p)))
    end.

(** [parser.parseActionExpr] *)
Definition parseActionExpr (run : action) (e : expr) : parser -> Outcome (Value * bool) :=
  fun p =>
    let start := pt p in
    (let* (val, ok) := rec e in
     if ok then
       let* text := sliceFrom start in
       let* _ := upd (fun p => set_cur p {| pos := position_ start; text := text |}) in
       let* (actVal, e) := runAction run in
       let* _ := upd (fun p =>
                   match e with
                   | Some msg => addErrAt msg (position_ start) [] p
                   | None => p
                   end) in
       ret (actVal, ok)
     else ret (val, ok)) p.

(** [parser.parseAndExpr] *)
Definition parseAndExpr (e : expr) : parser -> Outcome (Value * bool) :=
  fun p =>
    let sp := pt p in
    (let* (_, ok) := rec e in
     let* _ := popV in
     let* _ := upd (restore sp) in
     ret (VNil, ok)) (pushV p).

(** [parser.parseNotExpr] *)
Definition parseNotExpr (e : expr) : parser -> Outcome (Value * bool) :=
  fun p =>
    let sp := pt p in
    let p := pushV p in
    let p := set_maxFailInvertExpected p (negb (maxFailInvertExpected p)) in
    (let* (_, ok) := rec e in
     let* _ := upd (fun p => set_maxFailInvertExpected p (negb (maxFailInvertExpected p))) in
     let* _ := popV in
     let* _ := upd (restore sp) in
     ret (VNil, negb ok)) p.

(** [parser.parseAnyMatcher] *)
Definition parseAnyMatcher : parser -> Outcome (Value * bool) :=
  fun p =>
    if negb (rn (pt p) =? RuneError)%Z then
      let start := pt p in
      (let* _ := read in
       let* _ := upd (failAt true (position_ start) ".") in
       let* text := sliceFrom start in
       ret (VBytes text, true)) p
    else
      Done (VNil, false) (failAt false (position_ (pt p)) "." p).

(** The loop of [parseCharClassMatcher] over the ranges, two runes at a
    time: whether one of them holds [cur]; [None] when the loop indexes past
    the end of [ranges], which it does at a rune without its pair. *)
Fixpoint inRanges (cur : rune) (ranges : list rune) : option bool :=
  match ranges with
  | [] => Some false
  | [_] => None
  | lo :: hi :: ranges' =>
      if (lo <=? cur)%Z && (cur <=? hi)%Z then Some true else inRanges cur ranges'
  end.

(** What [parseCharClassMatcher] does once it knows whether the rune is of
    the class: a rune of the class matches exactly when the class is not
    inverted. *)
Definition classResult (val : string) (inverted : bool) (start : savepoint) (inClass : bool)
  : parser -> Outcome (Value * bool) :=
  fun p =>
    if Bool.eqb inClass inverted then
      Done (VNil, false) (failAt false (position_ start) val p)
    else
      (let* _ := read in
       let* _ := upd (failAt true (position_ start) val) in
       let* text := sliceFrom start in
       ret (VBytes text, true)) p.

(** [parser.parseCharClassMatcher]: the chars are tried first, then the
    ranges. *)
Definition parseCharClassMatcher (val : string) (chars ranges : list rune)
    (ignoreCase inverted : bool) : parser -> Outcome (Value * bool) :=
  fun p =>
    let cur := rn (pt p) in
    let start := pt p in
    if (cur =? RuneError)%Z then
      Done (VNil, false) (failAt false (position_ start) val p)
    else
      let cur := if ignoreCase then ToLower cur else cur in
      if existsb (Z.eqb cur) chars then classResult val inverted start true p
      else
        match inRanges cur ranges with
        | Some inClass => classResult val inverted start inClass p
        | None => Panicked errIndex p
        end.

(** [parser.parseChoiceExpr] *)
Fixpoint parseChoiceExpr (alternatives : list expr) : parser -> Outcome (Value * bool) :=
  match alternatives with
  | [] => ret (VNil, false)
  | alt :: alternatives' =>
      fun p =>
        (let* (val, ok) := rec alt in
         let* _ := popV in
         if ok then ret (val, ok) else parseChoiceExpr alternatives') (pushV p)
  end.

(** [parser.parseLabeledExpr] *)
Definition parseLabeledExpr (label : string) (e : expr) : parser -> Outcome (Value * bool) :=
  fun p =>
    (let* (val, ok) := rec e in
     let* _ := popV in
     let* _ := (if ok && negb (String.eqb label "")
                then setTopV label val else ret tt) in
     ret (val, ok)) (pushV p).

(** The loop of [parseLitMatcher] over the runes of the literal: whether
    every rune matched. *)
Fixpoint matchRunes (ignoreCase : bool) (wants : list rune) : parser -> Outcome bool :=
  match wants with
  | [] => ret true
  | want :: wants' =>
      fun p =>
        let cur := rn (pt p) in
        let cur := if ignoreCase then ToLower cur else cur in
        if (cur =? want)%Z
        then (let* _ := read in matchRunes ignoreCase wants') p
        else Done false p
  end.

(** [parser.parseLitMatcher] *)
Definition parseLitMatcher (val : string) (ignoreCase : bool)
  : parser -> Outcome (Value * bool) :=
  fun p =>
    let want := (quote val ++ (if ignoreCase then "i" else ""))%string in
    let start := pt p in
    (let* matched := matchRunes ignoreCase (runes val) in
     if matched then
       let* _ := upd (failAt true (position_ start) want) in
       let* text := sliceFrom start in
       ret (VBytes text, true)
     else
       let* _ := upd (failAt false (position_ start) want) in
       let* _ := upd (restore start) in
       ret (VNil, false)) p.

(** [parser.parseRuleRefExpr] *)
Definition parseRuleRefExpr (name : string) : parser -> Outcome (Value * bool) :=
  fun p =>
    if String.eqb name "" then Panicked "invalid rule: missing name" p
    else
      match rules p !! name with
      | Some r => parseRule r p
      | None => Done (VNil, false) (addErr ("undefined rule: " ++ name)%string p)
      end.

(** The loop of [parseSeqExpr]. *)
Fixpoint seqLoop (exprs : list expr) (vals : list Value) (sp : savepoint)
  : parser -> Outcome (Value * bool) :=
  match exprs with
  | [] => ret (VSlice vals, true)
  | e :: exprs' =>
      let* (val, ok) := rec e in
      if ok then seqLoop exprs' (vals ++ [val]) sp
      else fun p => Done (VNil, false) (restore sp p)
  end.

(** [parser.parseSeqExpr] *)
Definition parseSeqExpr (exprs : list expr) : parser -> Outcome (Value * bool) :=
  fun p => seqLoop exprs [] (pt p) p.

(** The loop [for { ... }] of [parseZeroOrMoreExpr] and [parseOneOrMoreExpr],
    for at most [n] rounds; [atLeastOne] tells the two apart. *)
Fixpoint repeatLoop (n : nat) (atLeastOne : bool) (e : expr) (vals : list Value)
  : parser -> Outcome (Value * bool) :=
  match n with
  | O => fun _ => OutOfFuel
  | S n' =>
      fun p =>
        (let* (val, ok) := rec e in
         let* _ := popV in
         if ok then repeatLoop n' atLeastOne e (vals ++ [val])
         else
           match atLeastOne, vals with
           | true, [] => ret (VNil, false)
           | _, _ => ret (VSlice vals, true)
           end) (pushV p)
  end.

(** [parser.parseZeroOrOneExpr] *)
Definition parseZeroOrOneExpr (e : expr) : parser -> Outcome (Value * bool) :=
  fun p =>
    (let* (val, _) := rec e in
     let* _ := popV in
     ret (val, true)) (pushV p).

End Methods.

(** The [switch] of [parseExpr] on the type of the expression; [n] bounds the
    rounds of a repetition. *)
Definition dispatch (rec : expr -> parser -> Outcome (Value * bool)) (n : nat) (e : expr)
  : parser -> Outcome (Value * bool) :=
  match e with
  | actionExpr _ run e' => parseActionExpr rec run e'
  | andExpr _ e' => parseAndExpr rec e'
  | anyMatcher _ => parseAnyMatcher
  | charClassMatcher _ val chars ranges ic inv =>
      parseCharClassMatcher val chars ranges ic inv
  | choiceExpr _ alts => parseChoiceExpr rec alts
  | labeledExpr _ label e' => parseLabeledExpr rec label e'
  | litMatcher _ val ic => parseLitMatcher val ic
  | notExpr _ e' => parseNotExpr rec e'
  | oneOrMoreExpr _ e' => repeatLoop rec n true e' []
  | ruleRefExpr _ name => parseRuleRefExpr rec name
  | seqExpr _ exprs => parseSeqExpr rec exprs
  | zeroOrMoreExpr _ e' => repeatLoop rec n false e' []
  | zeroOrOneExpr _ e' => parseZeroOrOneExpr rec e'
  end.

(** [parser.parseExpr]; [fuel] bounds the depth of the calls and the number
    of rounds of a repetition. *)
Fixpoint parseExpr (fuel : nat) (e : expr) : parser -> Outcome (Value * bool) :=
  match fuel with
  | O => fun _ => OutOfFuel
  | S fuel' =>
      fun p =>
        match (if memoize p then getMemoized (inr (addr_of e)) p else None) with
        | Some res => Done (v res, b res) (restore (end_ res) p)
        | None =>
            (let* (val, ok) := dispatch (parseExpr fuel') fuel' e in
             memoized (pt p) (inr (addr_of e)) val ok) p
        end
  end.

(** An [Option]; [Debug] only prints and [GlobalStore] is read by no action. *)
Inductive Option :=
| Memoize (b : bool)
| Recover (b : bool).

Definition setOption (p : parser) (o : Option) : parser :=
  match o with
  | Memoize b => set_memoize p b
  | Recover b => set_recover p b
  end.

(** [newParser] *)
Definition newParser (filename : string) (b : list byte) (opts : list Option) : parser :=
  fold_left setOption opts
    {| filename := filename;
       pt := {| position_ := {| line := 1; col := 0; offset := 0 |}; rn := 0%Z; w := 0 |};
       cur := {| pos := {| line := 0; col := 0; offset := 0 |}; text := [] |};
       data := b; errs := []; recover := true; memoize := false; memo := ∅;
       rules := ∅; vstack := []; rstack := [];
       maxFailPos := {| line := 1; col := 1; offset := 0 |};
       maxFailExpected := []; maxFailInvertExpected := false |}.

(** What [Parse] gives its caller: the two results of the Go function, or a
    panic that nothing recovered; [Diverges] when the fuel ran out. *)
Inductive ParseResult :=
| Returns (val : Value) (e : errList)
| Panics (msg : string)
| Diverges.

(** The error [parse] adds when nothing matched and nothing was recorded. *)
Definition noMatch (p : parser) : parser :=
  let keys := keysOf [] (maxFailExpected p) in
  let eof := existsb (String.eqb "!.") keys in
  let exp := sortStrings (List.filter (fun k => negb (String.eqb "!." k)) keys) in
  let exp := if eof then exp ++ ["EOF"%string] else exp in
  addErrAt ("no match found, expected: " ++ listJoin exp ", " "or")%string
    (maxFailPos p) exp p.

(** [parser.parse] *)
Definition parse (fuel : nat) (g : grammar) (p : parser) : ParseResult :=
  match rules_ g with
  | [] => let p := addErr errNoRule p in Returns VNil (err (errs p))
  | start :: _ =>
      match (let* _ := read in parseRule (parseExpr fuel) start) (buildRulesTable g p) with
      | Done (val, ok) p =>
          if ok then Returns val (err (errs p))
          else
            let p := if (length (errs p) =? 0)%nat then noMatch p else p in
            Returns VNil (err (errs p))
      | Panicked msg p =>
          if recover p then Returns VNil (err (errs (addErr msg p)))
          else Panics msg
      | OutOfFuel => Diverges
      end
  end.

(** [Parse] *)
Definition Parse (fuel : nat) (filename : string) (b : list byte) (opts : list Option)
  : ParseResult :=
  parse fuel g (newParser filename b opts).

(** *** Termination: invariants of the parser *)

Section Termination.
Variable tbl : list (string * (nat * bool)).
Variable top : nat.
Variable gr : grammar.
Hypothesis Hwf : wfGrammar tbl top gr = true.
Hypothesis HToLower : ToLower RuneError = RuneError.

(** The offset the parser is at, and what is left of the data. *)
Definition off (p : parser) : nat := offset (position_ (pt p)).
Definition rem (p : parser) : nat := length (data p) - off p.

(** A position within the data [d]. *)
Definition validPos (d : list byte) (ps : position) : Prop :=
  1 <= line ps /\ offset ps <= length d.

(** A savepoint within the data: the rune it holds ends within the data, and
    only the end of the data or an invalid byte reads as [RuneError] with no
    width. *)
Definition validSp (d : list byte) (sp : savepoint) : Prop :=
  validPos d (position_ sp) /\
  offset (position_ sp) + w sp <= length d /\
  (rn sp <> RuneError -> 0 < w sp).

Definition validErrs (d : list byte) (e : errList) : Prop :=
  Forall (fun x => validPos d (pos_ x)) e.

Definition Inv (p : parser) : Prop :=
  validSp (data p) (pt p) /\
  validErrs (data p) (errs p) /\
  validPos (data p) (maxFailPos p).

(** The parser does not memoize, knows the rules of [gr], and is within its
    data. *)
Definition St (p : parser) : Prop :=
  memoize p = false /\ rules p = ruleTable gr /\ Inv p.

(** [p] is a state of the parser that started a method in [p0]. *)
Definition Ok (p0 p : parser) : Prop :=
  St p /\ data p = data p0 /\ recover p = recover p0 /\ off p0 <= off p.

(** The panics that come from a helper. *)
Definition helperPanics (msg : string) : Prop :=
  exists h args t ps, helper h args t ps = Panic msg.

Lemma Ok_refl p : St p -> Ok p p.
Proof. intros H. repeat split; try apply H; auto. Qed.

Lemma Ok_trans p0 p1 p2 : Ok p0 p1 -> Ok p1 p2 -> Ok p0 p2.
Proof.
  intros (_ & Hd1 & Hr1 & Ho1) (Hs & Hd2 & Hr2 & Ho2). repeat split; try apply Hs.
  - congruence.
  - congruence.
  - lia.
Qed.

Lemma off_le_length p : St p -> off p <= length (data p).
Proof. intros (_ & _ & ((_ & Hv) & _) & _). exact Hv. Qed.

Lemma validSp_pt p : St p -> validSp (data p) (pt p).
Proof. intros (_ & _ & H & _). exact H. Qed.

Lemma validPos_pt p : St p -> validPos (data p) (position_ (pt p)).
Proof. intros H. apply validSp_pt in H. apply H. Qed.

Lemma DecodeRune_spec (l : list byte) :
  snd (DecodeRune l) <= length l /\ (fst (DecodeRune l) <> RuneError -> 0 < snd (DecodeRune l)).
Proof.
  unfold DecodeRune. destruct l as [|b0 rest]; [simpl; split; [lia|congruence]|].
  cbv zeta.
  repeat match goal with
         | |- context [if ?c then _ else _] => destruct c
         | |- context [match ?l with [] => _ | _ :: _ => _ end] => destruct l
         end; simpl; split; intros; try lia; try congruence.
Qed.

Lemma slice_Some {X} (s : list X) lo hi :
  lo <= hi -> hi <= length s -> slice s lo hi = Some (firstn (hi - lo) (skipn lo s)).
Proof.
  intros H1 H2. unfold slice.
  destruct (Nat.leb_spec lo hi); [|lia]. destruct (Nat.leb_spec hi (length s)); [|lia].
  reflexivity.
Qed.

(** [St] looks at six fields only. *)
Lemma St_field p p' :
  memoize p' = memoize p -> rules p' = rules p -> data p' = data p -> pt p' = pt p ->
  errs p' = errs p -> maxFailPos p' = maxFailPos p -> St p -> St p'.
Proof.
  intros Hm Hr Hd Hp He Hf (H1 & H2 & H3 & H4 & H5). unfold St, Inv.
  rewrite Hm, Hr, Hd, Hp, He, Hf. auto.
Qed.

(** What the steps that do not call [parseExpr] leave as it was. *)
Definition Frame (p p' : parser) : Prop :=
  data p' = data p /\ recover p' = recover p /\ vstack p' = vstack p /\ rstack p' = rstack p.

Lemma Frame_refl p : Frame p p.
Proof. repeat split. Qed.

Lemma Frame_trans p0 p1 p2 : Frame p0 p1 -> Frame p1 p2 -> Frame p0 p2.
Proof. intros (?&?&?&?) (?&?&?&?). repeat split; congruence. Qed.

Lemma addErrAt_spec e ps ex p :
  validPos (data p) ps -> St p ->
  St (addErrAt e ps ex p) /\ Frame p (addErrAt e ps ex p) /\ pt (addErrAt e ps ex p) = pt p.
Proof.
  intros Hps (H1 & H2 & H3 & H4 & H5). unfold addErrAt.
  repeat split; simpl; auto; try apply H3; try apply H5.
  apply Forall_app. split; [exact H4|]. constructor; [exact Hps|constructor].
Qed.

Lemma failAt_spec fail ps want p :
  validPos (data p) ps -> St p ->
  St (failAt fail ps want p) /\ Frame p (failAt fail ps want p) /\
  pt (failAt fail ps want p) = pt p.
Proof.
  intros Hps HS. unfold failAt.
  assert (Hsame : St p /\ Frame p p /\ pt p = pt p)
    by (split; [exact HS|split; [apply Frame_refl|reflexivity]]).
  destruct (Bool.eqb fail (maxFailInvertExpected p)); [|exact Hsame].
  destruct (offset ps <? offset (maxFailPos p))%nat; [exact Hsame|].
  destruct HS as (H1 & H2 & H3 & H4 & H5).
  destruct (offset (maxFailPos p) <? offset ps)%nat.
  - split; [|split; [repeat split|reflexivity]].
    split; [exact H1|]. split; [exact H2|]. split; [exact H3|]. split; [exact H4|exact Hps].
  - split; [|split; [repeat split|reflexivity]].
    split; [exact H1|]. split; [exact H2|]. split; [exact H3|]. split; [exact H4|exact H5].
Qed.

Lemma restore_spec sp p :
  St p -> validSp (data p) sp ->
  St (restore sp p) /\ Frame p (restore sp p) /\ off (restore sp p) = offset (position_ sp).
Proof.
  intros HS Hsp. unfold restore, off.
  destruct (Nat.eqb_spec (offset (position_ sp)) (offset (position_ (pt p)))) as [E|E].
  - split; [exact HS|]. split; [apply Frame_refl|]. symmetry. exact E.
  - destruct HS as (H1 & H2 & H3 & H4 & H5). repeat split; simpl; auto;
      try apply Hsp; try apply H5.
Qed.

(** [read] within the data does not panic, and moves by the width of the
    rune at hand. *)
Lemma read_spec p :
  memoize p = false -> rules p = ruleTable gr ->
  validPos (data p) (position_ (pt p)) ->
  offset (position_ (pt p)) + w (pt p) <= length (data p) ->
  validErrs (data p) (errs p) -> validPos (data p) (maxFailPos p) ->
  exists p', read p = Done tt p' /\ St p' /\ Frame p p' /\ off p' = off p + w (pt p).
Proof.
  intros H1 H2 [Hl Ho] Hw H4 H5. unfold read. cbn [data set_pt].
  rewrite slice_Some by lia. rewrite firstn_all2 by (rewrite length_skipn; lia).
  pose proof (DecodeRune_spec (skipn (offset (position_ (pt p)) + w (pt p)) (data p))) as [Hn Hr].
  destruct (DecodeRune _) as [r n]. simpl in Hn, Hr.
  rewrite length_skipn in Hn.
  eexists. split; [reflexivity|].
  match goal with |- St ?q /\ _ => assert (HS : St q /\ Frame p q /\ off q = off p + w (pt p)) end;
    [|exact HS].
  assert (Hv : validPos (data p)
                 (if (r =? 10)%Z
                  then {| line := S (line (position_ (pt p))); col := 0;
                          offset := offset (position_ (pt p)) + w (pt p) |}
                  else {| line := line (position_ (pt p)); col := S (col (position_ (pt p)));
                          offset := offset (position_ (pt p)) + w (pt p) |})).
  { destruct (r =? 10)%Z; split; simpl; lia. }
  assert (Hof : forall c : bool, offset (if c
                  then {| line := S (line (position_ (pt p))); col := 0;
                          offset := offset (position_ (pt p)) + w (pt p) |}
                  else {| line := line (position_ (pt p)); col := S (col (position_ (pt p)));
                          offset := offset (position_ (pt p)) + w (pt p) |})
                = offset (position_ (pt p)) + w (pt p)) by (intros []; reflexivity).
  destruct ((r =? RuneError)%Z && (n =? 1)%nat).
  - unfold addErr, addErrAt, off. cbn. rewrite Hof.
    repeat split; simpl; auto; try (rewrite Hof; lia); try apply Hv; try apply H5.
    apply Forall_app. split; [exact H4|]. constructor; [exact Hv|constructor].
  - unfold off. cbn. rewrite Hof.
    repeat split; simpl; auto; try (rewrite Hof; lia); try apply Hv; try apply H5.
Qed.

Lemma read_St p :
  St p -> exists p', read p = Done tt p' /\ St p' /\ Frame p p' /\ off p' = off p + w (pt p).
Proof.
  intros (H1 & H2 & (Hp & Hw & _) & H4 & H5). apply read_spec; auto.
Qed.

Lemma sliceFrom_spec start p :
  St p -> offset (position_ start) <= off p ->
  exists text, sliceFrom start p = Done text p.
Proof.
  intros HS Hle. unfold sliceFrom. rewrite slice_Some; [eauto|exact Hle|].
  apply off_le_length. exact HS.
Qed.

(** *** Termination: results that do not depend on the fuel *)

(** What is asked of the result of a method that started in [p0]: it is no
    panic of the runtime, and it has not run out of fuel. *)
Definition Post {X} (p0 : parser) (phi : X -> parser -> Prop) (r : Outcome X) : Prop :=
  match r with
  | Done x p => Ok p0 p /\ phi x p
  | Panicked msg p => Ok p0 p /\ helperPanics msg
  | OutOfFuel => False
  end.

(** From some fuel on, [F] run on [p] ends in one and the same result, and
    the result is as [Q] asks. *)
Definition T {X} (F : nat -> parser -> Outcome X) (p : parser) (Q : Outcome X -> Prop) : Prop :=
  exists r N, (forall f, N <= f -> F f p = r) /\ Q r.

Lemma T_pure {X} (k : parser -> Outcome X) p (Q : Outcome X -> Prop) :
  Q (k p) -> T (fun _ => k) p Q.
Proof. intros H. exists (k p), 0. split; auto. Qed.

Lemma T_weaken {X} (F : nat -> parser -> Outcome X) p (Q Q' : Outcome X -> Prop) :
  T F p Q -> (forall r, Q r -> Q' r) -> T F p Q'.
Proof. intros (r & N & HF & HQ) H. exists r, N. auto. Qed.

Lemma T_ext {X} (F G : nat -> parser -> Outcome X) p (Q : Outcome X -> Prop) :
  (forall f, F f p = G f p) -> T F p Q -> T G p Q.
Proof.
  intros E (r & N & HF & HQ). exists r, N. split; [|exact HQ].
  intros f Hf. rewrite <- E. auto.
Qed.

Lemma T_bind {X Y} (F : nat -> parser -> Outcome X) (K : nat -> X -> parser -> Outcome Y)
    p0 p1 (phi1 : X -> parser -> Prop) (phi2 : Y -> parser -> Prop) :
  Ok p0 p1 ->
  T F p1 (Post p1 phi1) ->
  (forall x p2, Ok p1 p2 -> phi1 x p2 -> T (fun f => K f x) p2 (Post p0 phi2)) ->
  T (fun f => bindO (F f) (K f)) p1 (Post p0 phi2).
Proof.
  intros H01 (r1 & N1 & HF & HQ) HK. destruct r1 as [x p2|msg p2|]; simpl in HQ.
  - destruct HQ as [Hok Hphi]. destruct (HK x p2 Hok Hphi) as (r2 & N2 & HK2 & HQ2).
    exists r2, (Nat.max N1 N2). split; [|exact HQ2].
    intros f Hf. unfold bindO. rewrite HF by lia. apply HK2. lia.
  - exists (Panicked msg p2), N1. split.
    + intros f Hf. unfold bindO. rewrite HF by lia. reflexivity.
    + simpl. split; [eapply Ok_trans; [exact H01|apply HQ]|apply HQ].
  - contradiction.
Qed.

(** *** Termination: the methods *)

(** A method may be called on [p]: there is a map for the labels. *)
Definition Pre (p : parser) : Prop := St p /\ vstack p <> [].

(** What a call of [parseExpr] leaves of the stacks: at most the map on top
    of [vstack] has changed. *)
Definition Stacks (p p' : parser) : Prop :=
  tail (vstack p') = tail (vstack p) /\ vstack p' <> [] /\ rstack p' = rstack p.

(** What [parseExpr] on [e] gives: a match of an expression that is not
    nullable has consumed input, a failure has consumed none. *)
Definition Prog (e : expr) (p : parser) (x : Value * bool) (p' : parser) : Prop :=
  (snd x = true -> nullable tbl e = false -> off p < off p') /\
  (snd x = false -> off p' = off p) /\
  Stacks p p'.

Definition Good (e : expr) (p : parser) : Prop :=
  T (fun f => parseExpr f e) p (Post p (Prog e p)).

Definition GoodAt (n : nat) (e : expr) : Prop :=
  forall p, Pre p -> rem p <= n -> Good e p.

Lemma Ok_of p p' : St p' -> Frame p p' -> off p <= off p' -> Ok p p'.
Proof. intros HS (Hd & Hr & _) Hle. repeat split; try apply HS; auto. Qed.

Lemma Stacks_of p p' : Frame p p' -> vstack p <> [] -> Stacks p p'.
Proof. intros (_ & _ & Hv & Hr) Hne. unfold Stacks. rewrite Hv, Hr. auto. Qed.

Lemma Stacks_refl p : vstack p <> [] -> Stacks p p.
Proof. intros H. repeat split. exact H. Qed.

Lemma parseExpr_T e p (phi : Value * bool -> parser -> Prop) :
  St p ->
  T (fun f => dispatch (parseExpr f) f e) p (Post p phi) ->
  T (fun f => parseExpr f e) p (Post p phi).
Proof.
  intros HS (r & N & HF & HQ). exists r, (S N). split; [|exact HQ].
  intros f Hf. destruct f as [|f]; [lia|]. cbn [parseExpr].
  destruct HS as (Hm & _). rewrite Hm. unfold bindO. rewrite HF by lia.
  destruct r as [[val ok] p'|msg p'|]; simpl in HQ; auto.
  unfold memoized. destruct HQ as [((Hm' & _) & _) _]. rewrite Hm'. reflexivity.
Qed.

Lemma parseAnyMatcher_T a p :
  Pre p -> T (fun _ => parseAnyMatcher) p (Post p (Prog (anyMatcher a) p)).
Proof.
  intros [HS Hne]. apply T_pure. unfold parseAnyMatcher.
  destruct (Z.eqb_spec (rn (pt p)) RuneError) as [E|E]; cbn [negb].
  - destruct (failAt_spec false (position_ (pt p)) "." p (validPos_pt p HS) HS) as (HS' & HF & Hpt).
    assert (Ho : off (failAt false (position_ (pt p)) "." p) = off p) by (unfold off; rewrite Hpt; reflexivity).
    split; [apply Ok_of; auto; lia|].
    split; [discriminate|]. split; [intros _; exact Ho|]. apply Stacks_of; auto.
  - destruct (read_St p HS) as (p1 & Hread & HS1 & HF1 & Ho1).
    unfold bindO. rewrite Hread. unfold upd.
    assert (Hvp : validPos (data p1) (position_ (pt p))).
    { destruct HF1 as (Hd & _). rewrite Hd. apply validPos_pt. exact HS. }
    destruct (failAt_spec true (position_ (pt p)) "." p1 Hvp HS1) as (HS2 & HF2 & Hpt2).
    set (p2 := failAt true (position_ (pt p)) "." p1) in *.
    assert (Ho2 : off p2 = off p + w (pt p)) by (unfold off; rewrite Hpt2; exact Ho1).
    destruct (sliceFrom_spec (pt p) p2 HS2) as (text & Hsl); [fold (off p); lia|].
    rewrite Hsl. unfold ret.
    split; [apply Ok_of; [exact HS2|eapply Frame_trans; eauto|lia]|].
    split; [|split; [discriminate|apply Stacks_of; [eapply Frame_trans; eauto|exact Hne]]].
    intros _ _. destruct (validSp_pt p HS) as (_ & _ & Hw). specialize (Hw E). lia.
Qed.

Lemma inRanges_even cur ranges :
  Nat.even (length ranges) = true -> exists inClass, inRanges cur ranges = Some inClass.
Proof.
  revert ranges.
  assert (H : forall n ranges, length ranges <= n -> Nat.even (length ranges) = true ->
                               exists inClass, inRanges cur ranges = Some inClass).
  { induction n as [|n IH]; intros ranges Hn Hev.
    - destruct ranges; [eexists; reflexivity|simpl in Hn; lia].
    - destruct ranges as [|lo [|hi ranges]]; [eexists; reflexivity|discriminate|].
      cbn [inRanges]. destruct ((lo <=? cur)%Z && (cur <=? hi)%Z); [eexists; reflexivity|].
      apply IH; [simpl in Hn; lia|exact Hev]. }
  intros ranges. apply (H (length ranges)). lia.
Qed.

Lemma parseCharClassMatcher_T a val chars ranges ic inv p :
  Pre p -> Nat.even (length ranges) = true ->
  T (fun _ => parseCharClassMatcher val chars ranges ic inv) p
    (Post p (Prog (charClassMatcher a val chars ranges ic inv) p)).
Proof.
  intros [HS Hne] Hev. apply T_pure. unfold parseCharClassMatcher.
  assert (Hfail : Post p (Prog (charClassMatcher a val chars ranges ic inv) p)
                    (Done (VNil, false) (failAt false (position_ (pt p)) val p))).
  { destruct (failAt_spec false (position_ (pt p)) val p (validPos_pt p HS) HS) as (HS' & HF & Hpt).
    assert (Ho : off (failAt false (position_ (pt p)) val p) = off p) by (unfold off; rewrite Hpt; reflexivity).
    split; [apply Ok_of; auto; lia|].
    split; [discriminate|]. split; [intros _; exact Ho|]. apply Stacks_of; auto. }
  destruct (Z.eqb_spec (rn (pt p)) RuneError) as [E|E]; [exact Hfail|].
  assert (Hres : forall inClass,
             Post p (Prog (charClassMatcher a val chars ranges ic inv) p)
               (classResult val inv (pt p) inClass p)).
  { intros inClass. unfold classResult. destruct (Bool.eqb inClass inv); [exact Hfail|].
    destruct (read_St p HS) as (p1 & Hread & HS1 & HF1 & Ho1).
    unfold bindO. rewrite Hread. unfold upd.
    assert (Hvp : validPos (data p1) (position_ (pt p))).
    { destruct HF1 as (Hd & _). rewrite Hd. apply validPos_pt. exact HS. }
    destruct (failAt_spec true (position_ (pt p)) val p1 Hvp HS1) as (HS2 & HF2 & Hpt2).
    set (p2 := failAt true (position_ (pt p)) val p1) in *.
    assert (Ho2 : off p2 = off p + w (pt p)) by (unfold off; rewrite Hpt2; exact Ho1).
    destruct (sliceFrom_spec (pt p) p2 HS2) as (text & Hsl); [fold (off p); lia|].
    rewrite Hsl. unfold ret.
    split; [apply Ok_of; [exact HS2|eapply Frame_trans; eauto|lia]|].
    split; [|split; [discriminate|apply Stacks_of; [eapply Frame_trans; eauto|exact Hne]]].
    intros _ _. destruct (validSp_pt p HS) as (_ & _ & Hw). specialize (Hw E). lia. }
  match goal with |- context [existsb ?f chars] => destruct (existsb f chars) end; [apply Hres|].
  match goal with |- context [inRanges ?c ranges] =>
    destruct (inRanges_even c ranges Hev) as (inClass & ->) end.
  apply Hres.
Qed.

Lemma matchRunes_spec ic wants :
  forall p, St p ->
  exists b p', matchRunes ic wants p = Done b p' /\ St p' /\ Frame p p' /\ off p <= off p' /\
    (b = true ->
     match wants with
     | [] => True
     | want :: _ => want <> RuneError -> off p < off p'
     end).
Proof.
  induction wants as [|want wants IH]; intros p HS.
  - exists true, p. split; [reflexivity|]. split; [exact HS|]. split; [apply Frame_refl|].
    split; [lia|auto].
  - cbn [matchRunes]. cbv zeta.
    match goal with |- context [Z.eqb ?x want] => destruct (Z.eqb_spec x want) as [E|E] end.
    + destruct (read_St p HS) as (p1 & Hread & HS1 & HF1 & Ho1).
      destruct (IH p1 HS1) as (b' & p' & Hm & HS' & HF' & Hle & _).
      exists b', p'. unfold bindO. rewrite Hread.
      split; [exact Hm|]. split; [exact HS'|]. split; [eapply Frame_trans; eauto|].
      split; [lia|]. intros _ Hwant.
      assert (Hrn : rn (pt p) <> RuneError).
      { intros Hrn. rewrite Hrn in E. destruct ic; [rewrite HToLower in E|]; congruence. }
      destruct (validSp_pt p HS) as (_ & _ & Hw). specialize (Hw Hrn). lia.
    + exists false, p. split; [reflexivity|]. split; [exact HS|]. split; [apply Frame_refl|].
      split; [lia|discriminate].
Qed.

Lemma parseLitMatcher_T a val ic p :
  Pre p -> T (fun _ => parseLitMatcher val ic) p (Post p (Prog (litMatcher a val ic) p)).
Proof.
  intros [HS Hne]. apply T_pure. unfold parseLitMatcher.
  destruct (matchRunes_spec ic (runes val) p HS) as (b' & p1 & Hm & HS1 & HF1 & Hle & Hprog).
  unfold bindO at 1. rewrite Hm.
  assert (Hvp : validPos (data p1) (position_ (pt p))).
  { destruct HF1 as (Hd & _). rewrite Hd. apply validPos_pt. exact HS. }
  destruct b'.
  - unfold bindO, upd.
    destruct (failAt_spec true (position_ (pt p)) (quote val +:+ (if ic then "i" else "")) p1 Hvp HS1)
      as (HS2 & HF2 & Hpt2).
    set (p2 := failAt true _ _ p1) in *.
    assert (Ho2 : off p2 = off p1) by (unfold off; rewrite Hpt2; reflexivity).
    destruct (sliceFrom_spec (pt p) p2 HS2) as (text & Hsl); [fold (off p); lia|].
    rewrite Hsl. unfold ret.
    split; [apply Ok_of; [exact HS2|eapply Frame_trans; eauto|lia]|].
    split; [|split; [discriminate|apply Stacks_of; [eapply Frame_trans; eauto|exact Hne]]].
    intros _ Hnl. cbn [nullable] in Hnl. unfold litNullable in Hnl.
    specialize (Hprog eq_refl). destruct (runes val) as [|want ?]; [discriminate|].
    rewrite Ho2. apply Hprog. intros Hw. rewrite Hw in Hnl. discriminate.
  - unfold bindO, upd.
    destruct (failAt_spec false (position_ (pt p)) (quote val +:+ (if ic then "i" else "")) p1 Hvp HS1)
      as (HS2 & HF2 & Hpt2).
    set (p2 := failAt false _ _ p1) in *.
    assert (Hsp : validSp (data p2) (pt p)).
    { destruct HF2 as (Hd2 & _). destruct HF1 as (Hd1 & _). rewrite Hd2, Hd1.
      apply validSp_pt. exact HS. }
    destruct (restore_spec (pt p) p2 HS2 Hsp) as (HS3 & HF3 & Ho3).
    unfold ret.
    split; [apply Ok_of; [exact HS3|eapply Frame_trans; [|exact HF3]; eapply Frame_trans; eauto|]|].
    + rewrite Ho3. unfold off. lia.
    + split; [discriminate|]. split; [intros _; exact Ho3|].
      apply Stacks_of; [|exact Hne]. eapply Frame_trans; [|exact HF3]. eapply Frame_trans; eauto.
Qed.

(** A call of [parseExpr] followed by steps that do not call it. *)
Lemma T_rec {Y} e q p0 (K : Value -> bool -> parser -> Outcome Y) (phi : Y -> parser -> Prop) :
  Ok p0 q -> Good e q ->
  (forall val ok p1, Ok q p1 -> Prog e q (val, ok) p1 -> Post p0 phi (K val ok p1)) ->
  T (fun f => bindO (parseExpr f e) (fun '(val, ok) => K val ok)) q (Post p0 phi).
Proof.
  intros H0 HG HK.
  apply (T_bind (fun f => parseExpr f e) (fun _ '(val, ok) => K val ok) p0 q (Prog e q) phi H0 HG).
  intros [val ok] p1 Hok Hprog. apply T_pure. apply HK; assumption.
Qed.

Lemma Ok_field p0 p1 p2 :
  Ok p0 p1 -> St p2 -> data p2 = data p1 -> recover p2 = recover p1 -> off p1 <= off p2 ->
  Ok p0 p2.
Proof.
  intros (_ & Hd & Hr & Ho) HS Hd2 Hr2 Ho2. split; [exact HS|].
  split; [congruence|]. split; [congruence|lia].
Qed.

Lemma St_pushV p : St p -> St (pushV p).
Proof. apply St_field; reflexivity. Qed.

Lemma Ok_pushV p : St p -> Ok p (pushV p).
Proof.
  intros HS. split; [apply St_pushV; exact HS|]. split; [reflexivity|].
  split; [reflexivity|]. unfold off. simpl. lia.
Qed.

Lemma Pre_pushV p : St p -> Pre (pushV p).
Proof. intros HS. split; [apply St_pushV; exact HS|]. discriminate. Qed.

Lemma St_set_vstack p x : St p -> St (set_vstack p x).
Proof. apply St_field; reflexivity. Qed.

(** After a call on a stack that was pushed, [popV] gives the stack back. *)
Lemma popV_Stacks q p1 vs m :
  vstack q = m :: vs -> Stacks q p1 -> popV p1 = Done tt (set_vstack p1 vs).
Proof.
  intros Hq (Htl & Hne & _). unfold popV. rewrite Hq in Htl. simpl in Htl.
  destruct (vstack p1) as [|m' st]; [congruence|]. simpl in Htl. subst st. reflexivity.
Qed.

Lemma parseLabeledExpr_T a label e p :
  Pre p -> Good e (pushV p) ->
  T (fun f => parseLabeledExpr (parseExpr f) label e) p (Post p (Prog (labeledExpr a label e) p)).
Proof.
  intros [HS Hne] HG.
  refine (T_rec e (pushV p) p
            (fun val ok => bindO popV (fun _ =>
               bindO (if ok && negb (String.eqb label "") then setTopV label val else ret tt)
                 (fun _ => ret (val, ok)))) _ (Ok_pushV p HS) HG _).
  intros val ok p1 Hok (Hprog & Hfail & Hst).
  unfold bindO at 1. rewrite (popV_Stacks (pushV p) p1 (vstack p) ∅ eq_refl Hst).
  set (p2 := set_vstack p1 (vstack p)).
  assert (HS2 : St p2) by (apply St_set_vstack; apply Hok).
  assert (Hok2 : Ok p p2).
  { eapply Ok_field; [exact (Ok_trans _ _ _ (Ok_pushV p HS) Hok)|exact HS2|reflexivity..|]. unfold off. simpl. lia. }
  destruct Hst as (_ & _ & Hrs).
  destruct (ok && negb (String.eqb label "")).
  - unfold bindO, setTopV. cbn [vstack p2 set_vstack].
    destruct (vstack p) as [|m st] eqn:Hv; [congruence|]. unfold ret.
    split.
    + eapply Ok_field; [exact Hok2|apply St_set_vstack; exact HS2|reflexivity..|]. unfold off. simpl. lia.
    + split; [exact Hprog|]. split; [exact Hfail|].
      split; [cbn; rewrite Hv; reflexivity|]. split; [discriminate|exact Hrs].
  - unfold bindO, ret. split; [exact Hok2|].
    split; [exact Hprog|]. split; [exact Hfail|].
    split; [reflexivity|]. split; [exact Hne|exact Hrs].
Qed.

Lemma parseZeroOrOneExpr_T a e p :
  Pre p -> Good e (pushV p) ->
  T (fun f => parseZeroOrOneExpr (parseExpr f) e) p (Post p (Prog (zeroOrOneExpr a e) p)).
Proof.
  intros [HS Hne] HG.
  refine (T_rec e (pushV p) p
            (fun val _ => bindO popV (fun _ => ret (val, true))) _ (Ok_pushV p HS) HG _).
  intros val ok p1 Hok (Hprog & Hfail & Hst).
  unfold bindO at 1. rewrite (popV_Stacks (pushV p) p1 (vstack p) ∅ eq_refl Hst).
  set (p2 := set_vstack p1 (vstack p)).
  assert (HS2 : St p2) by (apply St_set_vstack; apply Hok).
  assert (Hok2 : Ok p p2).
  { eapply Ok_field; [exact (Ok_trans _ _ _ (Ok_pushV p HS) Hok)|exact HS2|reflexivity..|]. unfold off. simpl. lia. }
  destruct Hst as (_ & _ & Hrs). unfold ret.
  split; [exact Hok2|]. split; [discriminate|]. split; [discriminate|].
  split; [reflexivity|]. split; [exact Hne|exact Hrs].
Qed.

Lemma parseAndExpr_T a e p :
  Pre p -> Good e (pushV p) ->
  T (fun f => parseAndExpr (parseExpr f) e) p (Post p (Prog (andExpr a e) p)).
Proof.
  intros [HS Hne] HG.
  refine (T_rec e (pushV p) p
            (fun _ ok => bindO popV (fun _ => bindO (upd (restore (pt p))) (fun _ => ret (VNil, ok))))
            _ (Ok_pushV p HS) HG _).
  intros val ok p1 Hok (Hprog & Hfail & Hst).
  unfold bindO at 1. rewrite (popV_Stacks (pushV p) p1 (vstack p) ∅ eq_refl Hst).
  set (p2 := set_vstack p1 (vstack p)).
  assert (HS2 : St p2) by (apply St_set_vstack; apply Hok).
  assert (Hd2 : data p2 = data p) by (destruct Hok as (_ & Hd & _); exact Hd).
  assert (Hsp : validSp (data p2) (pt p)) by (rewrite Hd2; apply validSp_pt; exact HS).
  destruct (restore_spec (pt p) p2 HS2 Hsp) as (HS3 & (Hd3 & Hr3 & Hv3 & Hrs3) & Ho3).
  destruct Hst as (_ & _ & Hrs). destruct Hok as (_ & _ & Hrec & _).
  unfold bindO, upd, ret.
  split; [|split; [discriminate|split; [intros _; exact Ho3|]]].
  - split; [exact HS3|]. split; [congruence|]. split; [|rewrite Ho3; unfold off; lia].
    rewrite Hr3. exact Hrec.
  - split; [rewrite Hv3; reflexivity|]. split; [rewrite Hv3; exact Hne|].
    rewrite Hrs3. exact Hrs.
Qed.

Lemma parseNotExpr_T a e p :
  Pre p ->
  Good e (set_maxFailInvertExpected (pushV p) (negb (maxFailInvertExpected (pushV p)))) ->
  T (fun f => parseNotExpr (parseExpr f) e) p (Post p (Prog (notExpr a e) p)).
Proof.
  intros [HS Hne] HG.
  set (q := set_maxFailInvertExpected (pushV p) (negb (maxFailInvertExpected (pushV p)))) in *.
  assert (HSq : St q) by (revert HS; apply St_field; reflexivity).
  assert (Hokq : Ok p q).
  { split; [exact HSq|]. split; [reflexivity|]. split; [reflexivity|]. unfold off. simpl. lia. }
  refine (T_rec e q p
            (fun _ ok =>
               bindO (upd (fun p => set_maxFailInvertExpected p (negb (maxFailInvertExpected p))))
                 (fun _ => bindO popV (fun _ => bindO (upd (restore (pt p)))
                    (fun _ => ret (VNil, negb ok)))))
            _ Hokq HG _).
  intros val ok p1 Hok (Hprog & Hfail & Hst).
  unfold bindO at 1. unfold upd at 1.
  set (p1' := set_maxFailInvertExpected p1 (negb (maxFailInvertExpected p1))).
  assert (Hst' : Stacks q p1') by exact Hst.
  unfold bindO at 1. rewrite (popV_Stacks q p1' (vstack p) ∅ eq_refl Hst').
  set (p2 := set_vstack p1' (vstack p)).
  assert (HS2 : St p2).
  { apply St_set_vstack. destruct Hok as (HS1 & _). revert HS1. apply St_field; reflexivity. }
  assert (Hd2 : data p2 = data p) by (destruct Hok as (_ & Hd & _); exact Hd).
  assert (Hsp : validSp (data p2) (pt p)) by (rewrite Hd2; apply validSp_pt; exact HS).
  destruct (restore_spec (pt p) p2 HS2 Hsp) as (HS3 & (Hd3 & Hr3 & Hv3 & Hrs3) & Ho3).
  destruct Hst as (_ & _ & Hrs). destruct Hok as (_ & _ & Hrec & _).
  unfold bindO, upd, ret.
  split; [|split; [discriminate|split; [intros _; exact Ho3|]]].
  - split; [exact HS3|]. split; [congruence|]. split; [|rewrite Ho3; unfold off; lia].
    rewrite Hr3. exact Hrec.
  - split; [rewrite Hv3; reflexivity|]. split; [rewrite Hv3; exact Hne|].
    rewrite Hrs3. exact Hrs.
Qed.

Lemma callon_Panic a stack c msg : callon a stack c = Panic msg -> helperPanics msg.
Proof.
  unfold helperPanics. destruct a; cbn [callon]; intros H; try discriminate; eauto.
Qed.

Lemma parseActionExpr_T a run e p :
  Pre p -> Good e p ->
  T (fun f => parseActionExpr (parseExpr f) run e) p (Post p (Prog (actionExpr a run e) p)).
Proof.
  intros [HS Hne] HG.
  refine (T_rec e p p
            (fun val ok =>
               if ok then
                 bindO (sliceFrom (pt p)) (fun text =>
                 bindO (upd (fun p' => set_cur p' {| pos := position_ (pt p); text := text |}))
                   (fun _ =>
                 bindO (runAction run) (fun '(actVal, e) =>
                 bindO (upd (fun p' =>
                          match e with
                          | Some msg => addErrAt msg (position_ (pt p)) [] p'
                          | None => p'
                          end)) (fun _ => ret (actVal, ok)))))
               else ret (val, ok)) _ (Ok_refl p HS) HG _).
  intros val ok p1 Hok (Hprog & Hfail & Hst).
  destruct ok; [|unfold ret; split; [exact Hok|]; split; [exact Hprog|]; split; [exact Hfail|exact Hst]].
  destruct (sliceFrom_spec (pt p) p1) as (text & Hsl); [apply Hok|apply Hok|].
  unfold bindO at 1. rewrite Hsl. unfold bindO at 1. unfold upd at 1.
  set (p2 := set_cur p1 _).
  assert (HS2 : St p2) by (destruct Hok as (HS1 & _); revert HS1; apply St_field; reflexivity).
  destruct Hst as (Htl & Hne1 & Hrs).
  unfold bindO at 1. unfold runAction. cbn [vstack p2 set_cur].
  destruct (vstack p1) as [|stack st] eqn:Hv1; [congruence|].
  destruct (callon run stack (cur p2)) as [x oe|msg] eqn:Hcall.
  - unfold bindO, upd, ret.
    assert (Hvp : validPos (data p2) (position_ (pt p))).
    { destruct Hok as (_ & Hd & _). cbn. rewrite Hd. apply validPos_pt. exact HS. }
    destruct oe as [msg|].
    + destruct (addErrAt_spec msg (position_ (pt p)) [] p2 Hvp HS2) as (HS3 & (Hd3 & Hr3 & Hv3 & Hrs3) & Hpt3).
      split.
      * eapply Ok_field; [exact Hok|exact HS3|exact Hd3|exact Hr3|]. unfold off. rewrite Hpt3. simpl. lia.
      * unfold Prog, Stacks, off in *. rewrite Hpt3. cbn [pt p2 set_cur].
        split; [exact Hprog|]. split; [exact Hfail|].
        rewrite Hv3, Hrs3. cbn [vstack rstack p2 set_cur]. rewrite Hv1.
        split; [exact Htl|]. split; [discriminate|exact Hrs].
    + split.
      * eapply Ok_field; [exact Hok|exact HS2|reflexivity..|]. unfold off. simpl. lia.
      * split; [exact Hprog|]. split; [exact Hfail|].
        unfold Stacks. cbn [vstack rstack p2 set_cur]. rewrite Hv1.
        split; [exact Htl|]. split; [discriminate|exact Hrs].
  - split; [|eapply callon_Panic; exact Hcall].
    eapply Ok_field; [exact Hok|exact HS2|reflexivity..|]. unfold off. simpl. lia.
Qed.

(** [parseRule] leaves both stacks as they were. *)
Definition ProgRule (r : rule) (p : parser) (x : Value * bool) (p' : parser) : Prop :=
  (snd x = true -> nullable tbl (expr_ r) = false -> off p < off p') /\
  (snd x = false -> off p' = off p) /\
  vstack p' = vstack p /\ rstack p' = rstack p.

Lemma parseRule_T r p :
  St p ->
  Good (expr_ r) (pushV (set_rstack p (r :: rstack p))) ->
  T (fun f => parseRule (parseExpr f) r) p (Post p (ProgRule r p)).
Proof.
  intros HS HG.
  set (q := pushV (set_rstack p (r :: rstack p))) in *.
  assert (HSq : St q) by (revert HS; apply St_field; reflexivity).
  assert (Hokq : Ok p q).
  { split; [exact HSq|]. split; [reflexivity|]. split; [reflexivity|]. unfold off. simpl. lia. }
  apply (T_ext (fun f _ =>
                  bindO (parseExpr f (expr_ r))
                    (fun '(val, ok) => bindO popV (fun _ => bindO popR (fun _ =>
                       memoized (pt p) (inl (name r)) val ok))) q)).
  { intros f. unfold parseRule. destruct HS as (Hm & _). rewrite Hm. reflexivity. }
  refine (T_rec (expr_ r) q p
            (fun val ok => bindO popV (fun _ => bindO popR (fun _ =>
               memoized (pt p) (inl (name r)) val ok))) _ Hokq HG _).
  intros val ok p1 Hok (Hprog & Hfail & Hst).
  unfold bindO at 1. rewrite (popV_Stacks q p1 (vstack p) ∅ eq_refl Hst).
  destruct Hst as (_ & _ & Hrs).
  unfold bindO, popR. cbn [rstack set_vstack]. rewrite Hrs. cbn [q rstack pushV set_vstack set_rstack].
  unfold memoized. cbn [memoize set_rstack set_vstack].
  destruct Hok as (HS1 & Hd1 & Hr1 & Ho1). destruct (HS1) as (Hm1 & _). rewrite Hm1.
  split.
  - split; [revert HS1; apply St_field; reflexivity|].
    split; [exact Hd1|]. split; [exact Hr1|exact Ho1].
  - split; [exact Hprog|]. split; [exact Hfail|]. split; reflexivity.
Qed.

Lemma Stacks_trans p0 p1 p2 : Stacks p0 p1 -> Stacks p1 p2 -> Stacks p0 p2.
Proof.
  intros (H1 & H2 & H3) (H4 & H5 & H6). split; [congruence|]. split; [exact H5|congruence].
Qed.

Lemma rem_le p0 p : Ok p0 p -> rem p <= rem p0.
Proof. intros (_ & Hd & _ & Ho). unfold rem. rewrite Hd. lia. Qed.

Lemma rem_lt p0 p : Ok p0 p -> off p0 < off p -> rem p < rem p0.
Proof.
  intros (HS & Hd & _ & Ho) Hlt. pose proof (off_le_length p HS) as Hle.
  unfold rem. rewrite Hd in *. lia.
Qed.

Lemma ruleTable_lookup nm r :
  ruleTable gr !! nm = Some r -> In r (rules_ gr) /\ name r = nm.
Proof.
  unfold ruleTable.
  assert (Hgen : forall l (m : gmap string rule),
             (forall k x, m !! k = Some x -> In x (rules_ gr) /\ name x = k) ->
             (forall x, In x l -> In x (rules_ gr)) ->
             forall k x, fold_left (fun m r => <[name r := r]> m) l m !! k = Some x ->
                         In x (rules_ gr) /\ name x = k).
  { induction l as [|y l IH]; intros m Hm Hl k x; simpl.
    - apply Hm.
    - apply IH.
      + intros k' x' Hk'. destruct (decide (name y = k')) as [E|E].
        * subst k'. rewrite lookup_insert_eq in Hk'. injection Hk' as <-.
          split; [apply Hl; left; reflexivity|reflexivity].
        * rewrite lookup_insert_ne in Hk' by exact E. apply Hm. exact Hk'.
      + intros x' Hx'. apply Hl. right. exact Hx'. }
  apply Hgen.
  - intros k x Hk. rewrite lookup_empty in Hk. discriminate.
  - auto.
Qed.

Lemma wfRule_In r : In r (rules_ gr) -> wfRule tbl top r = true.
Proof. intros Hin. unfold wfGrammar in Hwf. rewrite forallb_forall in Hwf. auto. Qed.

Lemma parseRuleRefExpr_T a nm b p :
  Pre p ->
  wfe tbl top b (ruleRefExpr a nm) = true ->
  (forall r rk, In r (rules_ gr) -> rk < b -> wfe tbl top rk (expr_ r) = true ->
                Good (expr_ r) (pushV (set_rstack p (r :: rstack p)))) ->
  T (fun f => parseRuleRefExpr (parseExpr f) nm) p (Post p (Prog (ruleRefExpr a nm) p)).
Proof.
  intros [HS Hne] Hw HG. cbn [wfe] in Hw. apply andb_true_iff in Hw as [Hnm Hrk].
  apply negb_true_iff in Hnm.
  destruct HS as (Hm & Hr & HI).
  destruct (ruleTable gr !! nm) as [r|] eqn:Hlook.
  - apply (T_ext (fun f => parseRule (parseExpr f) r)).
    { intros f. unfold parseRuleRefExpr. rewrite Hnm, Hr, Hlook. reflexivity. }
    destruct (ruleTable_lookup nm r Hlook) as [Hin Hname].
    pose proof (wfRule_In r Hin) as Hwr. unfold wfRule in Hwr. rewrite Hname in Hwr.
    destruct (lookupInfo tbl nm) as [[rk nl]|] eqn:Hinfo; [|discriminate].
    apply andb_true_iff in Hwr as [Hwr Himp]. apply andb_true_iff in Hwr as [_ Hwe].
    apply Nat.ltb_lt in Hrk.
    assert (HSp : St p) by (split; [exact Hm|split; [exact Hr|exact HI]]).
    pose proof (parseRule_T r p HSp (HG r rk Hin Hrk Hwe)) as HT.
    eapply T_weaken; [exact HT|].
    intros [[val ok] p'|msg p'|]; simpl; auto.
    intros [Hok (Hprog & Hfail & Hv & Hrs)]. split; [exact Hok|].
    split; [|split; [exact Hfail|]].
    + intros Hs Hnl. apply Hprog; [exact Hs|]. cbn [nullable] in Hnl. rewrite Hinfo in Hnl.
      subst nl. destruct (nullable tbl (expr_ r)); [discriminate|reflexivity].
    + split; [rewrite Hv; reflexivity|]. split; [rewrite Hv; exact Hne|exact Hrs].
  - apply (T_ext (fun _ q => Done (VNil, false) (addErr ("undefined rule: " +:+ nm) q))).
    { intros f. unfold parseRuleRefExpr. rewrite Hnm, Hr, Hlook. reflexivity. }
    apply T_pure.
    assert (HSp : St p) by (split; [exact Hm|split; [exact Hr|exact HI]]).
    destruct (addErrAt_spec ("undefined rule: " +:+ nm) (position_ (pt p)) [] p
                (validPos_pt p HSp) HSp) as (HS' & HF & Hpt).
    unfold addErr.
    assert (Ho : off (addErrAt ("undefined rule: " +:+ nm) (position_ (pt p)) [] p) = off p)
      by (unfold off; rewrite Hpt; reflexivity).
    split; [apply Ok_of; auto; lia|].
    split; [discriminate|]. split; [intros _; exact Ho|]. apply Stacks_of; auto.
Qed.

(** The loop of [parseChoiceExpr]. *)
Lemma parseChoiceExpr_T n alts :
  (forall alt, In alt alts -> GoodAt n alt) ->
  forall p0 p, Pre p0 -> rem p0 <= n -> Ok p0 p -> off p = off p0 ->
    vstack p = vstack p0 -> rstack p = rstack p0 ->
    T (fun f => parseChoiceExpr (parseExpr f) alts) p
      (Post p0 (fun x p' =>
         (snd x = true -> existsb (nullable tbl) alts = false -> off p0 < off p') /\
         (snd x = false -> off p' = off p0) /\ Stacks p0 p')).
Proof.
  induction alts as [|alt alts IH]; intros Halts p0 p [HS0 Hne0] Hn Hok Hoff Hvs Hrs.
  - apply T_pure. cbn. split; [exact Hok|]. split; [discriminate|]. split; [auto|].
    split; [rewrite Hvs; reflexivity|]. split; [rewrite Hvs; exact Hne0|exact Hrs].
  - cbn [parseChoiceExpr].
    assert (HSp : St p) by apply Hok.
    assert (Hq : Ok p0 (pushV p)) by (eapply Ok_trans; [exact Hok|apply Ok_pushV; exact HSp]).
    assert (HG : Good alt (pushV p)).
    { apply Halts; [left; reflexivity|apply Pre_pushV; exact HSp|].
      pose proof (rem_le p0 p Hok). unfold rem, off in *. simpl. lia. }
    refine (T_bind (fun f => parseExpr f alt)
              (fun f '(val, ok) => bindO popV (fun _ =>
                 if ok then ret (val, ok) else parseChoiceExpr (parseExpr f) alts))
              p0 (pushV p) (Prog alt (pushV p)) _ Hq HG _).
    intros [val ok] p1 Hok1 (Hprog & Hfail & Hst).
    pose proof (popV_Stacks (pushV p) p1 (vstack p) ∅ eq_refl Hst) as Hpop.
    set (p2 := set_vstack p1 (vstack p)) in *.
    assert (HS2 : St p2) by (apply St_set_vstack; apply Hok1).
    assert (Hok2 : Ok p0 p2).
    { eapply Ok_field; [exact (Ok_trans _ _ _ Hq Hok1)|exact HS2|reflexivity..|]. unfold off. simpl. lia. }
    destruct Hst as (_ & _ & Hrs1).
    destruct ok.
    + apply (T_ext (fun _ _ => Done (val, true) p2)).
      { intros f. unfold bindO. rewrite Hpop. reflexivity. }
      apply T_pure. split; [exact Hok2|].
      split; [|split; [discriminate|]].
      * intros _ Hex. cbn [existsb] in Hex. apply orb_false_iff in Hex as [Hnl _].
        specialize (Hprog eq_refl Hnl). unfold off in *. simpl in *. lia.
      * split; [cbn; rewrite Hvs; reflexivity|]. split; [cbn; rewrite Hvs; exact Hne0|].
        cbn. rewrite Hrs1. cbn. exact Hrs.
    + assert (HT : T (fun f => parseChoiceExpr (parseExpr f) alts) p2
                (Post p0 (fun x p' =>
                   (snd x = true -> existsb (nullable tbl) alts = false -> off p0 < off p') /\
                   (snd x = false -> off p' = off p0) /\ Stacks p0 p'))).
      { apply IH; auto.
        - intros alt' Hin. apply Halts. right. exact Hin.
        - split; assumption.
        - specialize (Hfail eq_refl). unfold off in *. simpl in *. lia.
        - cbn. rewrite Hrs1. cbn. exact Hrs. }
      destruct HT as (r & N & HF & HQ). exists r, N. split.
      * intros f Hf. unfold bindO. rewrite Hpop. apply HF. exact Hf.
      * destruct r as [[val' ok'] p'|msg p'|]; simpl in *; auto.
        destruct HQ as [Hok' (Hp' & Hf' & Hst')]. split; [exact Hok'|].
        split; [|split; [exact Hf'|exact Hst']].
        intros Hs Hex. apply Hp'; [exact Hs|]. apply orb_false_iff in Hex as [_ Hex]. exact Hex.
Qed.

(** The loop of [parseSeqExpr]; [strict] says that input was consumed since
    the sequence began. *)
Lemma seqLoop_T n b es :
  (forall e, In e es -> wfe tbl top b e = true -> GoodAt n e) ->
  (forall e, In e es -> wfe tbl top top e = true -> forall q, Pre q -> rem q < n -> Good e q) ->
  forall vals p0 p (strict : bool), Pre p0 -> rem p0 <= n -> Ok p0 p -> Stacks p0 p ->
    (if strict then off p0 < off p /\ wfeSeq tbl top top es = true
     else wfeSeq tbl top b es = true) ->
    T (fun f => seqLoop (parseExpr f) es vals (pt p0)) p
      (Post p0 (fun x p' =>
         (snd x = true -> strict = true \/ forallb (nullable tbl) es = false -> off p0 < off p') /\
         (snd x = false -> off p' = off p0) /\ Stacks p0 p')).
Proof.
  induction es as [|e es IH]; intros H1 H2 vals p0 p strict [HS0 Hne0] Hn Hok Hst Hmode.
  - apply T_pure. cbn. split; [exact Hok|]. split; [|split; [discriminate|exact Hst]].
    intros _ [Hs|Hs]; [|discriminate]. subst strict. apply Hmode.
  - cbn [seqLoop].
    assert (HSp : St p) by apply Hok.
    assert (HPp : Pre p) by (split; [exact HSp|apply Hst]).
    assert (HG : Good e p).
    { destruct strict.
      - destruct Hmode as [Hlt Hw]. cbn [wfeSeq] in Hw. apply andb_true_iff in Hw as [Hw _].
        apply H2; [left; reflexivity|exact Hw|exact HPp|].
        pose proof (rem_lt p0 p Hok Hlt). lia.
      - cbn [wfeSeq] in Hmode. apply andb_true_iff in Hmode as [Hw _].
        apply H1; [left; reflexivity|exact Hw|exact HPp|].
        pose proof (rem_le p0 p Hok). lia. }
    refine (T_bind (fun f => parseExpr f e)
              (fun f '(val, ok) =>
                 if ok then seqLoop (parseExpr f) es (vals ++ [val]) (pt p0)
                 else fun p => Done (VNil, false) (restore (pt p0) p))
              p0 p (Prog e p) _ Hok HG _).
    intros [val ok] p1 Hok1 (Hprog & Hfail & Hst1).
    assert (Hok01 : Ok p0 p1) by (eapply Ok_trans; eauto).
    assert (Hst01 : Stacks p0 p1) by (eapply Stacks_trans; eauto).
    destruct ok.
    + assert (Hmode' : exists strict' : bool,
                 (if strict' then off p0 < off p1 /\ wfeSeq tbl top top es = true
                  else wfeSeq tbl top b es = true) /\
                 (strict = true \/ nullable tbl e = false -> strict' = true)).
      { destruct strict.
        - exists true. destruct Hmode as [Hlt Hw]. cbn [wfeSeq] in Hw.
          apply andb_true_iff in Hw as [_ Hw].
          split; [|auto]. split; [destruct Hok1 as (_ & _ & _ & Ho); lia|].
          destruct (nullable tbl e); exact Hw.
        - cbn [wfeSeq] in Hmode. apply andb_true_iff in Hmode as [_ Hw].
          destruct (nullable tbl e) eqn:Hnl.
          + exists false. split; [exact Hw|]. intros [?|?]; discriminate.
          + exists true. split; [|auto]. split; [|exact Hw].
            specialize (Hprog eq_refl eq_refl). destruct Hok as (_ & _ & _ & Ho). lia. }
      destruct Hmode' as (strict' & Hm' & Hs').
      assert (HT := IH (fun e' Hin => H1 e' (or_intror Hin)) (fun e' Hin => H2 e' (or_intror Hin))
                      (vals ++ [val])%list p0 p1 strict' (conj HS0 Hne0) Hn Hok01 Hst01 Hm').
      eapply T_weaken; [exact HT|].
      intros [[val' ok'] p'|msg p'|]; simpl; auto.
      intros [Hok' (Hp' & Hf' & Hst')]. split; [exact Hok'|].
      split; [|split; [exact Hf'|exact Hst']].
      intros Hs Hor. apply Hp'; [exact Hs|]. destruct Hor as [Hor|Hor].
      * left. apply Hs'. left. exact Hor.
      * cbn [forallb] in Hor. apply andb_false_iff in Hor as [Hor|Hor].
        -- left. apply Hs'. right. exact Hor.
        -- right. exact Hor.
    + apply T_pure.
      assert (Hsp : validSp (data p1) (pt p0)).
      { destruct Hok01 as (_ & Hd & _). rewrite Hd. apply validSp_pt. exact HS0. }
      destruct (restore_spec (pt p0) p1 (proj1 Hok01) Hsp) as (HS3 & (Hd3 & Hr3 & Hv3 & Hrs3) & Ho3).
      destruct Hok01 as (_ & Hd01 & Hr01 & _).
      split.
      * split; [exact HS3|]. split; [congruence|]. split; [congruence|].
        rewrite Ho3. unfold off. lia.
      * split; [discriminate|]. split; [intros _; exact Ho3|].
        destruct Hst01 as (Ht & Hn1 & Hr1). unfold Stacks. rewrite Hv3, Hrs3. auto.
Qed.

(** The loop of [parseZeroOrMoreExpr] and [parseOneOrMoreExpr]: the body
    consumes input at every round, so the rounds come to an end. *)
Lemma repeatLoop_T n flag e :
  GoodAt n e -> nullable tbl e = false ->
  forall m p0 p vals, rem p <= m -> Pre p0 -> rem p0 <= n -> Ok p0 p ->
    vstack p = vstack p0 -> rstack p = rstack p0 ->
    (vals = [] -> off p = off p0) -> (vals <> [] -> off p0 < off p) ->
    exists r N,
      (forall f k, N <= f -> N <= k -> repeatLoop (parseExpr f) k flag e vals p = r) /\
      Post p0 (fun x p' =>
         (snd x = true -> flag = true -> off p0 < off p') /\
         (snd x = false -> off p' = off p0) /\ Stacks p0 p') r.
Proof.
  intros HG Hnl. induction m as [|m IH]; intros p0 p vals Hm [HS0 Hne0] Hn Hok Hvs Hrs Hnil Hcons.
  - assert (HSp : St p) by apply Hok.
    assert (Hq : Ok p0 (pushV p)) by (eapply Ok_trans; [exact Hok|apply Ok_pushV; exact HSp]).
    assert (HGq : Good e (pushV p)).
    { apply HG; [apply Pre_pushV; exact HSp|].
      pose proof (rem_le p0 p Hok). unfold rem, off in *. simpl. lia. }
    destruct HGq as (r1 & N1 & HF1 & HQ1).
    destruct r1 as [[val ok] p1|msg p1|]; simpl in HQ1; [| |contradiction].
    + destruct HQ1 as [Hok1 (Hprog & Hfail & Hst)].
      pose proof (popV_Stacks (pushV p) p1 (vstack p) ∅ eq_refl Hst) as Hpop.
      destruct ok.
      * exfalso. specialize (Hprog eq_refl Hnl).
        pose proof (off_le_length p1 (proj1 Hok1)) as Hle.
        destruct Hok1 as (_ & Hd & _). unfold rem, off in *. simpl in *. rewrite Hd in Hle. lia.
      * set (p2 := set_vstack p1 (vstack p)) in *.
        assert (HS2 : St p2) by (apply St_set_vstack; apply Hok1).
        assert (Hok2 : Ok p0 p2).
        { eapply Ok_field; [exact (Ok_trans _ _ _ Hq Hok1)|exact HS2|reflexivity..|]. unfold off. simpl. lia. }
        assert (Ho2 : off p2 = off p) by (specialize (Hfail eq_refl); unfold off in *; simpl in *; lia).
        assert (Hst2 : Stacks p0 p2).
        { destruct Hst as (_ & _ & Hrs1). split; [cbn; rewrite Hvs; reflexivity|].
          split; [cbn; rewrite Hvs; exact Hne0|]. cbn. rewrite Hrs1. cbn. exact Hrs. }
        exists (match flag, vals with
                | true, [] => Done (VNil, false) p2
                | _, _ => Done (VSlice vals, true) p2
                end), (S N1). split.
        -- intros f k Hf Hk. destruct k as [|k]; [lia|]. cbn [repeatLoop]. unfold bindO.
           rewrite HF1 by lia. rewrite Hpop. destruct flag, vals; reflexivity.
        -- destruct flag, vals as [|v0 vals]; simpl; (split; [exact Hok2|]).
           ++ split; [discriminate|]. split; [intros _; rewrite Ho2; auto|exact Hst2].
           ++ split; [intros _ _; rewrite Ho2; apply Hcons; discriminate|].
              split; [discriminate|exact Hst2].
           ++ split; [discriminate|]. split; [discriminate|exact Hst2].
           ++ split; [discriminate|]. split; [discriminate|exact Hst2].
    + exists (Panicked msg p1), (S N1). split.
      * intros f k Hf Hk. destruct k as [|k]; [lia|]. cbn [repeatLoop]. unfold bindO.
        rewrite HF1 by lia. reflexivity.
      * simpl. split; [eapply Ok_trans; [exact Hq|apply HQ1]|apply HQ1].
  - assert (HSp : St p) by apply Hok.
    assert (Hq : Ok p0 (pushV p)) by (eapply Ok_trans; [exact Hok|apply Ok_pushV; exact HSp]).
    assert (HGq : Good e (pushV p)).
    { apply HG; [apply Pre_pushV; exact HSp|].
      pose proof (rem_le p0 p Hok). unfold rem, off in *. simpl. lia. }
    destruct HGq as (r1 & N1 & HF1 & HQ1).
    destruct r1 as [[val ok] p1|msg p1|]; simpl in HQ1; [| |contradiction].
    + destruct HQ1 as [Hok1 (Hprog & Hfail & Hst)].
      pose proof (popV_Stacks (pushV p) p1 (vstack p) ∅ eq_refl Hst) as Hpop.
      set (p2 := set_vstack p1 (vstack p)) in *.
      assert (HS2 : St p2) by (apply St_set_vstack; apply Hok1).
      assert (Hok2 : Ok p0 p2).
      { eapply Ok_field; [exact (Ok_trans _ _ _ Hq Hok1)|exact HS2|reflexivity..|]. unfold off. simpl. lia. }
      assert (Hst2 : Stacks p0 p2).
      { destruct Hst as (_ & _ & Hrs1). split; [cbn; rewrite Hvs; reflexivity|].
        split; [cbn; rewrite Hvs; exact Hne0|]. cbn. rewrite Hrs1. cbn. exact Hrs. }
      destruct ok.
      * specialize (Hprog eq_refl Hnl).
        assert (Hlt : off p < off p2) by (unfold off in *; simpl in *; lia).
        assert (Hm2 : rem p2 <= m).
        { pose proof (off_le_length p2 HS2) as Hle.
          destruct Hok1 as (_ & Hd & _). unfold rem, off in *. simpl in *. rewrite Hd in *. lia. }
        destruct (IH p0 p2 (vals ++ [val])%list Hm2 (conj HS0 Hne0) Hn Hok2) as (r & N2 & HF2 & HQ2).
        -- exact Hvs.
        -- destruct Hst as (_ & _ & Hrs1). cbn. rewrite Hrs1. cbn. exact Hrs.
        -- intros Hv. destruct vals; discriminate.
        -- intros _. destruct Hok as (_ & _ & _ & Ho). lia.
        -- exists r, (S (Nat.max N1 N2)). split; [|exact HQ2].
           intros f k Hf Hk. destruct k as [|k]; [lia|]. cbn [repeatLoop]. unfold bindO.
           rewrite HF1 by lia. rewrite Hpop. apply HF2; lia.
      * assert (Ho2 : off p2 = off p) by (specialize (Hfail eq_refl); unfold off in *; simpl in *; lia).
        exists (match flag, vals with
                | true, [] => Done (VNil, false) p2
                | _, _ => Done (VSlice vals, true) p2
                end), (S N1). split.
        -- intros f k Hf Hk. destruct k as [|k]; [lia|]. cbn [repeatLoop]. unfold bindO.
           rewrite HF1 by lia. rewrite Hpop. destruct flag, vals; reflexivity.
        -- destruct flag, vals as [|v0 vals]; simpl; (split; [exact Hok2|]).
           ++ split; [discriminate|]. split; [intros _; rewrite Ho2; auto|exact Hst2].
           ++ split; [intros _ _; rewrite Ho2; apply Hcons; discriminate|].
              split; [discriminate|exact Hst2].
           ++ split; [discriminate|]. split; [discriminate|exact Hst2].
           ++ split; [discriminate|]. split; [discriminate|exact Hst2].
    + exists (Panicked msg p1), (S N1). split.
      * intros f k Hf Hk. destruct k as [|k]; [lia|]. cbn [repeatLoop]. unfold bindO.
        rewrite HF1 by lia. reflexivity.
      * simpl. split; [eapply Ok_trans; [exact Hq|apply HQ1]|apply HQ1].
Qed.

Lemma wfe_seqExpr a b es : wfe tbl top b (seqExpr a es) = wfeSeq tbl top b es.
Proof.
  revert b. induction es as [|e es IH]; intros b; [reflexivity|].
  cbn [wfeSeq]. rewrite <- IH. reflexivity.
Qed.

Lemma size_In e l : In e l -> size e <= list_sum (map size l).
Proof.
  induction l as [|x l IH]; intros Hin; [contradiction|].
  simpl. destruct Hin as [<-|Hin]; [lia|]. specialize (IH Hin). lia.
Qed.

(** [parseExpr] comes to an end on every expression of a grammar that the
    analysis accepts. The induction is on what is left of the input, then on
    the bound on the ranks, then on the size of the expression. *)
Lemma parseExpr_Good :
  forall n bd s e, size e <= s -> wfe tbl top bd e = true -> GoodAt n e.
Proof.
  induction n as [n IHn] using lt_wf_ind.
  induction bd as [bd IHb] using lt_wf_ind.
  induction s as [|s IHs]; intros e Hsize Hw p HP Hrem.
  { destruct e; simpl in Hsize; lia. }
  assert (HSp : St p) by apply HP.
  assert (Hpush : forall q, rem q = rem p -> rem q <= n) by (intros q ->; exact Hrem).
  apply parseExpr_T; [exact HSp|].
  destruct e as [a run e'|a e'|a e'|a e'|a e'|a e'|a alts|a es|a label e'|a nm|a val ic
                |a val chars ranges ic inv|a]; cbn [dispatch]; cbn [size] in Hsize.
  - apply parseActionExpr_T; [exact HP|]. apply (IHs e'); [lia|exact Hw|exact HP|exact Hrem].
  - apply parseAndExpr_T; [exact HP|].
    apply (IHs e'); [lia|exact Hw|apply Pre_pushV; exact HSp|exact Hrem].
  - apply parseNotExpr_T; [exact HP|].
    apply (IHs e'); [lia|exact Hw| |exact Hrem].
    split; [revert HSp; apply St_field; reflexivity|discriminate].
  - apply parseZeroOrOneExpr_T; [exact HP|].
    apply (IHs e'); [lia|exact Hw|apply Pre_pushV; exact HSp|exact Hrem].
  - cbn [wfe] in Hw. apply andb_true_iff in Hw as [Hw Hnl]. apply negb_true_iff in Hnl.
    destruct (repeatLoop_T n false e' (IHs e' ltac:(lia) Hw) Hnl (rem p) p p []
                (le_n _) HP Hrem (Ok_refl p HSp) eq_refl eq_refl (fun _ => eq_refl))
      as (r & N & HF & HQ); [intros Hc; congruence|].
    exists r, N. split; [intros f Hf; apply HF; lia|].
    destruct r as [[val ok] p'|msg p'|]; simpl in *; auto.
    destruct HQ as [Hok (Hp & Hf & Hst)]. split; [exact Hok|].
    split; [discriminate|]. split; [exact Hf|exact Hst].
  - cbn [wfe] in Hw. apply andb_true_iff in Hw as [Hw Hnl]. apply negb_true_iff in Hnl.
    destruct (repeatLoop_T n true e' (IHs e' ltac:(lia) Hw) Hnl (rem p) p p []
                (le_n _) HP Hrem (Ok_refl p HSp) eq_refl eq_refl (fun _ => eq_refl))
      as (r & N & HF & HQ); [intros Hc; congruence|].
    exists r, N. split; [intros f Hf; apply HF; lia|].
    destruct r as [[val ok] p'|msg p'|]; simpl in *; auto.
    destruct HQ as [Hok (Hp & Hf & Hst)]. split; [exact Hok|].
    split; [intros Hs _; apply Hp; auto|]. split; [exact Hf|exact Hst].
  - cbn [wfe] in Hw. rewrite forallb_forall in Hw.
    apply (parseChoiceExpr_T n alts); auto.
    + intros alt Hin. apply (IHs alt); [|apply Hw; exact Hin].
      pose proof (size_In alt alts Hin). lia.
    + apply Ok_refl. exact HSp.
  - rewrite wfe_seqExpr in Hw. unfold parseSeqExpr.
    eapply T_weaken.
    + apply (seqLoop_T n bd es) with (strict := false); auto.
      * intros e' Hin Hwe. apply (IHs e'); [|exact Hwe].
        pose proof (size_In e' es Hin). lia.
      * intros e' Hin Hwe q HPq Hlt. apply (IHn (rem q) Hlt top (size e') e'); auto.
      * apply Ok_refl. exact HSp.
      * apply Stacks_refl. apply HP.
    + intros [[val ok] p'|msg p'|]; simpl; auto.
      intros [Hok (Hp & Hf & Hst)]. split; [exact Hok|].
      split; [|split; [exact Hf|exact Hst]].
      intros Hs Hnl. apply Hp; [exact Hs|]. right. exact Hnl.
  - apply parseLabeledExpr_T; [exact HP|].
    apply (IHs e'); [lia|exact Hw|apply Pre_pushV; exact HSp|exact Hrem].
  - apply (parseRuleRefExpr_T a nm bd); [exact HP|exact Hw|].
    intros r rk Hin Hrk Hwe. apply (IHb rk Hrk (size (expr_ r)) (expr_ r)); auto.
    split; [revert HSp; apply St_field; reflexivity|discriminate].
  - apply parseLitMatcher_T. exact HP.
  - apply parseCharClassMatcher_T; [exact HP|exact Hw].
  - apply parseAnyMatcher_T. exact HP.
Qed.

Lemma dedupe_Forall (P : parserError -> Prop) e : forall seen, Forall P e -> Forall P (dedupe seen e).
Proof.
  induction e as [|x e IH]; intros seen H; [constructor|].
  inversion H as [|? ? Hx He]; subst. cbn [dedupe].
  destruct (existsb _ seen); [apply IH; exact He|constructor; [exact Hx|apply IH; exact He]].
Qed.

(** [parse] on a parser that does not memoize: from some fuel on it returns
    the same value and errors, all within the data, unless a helper panics
    and the parser does not recover. *)
Lemma parse_T p :
  memoize p = false ->
  validPos (data p) (position_ (pt p)) ->
  offset (position_ (pt p)) + w (pt p) <= length (data p) ->
  validErrs (data p) (errs p) -> validPos (data p) (maxFailPos p) ->
  exists r N,
    (forall fuel, N <= fuel -> parse fuel gr p = r) /\
    match r with
    | Returns val e => validErrs (data p) e
    | Panics msg => recover p = false /\ helperPanics msg
    | Diverges => False
    end.
Proof.
  intros Hm Hpos Hw Herrs Hmax. unfold parse.
  destruct (rules_ gr) as [|start rest] eqn:Hrules.
  - eexists. exists 0. split; [reflexivity|]. cbn beta iota.
    apply dedupe_Forall. unfold addErr, addErrAt. cbn [errs set_errs].
    apply Forall_app. split; [exact Herrs|]. constructor; [exact Hpos|constructor].
  - set (p0 := buildRulesTable gr p).
    destruct (read_spec p0 Hm eq_refl Hpos Hw Herrs Hmax) as (p1 & Hread & HS1 & HF1 & Ho1).
    assert (Hin : In start (rules_ gr)) by (rewrite Hrules; left; reflexivity).
    pose proof (wfRule_In start Hin) as Hwr. unfold wfRule in Hwr.
    destruct (lookupInfo tbl (name start)) as [[rk nl]|]; [|discriminate].
    apply andb_true_iff in Hwr as [Hwr _]. apply andb_true_iff in Hwr as [_ Hwe].
    set (q := pushV (set_rstack p1 (start :: rstack p1))).
    assert (HPq : Pre q).
    { split; [revert HS1; apply St_field; reflexivity|discriminate]. }
    pose proof (parseRule_T start p1 HS1
                  (parseExpr_Good (rem q) rk (size (expr_ start)) (expr_ start)
                     (le_n _) Hwe q HPq (le_n _))) as (r & N & HF & HQ).
    assert (Hd1 : data p1 = data p) by apply HF1.
    assert (Hr1 : recover p1 = recover p) by apply HF1.
    destruct r as [[val ok] p2|msg p2|]; simpl in HQ; [| |contradiction].
    + destruct HQ as [(HS2 & Hd2 & Hr2 & _) _].
      destruct HS2 as (_ & _ & _ & He2 & Hmax2). rewrite Hd2, Hd1 in He2, Hmax2.
      eexists. exists N. split.
      * intros fuel Hf. unfold bindO. fold p0. rewrite Hread. rewrite HF by exact Hf. reflexivity.
      * cbn beta iota. destruct ok; [apply dedupe_Forall; exact He2|].
        apply dedupe_Forall. destruct (length (errs p2) =? 0); [|exact He2].
        unfold noMatch, addErrAt. cbn [errs set_errs].
        apply Forall_app. split; [exact He2|]. constructor; [exact Hmax2|constructor].
    + destruct HQ as [(HS2 & Hd2 & Hr2 & _) Hhp].
      assert (Hv2 : validPos (data p) (position_ (pt p2))).
      { rewrite <- Hd1, <- Hd2. apply validPos_pt. exact HS2. }
      destruct HS2 as (_ & _ & _ & He2 & _). rewrite Hd2, Hd1 in He2.
      eexists. exists N. split.
      * intros fuel Hf. unfold bindO. fold p0. rewrite Hread. rewrite HF by exact Hf. reflexivity.
      * cbn beta iota. rewrite Hr2, Hr1.
        destruct (recover p); [|split; [reflexivity|exact Hhp]].
        apply dedupe_Forall. unfold addErr, addErrAt. cbn [errs set_errs].
        apply Forall_app. split; [exact He2|]. constructor; [exact Hv2|constructor].
Qed.

(** A rule of [gr] called on any parser that does not memoize and is within
    its data: the call comes to an end; a rule that fails has consumed
    nothing, a rule that matches and is not nullable has consumed input, and
    both stacks are as they were. *)
Lemma parseRule_Good r p :
  In r (rules_ gr) -> St p ->
  T (fun f => parseRule (parseExpr f) r) p (Post p (ProgRule r p)).
Proof.
  intros Hin HS.
  pose proof (wfRule_In r Hin) as Hwr. unfold wfRule in Hwr.
  destruct (lookupInfo tbl (name r)) as [[rk nl]|]; [|discriminate].
  apply andb_true_iff in Hwr as [Hwr _]. apply andb_true_iff in Hwr as [_ Hwe].
  set (q := pushV (set_rstack p (r :: rstack p))).
  assert (HPq : Pre q).
  { split; [revert HS; apply St_field; reflexivity|discriminate]. }
  exact (parseRule_T r p HS
           (parseExpr_Good (rem q) rk (size (expr_ r)) (expr_ r) (le_n _) Hwe q HPq (le_n _))).
Qed.

End Termination.

(** *** What the parser guarantees *)

(** The analysis accepts the grammar. *)
Lemma g_wf : wfGrammar analysis 12 g = true.
Proof. vm_compute. reflexivity. Qed.

Lemma dedupe_nil e : forall seen, dedupe seen e = [] -> Forall (fun x => In (Error x) seen) e.
Proof.
  induction e as [|x e IH]; intros seen H; [constructor|].
  cbn [dedupe] in H. destruct (existsb (String.eqb (Error x)) seen) eqn:Hex; [|discriminate].
  constructor; [|apply IH; exact H].
  apply existsb_exists in Hex as (y & Hy & Heq). apply String.eqb_eq in Heq. subst y. exact Hy.
Qed.

Lemma err_nil e : err e = [] -> e = [].
Proof.
  intros H. apply dedupe_nil in H. destruct e as [|x e]; [reflexivity|].
  inversion H as [|? ? Hx _]. destruct Hx.
Qed.

Lemma dedupe_spec e :
  forall seen,
    NoDup (map Error (dedupe seen e)) /\
    (forall x, In x (dedupe seen e) -> In x e /\ ~ In (Error x) seen) /\
    (forall x, In x e -> In (Error x) seen \/ In (Error x) (map Error (dedupe seen e))) /\
    sublist (dedupe seen e) e.
Proof.
  induction e as [|y e IH]; intros seen.
  - cbn. split; [constructor|]. split; [intros x []|]. split; [intros x []|constructor].
  - cbn [dedupe]. destruct (existsb (String.eqb (Error y)) seen) eqn:Hex.
    + destruct (IH seen) as (Hnd & Hin & Hall & Hsub).
      split; [exact Hnd|]. split; [|split].
      * intros x Hx. destruct (Hin x Hx) as [H1 H2]. split; [right; exact H1|exact H2].
      * intros x [<-|Hx]; [|apply Hall; exact Hx]. left.
        apply existsb_exists in Hex as (z & Hz & Heq). apply String.eqb_eq in Heq. subst z. exact Hz.
      * apply sublist_cons. exact Hsub.
    + destruct (IH (Error y :: seen)) as (Hnd & Hin & Hall & Hsub).
      assert (Hny : ~ In (Error y) seen).
      { intros Hy. assert (existsb (String.eqb (Error y)) seen = true); [|congruence].
        apply existsb_exists. exists (Error y). split; [exact Hy|apply String.eqb_refl]. }
      split; [|split; [|split]].
      * cbn [map]. apply NoDup_cons. split; [|exact Hnd].
        rewrite list_elem_of_In. intros Hy. apply in_map_iff in Hy as (x & Hxe & Hx).
        destruct (Hin x Hx) as [_ Hns]. apply Hns. left. symmetry. exact Hxe.
      * intros x [<-|Hx]; [split; [left; reflexivity|exact Hny]|].
        destruct (Hin x Hx) as [H1 H2]. split; [right; exact H1|].
        intros Hs. apply H2. right. exact Hs.
      * intros x [<-|Hx]; [right; left; reflexivity|].
        destruct (Hall x Hx) as [[Hs|Hs]|Hs].
        -- right. left. exact Hs.
        -- left. exact Hs.
        -- right. right. exact Hs.
      * apply sublist_skip. exact Hsub.
Qed.


(** [parse] returns a nil error only when the grammar has a start rule, the
    start rule matched, the value is the one of the start rule, and no error
    was recorded on the way: a failed match always comes with an error. *)
Lemma parse_nil_error (fuel : nat) (gr : grammar) (p : parser) (val : Value) :
  parse fuel gr p = Returns val [] ->
  exists start rest p',
    rules_ gr = start :: rest /\
    (let* _ := read in parseRule (parseExpr fuel) start) (buildRulesTable gr p)
      = Done (val, true) p' /\
    errs p' = [].
Proof.
  unfold parse. destruct (rules_ gr) as [|start rest].
  - intros H. injection H as _ H. apply err_nil in H. unfold addErr, addErrAt in H.
    cbn [errs set_errs] in H. destruct (errs p); discriminate.
  - destruct ((let* _ := read in parseRule (parseExpr fuel) start) (buildRulesTable gr p))
      as [[v0 ok] p'|msg p'|] eqn:Hrun; [| |discriminate].
    + destruct ok.
      * intros H. injection H as -> H. apply err_nil in H. exists start, rest, p'.
        split; [reflexivity|]. split; [first [exact Hrun|reflexivity]|exact H].
      * intros H. injection H as _ H. apply err_nil in H. exfalso.
        destruct (errs p') as [|x l] eqn:He; simpl in H.
        -- unfold noMatch, addErrAt in H. cbn [errs set_errs] in H. rewrite He in H. discriminate.
        -- rewrite He in H. discriminate.
    + destruct (recover p'); [|discriminate].
      intros H. injection H as _ H. apply err_nil in H. unfold addErr, addErrAt in H.
      cbn [errs set_errs] in H. destruct (errs p'); discriminate.
Qed.

(** The start rule of the grammar matched the whole call of [Parse] on
    [input] with value [val], and no error was recorded. *)
Definition startMatched (fuel : nat) (filename : string) (input : list byte) (val : Value)
  : Prop :=
  exists start rest p',
    rules_ g = start :: rest /\
    (let* _ := read in parseRule (parseExpr fuel) start)
      (buildRulesTable g (newParser filename input [])) = Done (val, true) p' /\
    errs p' = [].

(** C8: [Parse] under the default options is total. For every file name and
    every input there are a value and a list of errors that [Parse] returns
    from some fuel on: it comes to an end and it does not panic, whatever
    the helpers of the actions do, a panic of theirs being turned into an
    error. Every error it returns is at a position (line from 1) whose offset
    is at most the length of the input; and when it returns no error, the
    value is the one the start rule matched the input with. *)
Theorem Parse_returns (filename : string) (input : list byte) :
  ToLower RuneError = RuneError ->
  exists val errs N,
    (forall fuel, N <= fuel -> Parse fuel filename input [] = Returns val errs) /\
    Forall (fun e => 1 <= line (pos_ e) /\ offset (pos_ e) <= length input) errs /\
    (errs = [] -> startMatched N filename input val).
Proof.
  intros HTL. unfold Parse.
  destruct (parse_T analysis 12 g g_wf HTL (newParser filename input [])) as (r & N & HF & HQ).
  - reflexivity.
  - split; simpl; lia.
  - simpl. lia.
  - constructor.
  - split; simpl; lia.
  - destruct r as [val errs|msg|]; [|destruct HQ as [Hr _]; discriminate Hr|contradiction].
    exists val, errs, N. split; [exact HF|]. split; [exact HQ|].
    intros ->. exact (parse_nil_error N g (newParser filename input []) val (HF N (le_n N))).
Qed.

(** With [Recover(false)] nothing recovers a panic; still [Parse] returns
    whenever no helper panics: the runtime itself never indexes a stack or
    slices the input out of range, and calls no rule without a name. *)
Theorem Parse_without_Recover_returns (filename : string) (input : list byte) :
  ToLower RuneError = RuneError ->
  (forall h args t ps msg, helper h args t ps <> Panic msg) ->
  exists val errs N,
    (forall fuel, N <= fuel -> Parse fuel filename input [Recover false] = Returns val errs) /\
    Forall (fun e => 1 <= line (pos_ e) /\ offset (pos_ e) <= length input) errs.
Proof.
  intros HTL Hhelper. unfold Parse.
  destruct (parse_T analysis 12 g g_wf HTL (newParser filename input [Recover false]))
    as (r & N & HF & HQ).
  - reflexivity.
  - split; simpl; lia.
  - simpl. lia.
  - constructor.
  - split; simpl; lia.
  - destruct r as [val errs|msg|]; [| |contradiction].
    + exists val, errs, N. split; [exact HF|exact HQ].
    + destruct HQ as [_ (h & args & t & ps & Hp)]. destruct (Hhelper h args t ps msg Hp).
Qed.

(** A rule of the grammar called at any point of any input, without
    memoization: the call comes to an end; it gives both stacks back as they
    were; it never moves backwards; a rule that fails is back at the offset
    where it began, and a rule that matches and is not nullable has consumed
    input. A panic can only be a helper's. *)
Theorem parseRule_backtracks (r : rule) (p : parser) :
  ToLower RuneError = RuneError -> In r (rules_ g) -> St g p ->
  exists res N,
    (forall fuel, N <= fuel -> parseRule (parseExpr fuel) r p = res) /\
    match res with
    | Done (val, ok) p' =>
        St g p' /\ data p' = data p /\ vstack p' = vstack p /\ rstack p' = rstack p /\
        off p <= off p' /\
        (ok = false -> off p' = off p) /\
        (ok = true -> nullable analysis (expr_ r) = false -> off p < off p')
    | Panicked msg _ => helperPanics msg
    | OutOfFuel => False
    end.
Proof.
  intros HTL Hin HS.
  destruct (parseRule_Good analysis 12 g g_wf HTL r p Hin HS) as (res & N & HF & HQ).
  exists res, N. split; [exact HF|].
  destruct res as [[val ok] p'|msg p'|]; simpl in HQ.
  - destruct HQ as [(HS' & Hd & _ & Ho) (Hprog & Hfail & Hv & Hrs)].
    split; [exact HS'|]. split; [exact Hd|]. split; [exact Hv|]. split; [exact Hrs|].
    split; [exact Ho|]. split; [exact Hfail|exact Hprog].
  - apply HQ.
  - exact HQ.
Qed.

(** [errList.err] keeps, in their order, the first error of every message:
    no two errors it returns have the same message, every error it returns
    was recorded, and the message of every recorded error is still there. *)
Theorem err_dedupes (e : errList) :
  NoDup (map Error (err e)) /\
  sublist (err e) e /\
  Forall (fun x => In (Error x) (map Error (err e))) e.
Proof.
  unfold err. destruct (dedupe_spec e []) as (Hnd & _ & Hall & Hsub).
  split; [exact Hnd|]. split; [exact Hsub|].
  apply Forall_forall. intros x Hx. apply list_elem_of_In in Hx.
  destruct (Hall x Hx) as [[]|H]. exact H.
Qed.

(** What [setMemoized] stores, [getMemoized] finds when the parser is at the
    offset of the savepoint, under the same node; every other entry of the
    memo is as it was. *)
Theorem getMemoized_setMemoized (sp : savepoint) (node node' : string + nat)
    (t : resultTuple) (p : parser) :
  getMemoized node' (setMemoized sp node t p) =
    if decide (offset (position_ sp) = offset (position_ (pt p)) /\ node = node')
    then Some t
    else getMemoized node' p.
Proof.
  unfold getMemoized, setMemoized. cbn [memo pt set_memo].
  destruct (decide (offset (position_ sp) = offset (position_ (pt p)))) as [Eo|Eo].
  - rewrite <- Eo. rewrite lookup_insert_eq.
    destruct (decide (node = node')) as [En|En].
    + subst node'. rewrite lookup_insert_eq.
      destruct (decide _) as [_|Hn]; [reflexivity|]. destruct Hn. auto.
    + rewrite lookup_insert_ne by exact En.
      destruct (decide _) as [[_ Hn]|_]; [contradiction|].
      destruct (memo p !! offset (position_ sp)); [reflexivity|apply lookup_empty].
  - rewrite lookup_insert_ne by exact Eo.
    destruct (decide _) as [[Hn _]|_]; [contradiction|reflexivity].
Qed.

(** [failAt] keeps the farthest failure: the position it keeps never moves
    backwards; a call whose flag is not the parser's changes nothing; a call
    behind the farthest position changes nothing; a call beyond it starts the
    list of what was expected anew, and a call at it adds to the list. *)
Theorem failAt_farthest (fail : bool) (ps : position) (want : string) (p : parser) :
  let p' := failAt fail ps want p in
  let want' := if maxFailInvertExpected p then ("!" ++ want)%string else want in
  offset (maxFailPos p) <= offset (maxFailPos p') /\
  (fail <> maxFailInvertExpected p \/ offset ps < offset (maxFailPos p) -> p' = p) /\
  (fail = maxFailInvertExpected p -> offset (maxFailPos p) < offset ps ->
   maxFailPos p' = ps /\ maxFailExpected p' = [want']) /\
  (fail = maxFailInvertExpected p -> offset (maxFailPos p) = offset ps ->
   maxFailPos p' = maxFailPos p /\ maxFailExpected p' = (maxFailExpected p ++ [want'])%list).
Proof.
  cbv zeta. unfold failAt.
  destruct (Bool.eqb fail (maxFailInvertExpected p)) eqn:Hf.
  - apply Bool.eqb_prop in Hf.
    destruct (Nat.ltb_spec (offset ps) (offset (maxFailPos p))) as [Hlt|Hge].
    + split; [lia|]. split; [reflexivity|]. split; intros; lia.
    + destruct (Nat.ltb_spec (offset (maxFailPos p)) (offset ps)) as [Hlt|Hle].
      * split; [simpl; lia|]. split; [intros [Hn|Hn]; [congruence|lia]|].
        split; [intros _ _; split; reflexivity|intros; lia].
      * split; [simpl; lia|]. split; [intros [Hn|Hn]; [congruence|lia]|].
        split; [intros; lia|intros _ _; split; reflexivity].
  - apply Bool.eqb_false_iff in Hf.
    split; [lia|]. split; [reflexivity|]. split; intros; congruence.
Qed.

End Parser.

Arguments Done {A X} x p.
Arguments Panicked {A X} msg p.
Arguments OutOfFuel {A X}.

(** ** A parser to run *)

(** Modelled from the spec: the helpers of the grammar ([program],
    [callexpr], ...) are not among the sources; the specification has them
    build the node of the AST from their arguments, the text and the
    position, without error. *)
Inductive Ast :=
| AstNode (kind : helperName) (args : list (@Value Ast)) (text : list byte) (ps : position).

Definition specHelper (h : helperName) (args : list (@Value Ast)) (text : list byte)
    (ps : position) : @ActionResult Ast :=
  Return (VNode (AstNode h args text ps)) None.

(** [unicode.ToLower] on ASCII. *)
Definition asciiToLower (r : rune) : rune :=
  if ((65 <=? r) && (r <=? 90))%Z then (r + 32)%Z else r.

(** The input [from(db:"x")]. *)
Definition fromDb : list byte :=
  String.list_byte_of_string ("from(db:" ++ dq ++ "x" ++ dq ++ ")").

Lemma Parse_returns_witness :
  asciiToLower RuneError = RuneError /\
  exists val errs N,
    (forall fuel, N <= fuel ->
       Parse specHelper asciiToLower fuel "" fromDb [] = Returns val errs) /\
    Forall (fun e => 1 <= line (pos_ e) /\ offset (pos_ e) <= length fromDb) errs /\
    (errs = [] -> startMatched specHelper asciiToLower N "" fromDb val).
Proof.
  split; [reflexivity|]. apply (Parse_returns specHelper asciiToLower "" fromDb). reflexivity.
Defined.

(** C9: on the input [a], which does not parse, [Parse] with [Memoize(true)]
    and [Parse] without it return different errors. Both report no match at
    the same position, offset 1; without memoization the error lists five
    things that were expected there, with memoization only four of them: the
    class [[ \t\r\n]] of the rule [ws] is missing, and so the message is
    another one. The rule [ws] was tried at offset 1 before, inside a [!]
    predicate, where [failAt] did not record its failure; the memo then
    answers the second call, and [failAt] is not called again. *)
Theorem Memoize_changes_the_error :
  exists e1 e2,
    Parse specHelper asciiToLower 60 "" [Byte.x61] [] = Returns VNil [e1] /\
    Parse specHelper asciiToLower 60 "" [Byte.x61] [Memoize true] = Returns VNil [e2] /\
    pos_ e1 = {| line := 1; col := 2; offset := 1 |} /\
    pos_ e2 = {| line := 1; col := 2; offset := 1 |} /\
    length (expected e2) = 4 /\
    expected e1 = (expected e2 ++ ["[ \t\r\n]"%string])%list /\
    Inner e1 <> Inner e2.
Proof.
  eexists. eexists.
  split; [vm_compute; reflexivity|].
  split; [vm_compute; reflexivity|].
  repeat split; try reflexivity.
  vm_compute. discriminate.
Qed.

End Ifql.
